(** * guMCP-js: transport, session and framing layer

    A shallow embedding of the gateway ([runRemoteServer], the plugin
    registry and the lookup of the stdio mode), of the line-delimited
    JSON-RPC framer of the calendar plugin ([Server.handleRequest],
    [Server.run]) and of the handlers [createServer] registers, and of
    the credential store ([createAuthClient], [LocalAuthClient]).

    Conventions of the embedding:
    - a JavaScript string is its sequence of UTF-16 code units, [list N];
    - a JSON value is the tree [json]; numbers are exact decimals, and
      what is proved of the texts the framer reads is proved of those
      that JavaScript reads as they are written ([as_written]);
    - an exception is the [Throw] branch of [completion];
    - the gateway's module-level maps are [gmap]s threaded through the
      route handlers as explicit state. *)

From Stdlib Require Import ZArith NArith List Ascii String Lia Permutation Bool.
From stdpp Require Import base option list gmap.

Local Open Scope N_scope.

(** ** JavaScript strings *)

Module JS.

Abbreviation jsstring := (list N).

(** A string literal of the source, as code units. *)
Definition js (s : string) : jsstring :=
  map N_of_ascii (list_ascii_of_string s).
Arguments js s%_string : simpl never.

(** The same with every apostrophe read as a double quote, to write
    JSON texts. *)
Definition json_text (s : string) : jsstring :=
  map (fun c => if c =? 39 then 34 else c) (js s).
Arguments json_text s%_string : simpl never.

Definition eqb (a b : jsstring) : bool := bool_decide (a = b).

(** [String.prototype.indexOf('\n')]: [None] stands for [-1]. *)
Fixpoint indexOf_LF (s : jsstring) : option nat :=
  match s with
  | [] => None
  | c :: r => if c =? 10 then Some O
              else match indexOf_LF r with
                   | Some i => Some (S i)
                   | None => None
                   end
  end.

(** [substring(0, b)] and [substring(b + 1)] for an index inside the string. *)
Definition substring_to (b : nat) (s : jsstring) : jsstring := take b s.
Definition substring_from (b : nat) (s : jsstring) : jsstring := drop b s.

(** WhiteSpace and LineTerminator code units, as [String.prototype.trim]
    strips them. *)
Definition is_trim_space (c : N) : bool :=
  ((9 <=? c) && (c <=? 13)) || (c =? 32) || (c =? 160) || (c =? 5760)
  || ((8192 <=? c) && (c <=? 8202)) || (c =? 8232) || (c =? 8233)
  || (c =? 8239) || (c =? 8287) || (c =? 12288) || (c =? 65279).

Fixpoint trimStart (s : jsstring) : jsstring :=
  match s with
  | c :: r => if is_trim_space c then trimStart r else s
  | [] => []
  end.

Definition trimEnd (s : jsstring) : jsstring := rev (trimStart (rev s)).
Definition trim (s : jsstring) : jsstring := trimEnd (trimStart s).

(** [String.prototype.split('\n')]: never empty, the pieces hold no LF. *)
Fixpoint split_LF (s : jsstring) : list jsstring :=
  match s with
  | [] => [[]]
  | c :: r =>
      if c =? 10 then [] :: split_LF r
      else match split_LF r with
           | l :: ls => (c :: l) :: ls
           | [] => [[c]]
           end
  end.

(** [Array.prototype.join(sep)]. *)
Fixpoint join (sep : jsstring) (parts : list jsstring) : jsstring :=
  match parts with
  | [] => []
  | [p] => p
  | p :: ps => p ++ sep ++ join sep ps
  end.

(** ASCII part of [String.prototype.toLowerCase]. *)
Definition lower_unit (c : N) : N :=
  if (65 <=? c) && (c <=? 90) then c + 32 else c.
Definition toLowerCase (s : jsstring) : jsstring := map lower_unit s.

(** Truthiness of a string: non-empty. *)
Definition truthy_string (s : jsstring) : bool :=
  match s with [] => false | _ => true end.

(** [a || b] on strings that may be undefined. *)
Definition or_default (a : option jsstring) (b : jsstring) : jsstring :=
  match a with
  | Some s => if truthy_string s then s else b
  | None => b
  end.

End JS.

Export JS.

(** ** Completions: a returned value or a thrown exception

    What is thrown is an [Error], given by its message, wherever the
    code throws one itself; where it may be any value, as for a module
    whose import fails, it is a [thrown]. *)

Inductive completion_of (E A : Type) : Type :=
| Return (a : A)
| Throw (e : E).
Arguments Return {E A} a.
Arguments Throw {E A} e.

Abbreviation completion := (completion_of jsstring).

(** Whether a completion is a return, and the value it returns. *)
Definition returned {A} (c : completion A) : bool :=
  match c with Return _ => true | Throw _ => false end.

Definition value_of {A} (c : completion A) (otherwise : A) : A :=
  match c with Return a => a | Throw _ => otherwise end.

#[export] Instance completion_ret : MRet completion := fun A a => Return a.
#[export] Instance completion_bind : MBind completion := fun A B k c =>
  match c with
  | Return a => k a
  | Throw m => Throw m
  end.

(** A value caught by [catch (error)], as far as the code looks at it:
    the text of [`${error.message}`], or, for a value whose [message]
    cannot be read or written into a template literal ([null] and
    [undefined], for one), the message of the [TypeError] that this
    throws. *)
Inductive thrown :=
| with_message (message : jsstring)
| without_message (typeError : jsstring).

(** ** JSON values, [JSON.stringify] and [JSON.parse] *)

Module JSON.

(** A finite number as its shortest decimal expansion: the significant
    digits [num_digits] (most significant first, no leading or trailing
    zero) and the position [num_exp] of the decimal point, so that the
    value is [0.d1 d2 ... dk * 10 ^ num_exp].  Zero has no digits. *)
Record jsnum := { num_neg : bool; num_digits : list N; num_exp : Z }.

Definition num_zero : jsnum := {| num_neg := false; num_digits := []; num_exp := 0 |}.

#[warnings="-register-all"]
Inductive json : Type :=
| JNull
| JBool (b : bool)
| JNum (x : jsnum)
| JStr (s : jsstring)
| JArr (items : list json)
| JObj (fields : list (jsstring * json)).

(** *** Decimal digits *)

Definition digit_unit (d : N) : N := 48 + d.
Definition digit_units (ds : list N) : jsstring := map digit_unit ds.
Definition zeros (n : nat) : jsstring := repeat 48 n.

Fixpoint N_digits_aux (fuel : nat) (n : N) (acc : list N) : list N :=
  match fuel with
  | O => n :: acc
  | S fuel => if n <? 10 then n :: acc
              else N_digits_aux fuel (n / 10) (n mod 10 :: acc)
  end.

(** The decimal digits of [n], most significant first. *)
Definition N_digits (n : N) : list N :=
  N_digits_aux (N.to_nat (N.log2 n)) n [].

Definition digits_value (ds : list N) : N :=
  fold_left (fun a d => 10 * a + d) ds 0.

Fixpoint strip_zeros (ds : list N) : list N :=
  match ds with
  | d :: r => if d =? 0 then strip_zeros r else ds
  | [] => []
  end.

(** The number with digit string [ds] and decimal point after the first
    [point] digits, in shortest form. *)
Definition normalize (neg : bool) (ds : list N) (point : Z) : jsnum :=
  let ds1 := strip_zeros ds in
  let point1 := (point - Z.of_nat (length ds - length ds1))%Z in
  match rev (strip_zeros (rev ds1)) with
  | [] => num_zero
  | ds2 => {| num_neg := neg; num_digits := ds2; num_exp := point1 |}
  end.

Definition num_of_Z (z : Z) : jsnum :=
  let ds := N_digits (Z.abs_N z) in
  normalize (z <? 0)%Z ds (Z.of_nat (length ds)).

(** *** Number::toString (radix 10) *)

Definition exponent_part (e : Z) : jsstring :=
  (if (0 <=? e)%Z then [43] else [45]) ++ digit_units (N_digits (Z.abs_N e)).

Definition Number_toString (x : jsnum) : jsstring :=
  match num_digits x with
  | [] => [48]
  | d :: ds =>
      let k := Z.of_nat (length (d :: ds)) in
      let n := num_exp x in
      (if num_neg x then [45] else []) ++
      (if (k <=? n)%Z && (n <=? 21)%Z then
         digit_units (d :: ds) ++ zeros (Z.to_nat (n - k))
       else if (0 <? n)%Z && (n <=? 21)%Z then
         digit_units (take (Z.to_nat n) (d :: ds)) ++ [46]
           ++ digit_units (drop (Z.to_nat n) (d :: ds))
       else if (-6 <? n)%Z && (n <=? 0)%Z then
         [48; 46] ++ zeros (Z.to_nat (- n)) ++ digit_units (d :: ds)
       else
         match ds with
         | [] => [digit_unit d] ++ [101] ++ exponent_part (n - 1)
         | _ => [digit_unit d] ++ [46] ++ digit_units ds ++ [101]
                  ++ exponent_part (n - 1)
         end)
  end.

(** *** QuoteJSONString *)

Definition hex_digit (n : N) : N := if n <? 10 then 48 + n else 87 + n.

Definition unicode_escape (c : N) : jsstring :=
  [92; 117; hex_digit (c / 4096); hex_digit ((c / 256) mod 16);
   hex_digit ((c / 16) mod 16); hex_digit (c mod 16)].

Definition is_high_surrogate (c : N) : bool := (55296 <=? c) && (c <=? 56319).
Definition is_low_surrogate (c : N) : bool := (56320 <=? c) && (c <=? 57343).

Definition escape_unit (c : N) : jsstring :=
  if c =? 8 then [92; 98]
  else if c =? 9 then [92; 116]
  else if c =? 10 then [92; 110]
  else if c =? 12 then [92; 102]
  else if c =? 13 then [92; 114]
  else if c =? 34 then [92; 34]
  else if c =? 92 then [92; 92]
  else if c <? 32 then unicode_escape c
  else [c].

Fixpoint quote_body (s : jsstring) : jsstring :=
  match s with
  | [] => []
  | c :: r =>
      if is_high_surrogate c then
        match r with
        | d :: r' =>
            if is_low_surrogate d then c :: d :: quote_body r'
            else unicode_escape c ++ quote_body r
        | [] => unicode_escape c
        end
      else if is_low_surrogate c then unicode_escape c ++ quote_body r
      else escape_unit c ++ quote_body r
  end.

Definition QuoteJSONString (s : jsstring) : jsstring :=
  34 :: quote_body s ++ [34].

(** *** [JSON.stringify] of a JSON value (no indentation, no replacer) *)

Fixpoint stringify (v : json) : jsstring :=
  match v with
  | JNull => js "null"
  | JBool true => js "true"
  | JBool false => js "false"
  | JNum x => Number_toString x
  | JStr s => QuoteJSONString s
  | JArr items => [91] ++ join [44] (map stringify items) ++ [93]
  | JObj fields =>
      [123] ++ join [44] (map (fun kv => QuoteJSONString (fst kv) ++ [58]
                                          ++ stringify (snd kv)) fields)
        ++ [125]
  end.

(** *** ToString, as used by template literals and [chunk.toString()] *)

Fixpoint ToString (v : json) : jsstring :=
  match v with
  | JNull => js "null"
  | JBool true => js "true"
  | JBool false => js "false"
  | JNum x => Number_toString x
  | JStr s => s
  | JArr items =>
      join [44] (map (fun i => match i with
                               | JNull => []
                               | _ => ToString i
                               end) items)
  | JObj _ => js "[object Object]"
  end.

(** *** Objects: own properties *)

(** [CreateDataProperty]: a repeated key keeps its place and takes the
    later value. *)
Fixpoint obj_set (k : jsstring) (v : json) (fields : list (jsstring * json))
  : list (jsstring * json) :=
  match fields with
  | [] => [(k, v)]
  | (k', v') :: r => if JS.eqb k k' then (k, v) :: r else (k', v') :: obj_set k v r
  end.

Fixpoint obj_get (k : jsstring) (fields : list (jsstring * json)) : option json :=
  match fields with
  | [] => None
  | (k', v) :: r => if JS.eqb k k' then Some v else obj_get k r
  end.

(** [v.k] for a value that is not null: [None] is [undefined]. *)
Definition get (v : json) (k : jsstring) : option json :=
  match v with
  | JObj fields => obj_get k fields
  | _ => None
  end.

(** ToBoolean. *)
Definition truthy (v : json) : bool :=
  match v with
  | JNull => false
  | JBool b => b
  | JNum x => match num_digits x with [] => false | _ => true end
  | JStr s => truthy_string s
  | JArr _ | JObj _ => true
  end.

Definition truthy_opt (v : option json) : bool :=
  match v with Some v => truthy v | None => false end.

(** *** Values where a string is expected

    [ToString] of an object calls its method [toString]; an own member
    of this name hides the one of [Object.prototype], and JSON cannot
    make it a function, so that the conversion throws a [TypeError].
    An array joins the conversions of its elements. *)

(** Whether [`${v}`], [String(v)] and [v.toString()] return; they then
    return [ToString v]. *)
Fixpoint interpolates (v : json) : bool :=
  match v with
  | JArr items => forallb interpolates items
  | JObj fields =>
      match obj_get (js "toString") fields with
      | Some _ => false
      | None => true
      end
  | _ => true
  end.

Definition interpolates_opt (v : option json) : bool :=
  match v with Some v => interpolates v | None => true end.

(** The message of the [TypeError] of a template literal. *)
Definition not_primitive : jsstring :=
  js "Cannot convert object to primitive value".

(** *** Texts that JavaScript reads as they are written

    [JSON.parse] rounds a number to a double and [JSON.stringify]
    writes the shortest expansion of the double; an object lists the
    members named by an array index first, in ascending order.  A
    number of at most 15 significant digits between 1e-301 and 1e300 is
    the shortest expansion of the double it is rounded to, and an
    object none of whose members is named by decimal digits keeps its
    members in the order of the text: such a value is held by
    JavaScript as [JSON.parse] of this file reads it. *)

Definition exact_number (x : jsnum) : bool :=
  (length (num_digits x) <=? 15)%nat
  && (-300 <=? num_exp x)%Z && (num_exp x <=? 300)%Z.

Definition digits_only (k : jsstring) : bool :=
  match k with
  | [] => false
  | _ => forallb (fun c => (48 <=? c) && (c <=? 57)) k
  end.

Fixpoint as_written (v : json) : bool :=
  match v with
  | JNum x => exact_number x
  | JArr items => forallb as_written items
  | JObj fields =>
      forallb (fun kv => negb (digits_only (fst kv)) && as_written (snd kv)) fields
  | _ => true
  end.

(** *** [JSON.parse] *)

Definition is_json_ws (c : N) : bool :=
  (c =? 32) || (c =? 9) || (c =? 10) || (c =? 13).

Fixpoint skip_ws (s : jsstring) : jsstring :=
  match s with
  | c :: r => if is_json_ws c then skip_ws r else s
  | [] => []
  end.

Definition hex_value (c : N) : option N :=
  if (48 <=? c) && (c <=? 57) then Some (c - 48)
  else if (97 <=? c) && (c <=? 102) then Some (c - 87)
  else if (65 <=? c) && (c <=? 70) then Some (c - 55)
  else None.

Definition simple_escape (e : N) : option N :=
  if e =? 34 then Some 34
  else if e =? 92 then Some 92
  else if e =? 47 then Some 47
  else if e =? 98 then Some 8
  else if e =? 102 then Some 12
  else if e =? 110 then Some 10
  else if e =? 114 then Some 13
  else if e =? 116 then Some 9
  else None.

(** The characters of a string literal after its opening quote. *)
Fixpoint parse_string_body (s : jsstring) : option (jsstring * jsstring) :=
  match s with
  | [] => None
  | c :: r =>
      if c =? 34 then Some ([], r)
      else if c =? 92 then
        match r with
        | [] => None
        | e :: r1 =>
            if e =? 117 then
              match r1 with
              | h1 :: h2 :: h3 :: h4 :: r2 =>
                  match hex_value h1, hex_value h2, hex_value h3, hex_value h4 with
                  | Some a, Some b, Some c', Some d =>
                      match parse_string_body r2 with
                      | Some (str, rest) =>
                          Some ((a * 4096 + b * 256 + c' * 16 + d) :: str, rest)
                      | None => None
                      end
                  | _, _, _, _ => None
                  end
              | _ => None
              end
            else
              match simple_escape e with
              | Some u =>
                  match parse_string_body r1 with
                  | Some (str, rest) => Some (u :: str, rest)
                  | None => None
                  end
              | None => None
              end
        end
      else if c <? 32 then None
      else
        match parse_string_body r with
        | Some (str, rest) => Some (c :: str, rest)
        | None => None
        end
  end.

Definition is_digit (c : N) : bool := (48 <=? c) && (c <=? 57).

Fixpoint span_digits (s : jsstring) : list N * jsstring :=
  match s with
  | c :: r =>
      if is_digit c then
        let '(ds, rest) := span_digits r in ((c - 48) :: ds, rest)
      else ([], s)
  | [] => ([], [])
  end.

Definition parse_int_part (s : jsstring) : option (list N * jsstring) :=
  match s with
  | c :: r =>
      if c =? 48 then Some ([0], r)
      else if is_digit c then Some (span_digits s)
      else None
  | [] => None
  end.

Definition parse_frac_part (s : jsstring) : option (list N * jsstring) :=
  match s with
  | c :: r =>
      if c =? 46 then
        match span_digits r with
        | ([], _) => None
        | (ds, rest) => Some (ds, rest)
        end
      else Some ([], s)
  | [] => Some ([], [])
  end.

Definition parse_exp_digits (neg : bool) (s : jsstring) : option (Z * jsstring) :=
  match span_digits s with
  | ([], _) => None
  | (ds, rest) =>
      let e := Z.of_N (digits_value ds) in
      Some (if neg then (- e)%Z else e, rest)
  end.

Definition parse_exp_part (s : jsstring) : option (Z * jsstring) :=
  match s with
  | c :: r =>
      if (c =? 101) || (c =? 69) then
        match r with
        | g :: r1 =>
            if g =? 43 then parse_exp_digits false r1
            else if g =? 45 then parse_exp_digits true r1
            else parse_exp_digits false r
        | [] => None
        end
      else Some (0%Z, s)
  | [] => Some (0%Z, [])
  end.

(** The digits of a number literal without its sign, the position of
    its decimal point, and what follows the literal. *)
Definition parse_unsigned (s : jsstring) : option (list N * Z * jsstring) :=
  match parse_int_part s with
  | Some (ids, s2) =>
      match parse_frac_part s2 with
      | Some (fds, s3) =>
          match parse_exp_part s3 with
          | Some (e, rest) =>
              Some (ids ++ fds, (Z.of_nat (length ids) + e)%Z, rest)
          | None => None
          end
      | None => None
      end
  | None => None
  end.

Definition parse_number (s : jsstring) : option (jsnum * jsstring) :=
  let '(neg, s1) := match s with
                    | c :: r => if c =? 45 then (true, r) else (false, s)
                    | [] => (false, s)
                    end in
  match parse_unsigned s1 with
  | Some (ds, point, rest) => Some (normalize neg ds point, rest)
  | None => None
  end.

Fixpoint expect (word : jsstring) (s : jsstring) : option jsstring :=
  match word, s with
  | [], _ => Some s
  | w :: word', c :: r => if c =? w then expect word' r else None
  | _ :: _, [] => None
  end.

Fixpoint parse_value (fuel : nat) (s : jsstring) : option (json * jsstring) :=
  match fuel with
  | O => None
  | S fuel =>
      match skip_ws s with
      | [] => None
      | c :: r =>
          if c =? 110 then
            match expect (js "ull") r with
            | Some rest => Some (JNull, rest) | None => None end
          else if c =? 116 then
            match expect (js "rue") r with
            | Some rest => Some (JBool true, rest) | None => None end
          else if c =? 102 then
            match expect (js "alse") r with
            | Some rest => Some (JBool false, rest) | None => None end
          else if c =? 34 then
            match parse_string_body r with
            | Some (str, rest) => Some (JStr str, rest) | None => None end
          else if c =? 91 then
            match skip_ws r with
            | c1 :: rest =>
                if c1 =? 93 then Some (JArr [], rest)
                else match parse_elements fuel r with
                     | Some (items, rest) => Some (JArr items, rest)
                     | None => None
                     end
            | [] => None
            end
          else if c =? 123 then
            match skip_ws r with
            | c1 :: rest =>
                if c1 =? 125 then Some (JObj [], rest)
                else match parse_members fuel [] r with
                     | Some (fields, rest) => Some (JObj fields, rest)
                     | None => None
                     end
            | [] => None
            end
          else
            match parse_number (c :: r) with
            | Some (x, rest) => Some (JNum x, rest) | None => None end
      end
  end
with parse_elements (fuel : nat) (s : jsstring) : option (list json * jsstring) :=
  match fuel with
  | O => None
  | S fuel =>
      match parse_value fuel s with
      | Some (v, r1) =>
          match skip_ws r1 with
          | c :: r2 =>
              if c =? 44 then
                match parse_elements fuel r2 with
                | Some (vs, rest) => Some (v :: vs, rest)
                | None => None
                end
              else if c =? 93 then Some ([v], r2)
              else None
          | [] => None
          end
      | None => None
      end
  end
with parse_members (fuel : nat) (acc : list (jsstring * json)) (s : jsstring)
  : option (list (jsstring * json) * jsstring) :=
  match fuel with
  | O => None
  | S fuel =>
      match skip_ws s with
      | q :: r =>
          if q =? 34 then
            match parse_string_body r with
            | Some (k, r1) =>
                match skip_ws r1 with
                | colon :: r2 =>
                    if colon =? 58 then
                      match parse_value fuel r2 with
                      | Some (v, r3) =>
                          match skip_ws r3 with
                          | c :: r4 =>
                              if c =? 44 then parse_members fuel (obj_set k v acc) r4
                              else if c =? 125 then Some (obj_set k v acc, r4)
                              else None
                          | [] => None
                          end
                      | None => None
                      end
                    else None
                | [] => None
                end
            | None => None
            end
          else None
      | [] => None
      end
  end.

(** [JSON.parse(text)]: [None] stands for the SyntaxError. *)
Definition parse (text : jsstring) : option json :=
  match parse_value (S (2 * length text)) text with
  | Some (v, rest) =>
      match skip_ws rest with
      | [] => Some v
      | _ => None
      end
  | None => None
  end.

(** *** Values that [JSON.stringify] and [JSON.parse] exchange

    A string of 16-bit code units; a number in shortest form, zero
    being unsigned; an object without a repeated key. *)
Definition wf_string (s : jsstring) : bool := forallb (fun c => c <? 65536) s.

Definition wf_num (x : jsnum) : bool :=
  forallb (fun d => d <? 10) (num_digits x)
  && match num_digits x with
     | [] => negb (num_neg x) && (num_exp x =? 0)%Z
     | d :: _ =>
         negb (d =? 0)
         && match rev (num_digits x) with
            | l :: _ => negb (l =? 0)
            | [] => false
            end
     end.

Fixpoint distinct (keys : list jsstring) : bool :=
  match keys with
  | [] => true
  | k :: rest => negb (existsb (JS.eqb k) rest) && distinct rest
  end.

Fixpoint well_formed (v : json) : bool :=
  match v with
  | JNull | JBool _ => true
  | JNum x => wf_num x
  | JStr s => wf_string s
  | JArr items => forallb well_formed items
  | JObj fields =>
      distinct (map fst fields)
      && forallb (fun kv => wf_string (fst kv) && well_formed (snd kv)) fields
  end.

(** What may follow a value inside a text: nothing, a comma or a
    closing bracket. *)
Definition delimited (rest : jsstring) : bool :=
  match rest with
  | [] => true
  | c :: _ => (c =? 44) || (c =? 93) || (c =? 125)
  end.

Definition starts_with_digit (s : jsstring) : bool :=
  match s with
  | c :: _ => is_digit c
  | [] => false
  end.

(** What may follow a number literal: no digit, point or exponent. *)
Definition number_end (rest : jsstring) : bool :=
  match rest with
  | [] => true
  | c :: _ => negb (is_digit c) && negb (c =? 46) && negb (c =? 101) && negb (c =? 69)
  end.

(** The text of one member of an object. *)
Definition member_text (kv : jsstring * json) : jsstring :=
  QuoteJSONString (fst kv) ++ [58] ++ stringify (snd kv).

(** A value whose text, followed by a delimiter, is read back as the
    value by a parser with enough fuel. *)
Definition reads_back (v : json) : Prop :=
  well_formed v = true ->
  forall rest fuel,
    delimited rest = true ->
    (2 * length (stringify v) + 1 <= fuel)%nat ->
    parse_value fuel (stringify v ++ rest) = Some (v, rest).

(** Every parser consumes at least one character of its input. *)
Definition consumes (fuel : nat) : Prop :=
  (forall s v rest,
     parse_value fuel s = Some (v, rest) -> (length rest < length s)%nat)
  /\ (forall s vs rest,
        parse_elements fuel s = Some (vs, rest) -> (length rest < length s)%nat)
  /\ (forall acc s fields rest,
        parse_members fuel acc s = Some (fields, rest) ->
        (length rest < length s)%nat).

(** With the fuel [JSON.parse] gives them, the parsers never stop for
    lack of fuel: any larger fuel gives the same answer. *)
Definition enough (fuel : nat) : Prop :=
  (forall s fuel',
     (2 * length s + 1 <= fuel)%nat -> (2 * length s + 1 <= fuel')%nat ->
     parse_value fuel s = parse_value fuel' s)
  /\ (forall s fuel',
        (2 * length s + 2 <= fuel)%nat -> (2 * length s + 2 <= fuel')%nat ->
        parse_elements fuel s = parse_elements fuel' s)
  /\ (forall acc s fuel',
        (2 * length s + 2 <= fuel)%nat -> (2 * length s + 2 <= fuel')%nat ->
        parse_members fuel acc s = parse_members fuel' acc s).

End JSON.

Export JSON.


(** ** The JSON-RPC framer of the calendar plugin
    ([src/servers/gcalendar/main.ts], class [Server]) *)

Module Framer.

(** What the promise returned by a registered handler settles to: a
    result, or an [Error] with a message. *)
Inductive outcome :=
| Resolved (result : json)
| Rejected (message : jsstring).

(** The four handler slots of a [Server]; [None] is an unregistered one. *)
Record Server := {
  listResourcesHandler : option (json -> outcome);
  readResourceHandler : option (json -> outcome);
  listToolsHandler : option (unit -> outcome);
  callToolHandler : option (json -> json -> outcome)
}.

(** [{ jsonrpc: '2.0', error: { code, message }, id }] *)
Definition error_response (code : Z) (message : jsstring) (id : json) : json :=
  JObj [(js "jsonrpc", JStr (js "2.0"));
        (js "error", JObj [(js "code", JNum (num_of_Z code));
                           (js "message", JStr message)]);
        (js "id", id)].

(** [{ jsonrpc: '2.0', result, id }] *)
Definition result_response (result : json) (id : json) : json :=
  JObj [(js "jsonrpc", JStr (js "2.0")); (js "result", result); (js "id", id)].

(** [Array.isArray(params) ? params[index] : params?.name] *)
Definition param (params : option json) (index : nat) (name : jsstring)
  : option json :=
  match params with
  | Some (JArr items) => items !! index
  | Some v => get v name
  | None => None
  end.

(** [v ?? null] *)
Definition or_null (v : option json) : json :=
  match v with Some v => v | None => JNull end.

(** The message of what [throw new Error(`Method not found:
    ${method}`)] throws: that of the [Error], or that of the
    [TypeError] of the template literal. *)
Definition method_not_found (method : option json) : jsstring :=
  match method with
  | Some m =>
      if interpolates m then js "Method not found: " ++ ToString m
      else not_primitive
  | None => js "Method not found: undefined"
  end.

(** The [try] block of [handleRequest]: the [switch] on [method]. *)
Definition dispatch (srv : Server) (method : option json) (params : option json)
  : outcome :=
  match method with
  | Some (JStr m) =>
      if JS.eqb m (js "list_resources") then
        match listResourcesHandler srv with
        | None => Rejected (method_not_found method)
        | Some handler => handler (or_null (param params 0 (js "cursor")))
        end
      else if JS.eqb m (js "read_resource") then
        match readResourceHandler srv with
        | None => Rejected (method_not_found method)
        | Some handler =>
            match param params 0 (js "uri") with
            | Some uri =>
                if truthy uri then handler uri
                else Rejected (js "Missing parameter: uri")
            | None => Rejected (js "Missing parameter: uri")
            end
        end
      else if JS.eqb m (js "list_tools") then
        match listToolsHandler srv with
        | None => Rejected (method_not_found method)
        | Some handler => handler tt
        end
      else if JS.eqb m (js "call_tool") then
        match callToolHandler srv with
        | None => Rejected (method_not_found method)
        | Some handler =>
            match param params 0 (js "name") with
            | Some toolName =>
                if truthy toolName
                then handler toolName (or_null (param params 1 (js "args")))
                else Rejected (js "Missing parameter: name")
            | None => Rejected (js "Missing parameter: name")
            end
        end
      else Rejected (method_not_found method)
  | _ => Rejected (method_not_found method)
  end.

(** [Server.handleRequest]: the response, or [None] for [null].  Its
    [catch] block logs [`Error handling method '${method}': ...`]
    before it builds the error; a method that the template literal
    cannot hold makes it throw, and the promise is rejected. *)
Definition handleRequest (srv : Server) (request : json)
  : completion (option json) :=
  let method := get request (js "method") in
  let params := get request (js "params") in
  let id := get request (js "id") in
  match dispatch srv method params with
  | Rejected message =>
      if interpolates_opt method then
        Return match id with
               | None | Some JNull => None
               | Some id =>
                   Some (error_response (-32603)
                           (or_default (Some message) (js "Internal server error"))
                           id)
               end
      else Throw not_primitive
  | Resolved result =>
      Return match id with
             | None | Some JNull => None
             | Some id => Some (result_response result id)
             end
  end.

(** The [catch] block of the data handler: the response it writes. *)
Definition errorResponse (line : jsstring) : json :=
  error_response (-32700) (js "Parse error")
    match JSON.parse line with
    | Some parsed =>
        if truthy parsed then or_null (get parsed (js "id")) else JNull
    | None => JNull
    end.

(** [request.jsonrpc !== '2.0' || !request.method]; reading a property
    of [null] throws, which lands in the same [catch]. *)
Definition invalid_request (request : json) : bool :=
  match request with
  | JNull => true
  | _ =>
      negb match get request (js "jsonrpc") with
           | Some (JStr v) => JS.eqb v (js "2.0")
           | _ => false
           end
      || negb (truthy_opt (get request (js "method")))
  end.

(** One turn of the [while] loop on an extracted, trimmed line. *)
Inductive line_step :=
| Skip
| WriteNow (frame : jsstring)
| Await (response : option json).

(** What the invocation has to write when it resumes from [await
    this.handleRequest(request)]: the response, if any, when the
    promise is fulfilled; the response of the [catch] block when it is
    rejected. *)
Definition resumed (line : jsstring) (settled : completion (option json))
  : option json :=
  match settled with
  | Return response => response
  | Throw _ => Some (errorResponse line)
  end.

Definition process_line (srv : Server) (line : jsstring) : line_step :=
  if truthy_string line then
    match JSON.parse line with
    | Some request =>
        if invalid_request request
        then WriteNow (stringify (errorResponse line) ++ [10])
        else Await (resumed line (handleRequest srv request))
    | None => WriteNow (stringify (errorResponse line) ++ [10])
    end
  else Skip.

(** The frame written for it. *)
Definition response_frames (response : option json) : list jsstring :=
  match response with
  | Some r => [stringify r ++ [10]]
  | None => []
  end.

(** Every frame that one line makes the framer write. *)
Definition line_frames (srv : Server) (line : jsstring) : list jsstring :=
  match process_line srv line with
  | Skip => []
  | WriteNow frame => [frame]
  | Await response => response_frames response
  end.

(** The state shared by the invocations of the ['data'] listener of one
    [run]: the closure variable [buffer], the invocations suspended at
    their [await] with the value their promise settles to, and what
    has been written to [writeStream]. *)
Record state := {
  buffer : jsstring;
  pending : list (nat * option json);
  next_task : nat;
  written : list jsstring
}.

Definition initial : state :=
  {| buffer := []; pending := []; next_task := 0; written := [] |}.

Definition write (frames : list jsstring) (st : state) : state :=
  {| buffer := buffer st; pending := pending st; next_task := next_task st;
     written := written st ++ frames |}.

Definition set_buffer (b : jsstring) (st : state) : state :=
  {| buffer := b; pending := pending st; next_task := next_task st;
     written := written st |}.

Definition suspend (response : option json) (st : state) : state :=
  {| buffer := buffer st;
     pending := pending st ++ [(next_task st, response)];
     next_task := S (next_task st);
     written := written st |}.

(** What one turn of the loop does with the state, up to the
    suspension. *)
Definition after_line (outcome : line_step) (st : state) : state :=
  match outcome with
  | Skip => st
  | WriteNow frame => write [frame] st
  | Await response => suspend response st
  end.

(** The [while (boundary !== -1)] loop, entered at the evaluation of
    [buffer.indexOf('\n')]; it leaves either because no line is left or
    because the invocation is suspended. *)
Fixpoint drain_loop (srv : Server) (fuel : nat) (st : state) : state :=
  match fuel with
  | O => st
  | S fuel =>
      match indexOf_LF (buffer st) with
      | None => st
      | Some boundary =>
          let line := trim (substring_to boundary (buffer st)) in
          let st1 := set_buffer (substring_from (S boundary) (buffer st)) st in
          match process_line srv line with
          | Skip => drain_loop srv fuel st1
          | WriteNow frame => drain_loop srv fuel (write [frame] st1)
          | Await response => suspend response st1
          end
      end
  end.

Definition drain (srv : Server) (st : state) : state :=
  drain_loop srv (S (length (buffer st))) st.

Fixpoint take_task (t : nat) (tasks : list (nat * option json))
  : option (option json * list (nat * option json)) :=
  match tasks with
  | [] => None
  | (t', r) :: rest =>
      if Nat.eqb t t' then Some (r, rest)
      else match take_task t rest with
           | Some (r0, rest') => Some (r0, (t', r) :: rest')
           | None => None
           end
  end.

(** What happens on one transport: a chunk is emitted by [readStream]
    (a [Buffer] or string chunk is the [JStr] of its text), or the
    promise a suspended invocation awaits settles. *)
Inductive event :=
| Data (chunk : json)
| Settle (task : nat).

(** The events the listener of ['data'] sees and gets through its first
    statement, [buffer += chunk.toString()]: [push(null)] ends the
    stream instead of delivering a chunk. *)
Definition readable (e : event) : bool :=
  match e with
  | Data JNull => false
  | Data chunk => interpolates chunk
  | Settle _ => true
  end.

(** The text a chunk adds to the buffer; none when the listener throws
    at its first statement, which leaves the state as it is. *)
Definition taken (e : event) : jsstring :=
  match e with
  | Data chunk => if readable (Data chunk) then ToString chunk else []
  | Settle _ => []
  end.

Definition step (srv : Server) (st : state) (e : event) : state :=
  match e with
  | Data chunk =>
      if readable (Data chunk)
      then drain srv (set_buffer (buffer st ++ ToString chunk) st)
      else st
  | Settle t =>
      match take_task t (pending st) with
      | Some (response, rest) =>
          drain srv
            (write (response_frames response)
               {| buffer := buffer st; pending := rest;
                  next_task := next_task st; written := written st |})
      | None => st
      end
  end.

Definition run (srv : Server) (events : list event) (st : state) : state :=
  fold_left (step srv) events st.

(** The text received so far. *)
Definition received (events : list event) : jsstring :=
  concat (map taken events).

(** The lines of a text that are terminated by a line feed. *)
Definition complete_lines (text : jsstring) : list jsstring :=
  removelast (split_LF text).

(** A schedule in which no chunk is delivered while an invocation of
    the listener is still suspended. *)
Fixpoint serial (srv : Server) (events : list event) (st : state) : Prop :=
  match events with
  | [] => True
  | Data chunk :: rest =>
      pending st = [] /\ serial srv rest (step srv st (Data chunk))
  | Settle t :: rest => serial srv rest (step srv st (Settle t))
  end.

(** The four method names of the [switch]. *)
Definition known_method (method : json) : bool :=
  match method with
  | JStr m =>
      JS.eqb m (js "list_resources") || JS.eqb m (js "read_resource")
      || JS.eqb m (js "list_tools") || JS.eqb m (js "call_tool")
  | _ => false
  end.

(** A line that JavaScript reads as it is written, if it is JSON at
    all. *)
Definition read_as_written (line : jsstring) : bool :=
  match JSON.parse line with
  | Some request => as_written request
  | None => true
  end.


(** The frames the lines [ls] make the framer write, line after line. *)
Definition frames_of (srv : Server) (ls : list jsstring) : list jsstring :=
  concat (map (fun l => line_frames srv (trim l)) ls).

(** The frames the suspended invocations will write when resumed. *)
Definition pending_frames (st : state) : list jsstring :=
  concat (map (fun task => response_frames (snd task)) (pending st)).

(** The text made of the lines [ls], each with its line feed. *)
Definition terminated (ls : list jsstring) : jsstring :=
  concat (map (fun l => l ++ [10]) ls).

(** The invariant of any schedule: the lines taken out of the received
    text account, up to order, for what is written or still pending. *)
Definition consistent (srv : Server) (text : jsstring) (st : state) : Prop :=
  exists ls,
    text = terminated ls ++ buffer st /\
    Forall (fun l => indexOf_LF l = None) ls /\
    Permutation (written st ++ pending_frames st) (frames_of srv ls) /\
    (pending st = [] -> indexOf_LF (buffer st) = None).

(** The invariant of a serial schedule: at most one invocation is
    suspended and the frames are in the order of the lines. *)
Definition in_order (srv : Server) (text : jsstring) (st : state) : Prop :=
  exists ls,
    text = terminated ls ++ buffer st /\
    Forall (fun l => indexOf_LF l = None) ls /\
    written st ++ pending_frames st = frames_of srv ls /\
    (length (pending st) <= 1)%nat /\
    (pending st = [] -> indexOf_LF (buffer st) = None).

(** A server in the shape of the calendar plugin: [list_tools] answers
    from a constant, [call_tool] answers after a request to the
    calendar service, no resource handler is registered. *)
Definition calendar_like : Server :=
  {| listResourcesHandler := None;
     readResourceHandler := None;
     listToolsHandler :=
       Some (fun _ => Resolved (JArr [JObj [(js "name", JStr (js "list_events"))]]));
     callToolHandler :=
       Some (fun toolName _ =>
               Resolved (JArr [JObj [(js "type", JStr (js "text"));
                                     (js "text", toolName)]])) |}.


(** Two requests in one chunk, each settled before the next line is read. *)
Definition two_lines : list event :=
  [Data (JStr (json_text "{'jsonrpc':'2.0','method':'list_tools','id':1}" ++ [10]
               ++ json_text "{'jsonrpc':'2.0','method':'nope','id':2}" ++ [10]));
   Settle 0; Settle 1].



(** Two requests in two chunks, the second delivered while the first is
    awaiting its handler, and settled first. *)
Definition overlapping : list event :=
  [Data (JStr (json_text "{'jsonrpc':'2.0','method':'call_tool','params':{'name':'list_events'},'id':1}" ++ [10]));
   Data (JStr (json_text "{'jsonrpc':'2.0','method':'list_tools','id':2}" ++ [10]));
   Settle 1; Settle 0].

End Framer.

(** ** The SSE side of a connection ([runRemoteServer], the streams
    created by the SSE route) *)

Module Sse.

(** [reply.raw]: what has been written to the HTTP response, and
    whether [end()] has been called on it. *)
Record raw := {
  writableEnded : bool;
  sent : list jsstring
}.

Definition raw_write (data : jsstring) (r : raw) : raw :=
  {| writableEnded := writableEnded r; sent := sent r ++ [data] |}.

Definition raw_end (r : raw) : raw :=
  {| writableEnded := true; sent := sent r |}.

(** [typeof chunk === 'string' ? chunk : JSON.stringify(chunk)] *)
Definition dataString (chunk : json) : jsstring :=
  match chunk with
  | JStr s => s
  | _ => stringify chunk
  end.

(** [dataString.split('\n').map(line => `data: ${line}`).join('\n')] *)
Definition data_lines (text : jsstring) : jsstring :=
  join [10] (map (fun line => js "data: " ++ line) (split_LF text)).

(** The [write(chunk, encoding, callback)] of the outbound [Writable]:
    the response stream afterwards and the argument of [callback]
    ([None] when it is called without an error). *)
Definition writeStream_write (chunk : json) (r : raw) : raw * option jsstring :=
  let lines := data_lines (dataString chunk) in
  if negb (writableEnded r)
  then (raw_write (lines ++ [10; 10]) r, None)
  else (r, Some (js "Cannot write to closed SSE stream")).

(** The event of the wire format, in the words of the specification:
    one [data: <line>] per line of the payload, each ended by a line
    break, and a blank line after them. *)
Definition spec_event (text : jsstring) : jsstring :=
  concat (map (fun line => js "data: " ++ line ++ [10]) (split_LF text)) ++ [10].

(** Reading an event back: the payload a client reassembles from the
    [data:] fields up to the blank line. *)
Fixpoint strip_prefix (p s : jsstring) : option jsstring :=
  match p, s with
  | [], _ => Some s
  | a :: p', b :: s' => if a =? b then strip_prefix p' s' else None
  | _ :: _, [] => None
  end.

Fixpoint read_fields (lines : list jsstring) : option (list jsstring) :=
  match lines with
  | [] => None
  | [] :: _ => Some []
  | l :: rest =>
      match strip_prefix (js "data: ") l, read_fields rest with
      | Some field, Some fields => Some (field :: fields)
      | _, _ => None
      end
  end.

Definition read_event (event : jsstring) : option jsstring :=
  match read_fields (split_LF event) with
  | Some fields => Some (join [10] fields)
  | None => None
  end.

(** The inbound [Readable] made by [createMessageEmitter] (object mode):
    the chunks accepted so far, whether the end of the stream has been
    signalled and whether the stream has been destroyed. *)
Record Readable := {
  queue : list json;
  ended : bool;
  destroyed : bool;
  errored : bool
}.

Definition createMessageEmitter : Readable :=
  {| queue := []; ended := false; destroyed := false; errored := false |}.

(** [stream.push(msg)] in object mode: [null] signals the end of the
    stream; a chunk after the end is an error; a chunk for a destroyed
    stream is dropped; any other chunk is appended. *)
Definition push (msg : json) (r : Readable) : Readable :=
  match msg with
  | JNull =>
      {| queue := queue r; ended := true; destroyed := destroyed r;
         errored := errored r |}
  | _ =>
      if ended r then
        {| queue := queue r; ended := true; destroyed := destroyed r;
           errored := true |}
      else if destroyed r || errored r then r
      else {| queue := queue r ++ [msg]; ended := false;
              destroyed := destroyed r; errored := errored r |}
  end.

Definition destroy (r : Readable) : Readable :=
  {| queue := queue r; ended := ended r; destroyed := true; errored := errored r |}.

End Sse.

(** ** The plugin registry ([loadServerModule], [discoverAndLoadServers]) *)

Module Registry.

Inductive js_type := TUndefined | TObject | TFunction | TOther.

(** The [server] export of a plugin module: its [typeof], whether it
    has a [prototype], and what [new server(userId, apiKey)] and
    [server(userId, apiKey)] do: yield an instance or throw. *)
Record factory := {
  typeof : js_type;
  prototype : bool;
  construct : option jsstring -> option jsstring -> completion unit;
  call : option jsstring -> option jsstring -> completion unit
}.

(** The [getInitializationOptions] export: its [typeof] and what
    applying it to an instance does. *)
Record options_fn := {
  options_typeof : js_type;
  options_call : nat -> completion json
}.

Record ServerModule := {
  server : factory;
  module_getInitializationOptions : options_fn
}.

Record ServerInfo := {
  serverFactory : factory;
  getInitializationOptions : options_fn
}.

Record Dirent := { name : jsstring; isDirectory : bool }.

(** The part of the host the registry reads.  A module is evaluated
    when it is imported, and may throw any value. *)
Record host := {
  SERVERS_DIR : jsstring;
  readdir : completion (list Dirent);
  access : jsstring -> bool;
  import : jsstring -> completion_of thrown ServerModule
}.

(** The lines [logger.warn] and [logger.error] produce; the stack of
    an error, logged after its line when it has one, is left out. *)
Inductive level := warn | error.
Abbreviation log := (list (level * jsstring)).

Definition path_join (dir file : jsstring) : jsstring := dir ++ [47] ++ file.

Definition checkFileExists (h : host) (filePath : jsstring) : bool :=
  access h filePath.

(** The [try] block of [loadServerModule]. *)
Definition import_and_validate (h : host) (serverFile : jsstring)
  : completion_of thrown ServerModule :=
  match import h serverFile with
  | Return serverModule =>
      match typeof (server serverModule) with
      | TFunction | TObject =>
          match options_typeof (module_getInitializationOptions serverModule) with
          | TFunction => Return serverModule
          | _ =>
              Throw (with_message
                       (js "Module does not export a 'getInitializationOptions' function."))
          end
      | _ =>
          Throw (with_message
                   (js "Module does not export a 'server' class or factory function."))
      end
  | Throw e => Throw e
  end.

(** [loadServerModule]: the module or [null], and the lines logged.
    Its [catch] block reads [error.message] for the line it logs: for
    a value without one the block throws itself, and the promise is
    rejected with this [TypeError]. *)
Definition loadServerModule (h : host) (serverName serverDir : jsstring)
  : completion (option ServerModule) * log :=
  let serverFile := path_join serverDir (js "main.ts") in
  if negb (checkFileExists h serverFile) then
    (Return None, [(warn, js "Server main file not found for '" ++ serverName
                            ++ js "' at " ++ serverFile)])
  else
    match import_and_validate h serverFile with
    | Return serverModule => (Return (Some serverModule), [])
    | Throw (with_message message) =>
        (Return None,
         [(error, js "Failed to load server module '" ++ serverName
                    ++ js "' from " ++ serverFile ++ js ": " ++ message)])
    | Throw (without_message typeError) => (Throw typeError, [])
    end.

(** The line logged by the [catch] around the loop of
    [discoverAndLoadServers]. *)
Definition discovery_error (h : host) (message : jsstring) : level * jsstring :=
  (error, js "Error reading servers directory " ++ SERVERS_DIR h
            ++ js ": " ++ message).

(** The body of the [for (const entry of entries)] loop. *)
Definition load_entry (h : host) (acc : gmap jsstring ServerInfo * log)
  (entry : Dirent) : completion (gmap jsstring ServerInfo * log) :=
  if isDirectory entry then
    let serverName := name entry in
    let serverDirPath := path_join (SERVERS_DIR h) serverName in
    let '(loadedModule, lines) := loadServerModule h serverName serverDirPath in
    match loadedModule with
    | Return (Some m) =>
        Return (<[serverName :=
                    {| serverFactory := server m;
                       getInitializationOptions :=
                         module_getInitializationOptions m |}]>
                  (fst acc),
                snd acc ++ lines)
    | Return None => Return (fst acc, snd acc ++ lines)
    | Throw message => Throw message
    end
  else Return acc.

(** The loop inside its [try]: an entry whose load throws ends the
    pass, and the [catch] logs the error; the map keeps what was loaded
    before. *)
Fixpoint load_entries (h : host) (entries : list Dirent)
  (acc : gmap jsstring ServerInfo * log) : gmap jsstring ServerInfo * log :=
  match entries with
  | [] => acc
  | entry :: rest =>
      match load_entry h acc entry with
      | Return acc' => load_entries h rest acc'
      | Throw message => (fst acc, snd acc ++ [discovery_error h message])
      end
  end.

Definition discoverAndLoadServers (h : host) : gmap jsstring ServerInfo * log :=
  match readdir h with
  | Return entries => load_entries h entries (∅, [])
  | Throw message => (∅, [discovery_error h message])
  end.

(** A directory entry that passes both checks of [loadServerModule]. *)
Definition loads (h : host) (entry : Dirent) : option ServerInfo :=
  let serverFile :=
    path_join (path_join (SERVERS_DIR h) (name entry)) (js "main.ts") in
  if isDirectory entry && access h serverFile then
    match import h serverFile with
    | Return m =>
        match typeof (server m), options_typeof (module_getInitializationOptions m) with
        | (TFunction | TObject), TFunction =>
            Some {| serverFactory := server m;
                    getInitializationOptions := module_getInitializationOptions m |}
        | _, _ => None
        end
    | Throw _ => None
    end
  else None.

(** [path.join(serverDir, 'main.ts')] for the directory of an entry. *)
Definition main_file (h : host) (entry : Dirent) : jsstring :=
  path_join (path_join (SERVERS_DIR h) (name entry)) (js "main.ts").

(** A module in the shape of the calendar plugin, one that exports
    nothing, and a servers directory that holds the first as
    [gcalendar], the second as [broken], a directory [empty] without
    [main.ts], and a plain file. *)
Definition calendar_module : ServerModule :=
  {| server :=
       {| typeof := TFunction; prototype := true;
          construct := fun _ _ => Return tt; call := fun _ _ => Return tt |};
     module_getInitializationOptions :=
       {| options_typeof := TFunction;
          options_call := fun _ =>
            Return (JObj [(js "server_name", JStr (js "gcalendar-server"))]) |} |}.

Definition shapeless_module : ServerModule :=
  {| server :=
       {| typeof := TUndefined; prototype := false;
          construct := fun _ _ => Throw (js "TypeError");
          call := fun _ _ => Throw (js "TypeError") |};
     module_getInitializationOptions :=
       {| options_typeof := TUndefined;
          options_call := fun _ => Throw (js "TypeError") |} |}.

Definition sample_host : host :=
  {| SERVERS_DIR := js "/srv";
     readdir := Return [ {| name := js "broken"; isDirectory := true |};
                         {| name := js "README.md"; isDirectory := false |};
                         {| name := js "empty"; isDirectory := true |};
                         {| name := js "gcalendar"; isDirectory := true |} ];
     access := fun p => negb (JS.eqb p (js "/srv/empty/main.ts"));
     import := fun p =>
       if JS.eqb p (js "/srv/gcalendar/main.ts") then Return calendar_module
       else if JS.eqb p (js "/srv/broken/main.ts") then Return shapeless_module
       else Throw (with_message (js "Cannot find module")) |}.

(** A directory entry whose [main.ts] exists and whose import rejects
    with a value that has no [message]. *)
Definition rejects_bare (h : host) (entry : Dirent) : bool :=
  isDirectory entry
  && access h (main_file h entry)
  && match import h (main_file h entry) with
     | Throw (without_message _) => true
     | _ => false
     end.

(** A servers directory with the plugin [gcalendar] and, listed before
    it, a plugin [flaky] whose [main.ts] awaits a promise that is
    rejected without a reason. *)
Definition rejecting_host : host :=
  {| SERVERS_DIR := js "/srv";
     readdir := Return [ {| name := js "flaky"; isDirectory := true |};
                         {| name := js "gcalendar"; isDirectory := true |} ];
     access := fun _ => true;
     import := fun p =>
       if JS.eqb p (js "/srv/gcalendar/main.ts") then Return calendar_module
       else Throw (without_message
                     (js "Cannot read properties of undefined (reading 'message')")) |}.

(** [createServerInstance]: the factory must be a function; one with a
    prototype is constructed, any other is called. *)
Definition createServerInstance (serverFactory : factory)
  (userId apiKey : option jsstring) : completion unit :=
  match typeof serverFactory with
  | TFunction =>
      if prototype serverFactory then construct serverFactory userId apiKey
      else call serverFactory userId apiKey
  | _ => Throw (js "Invalid server factory")
  end.

End Registry.

(** ** The gateway: session maps, metrics and the two routes of a plugin *)

Module Gateway.
Import Sse Registry.

(** The objects one accepted SSE request owns: the response, the two
    streams, and the values its closures captured. *)
Record connection := {
  conn_session : jsstring;
  conn_server : jsstring;
  conn_instance : nat;
  reply_raw : raw;
  readStream : Readable;
  writeStream_ended : bool
}.

(** The module-level state.  A [ServerInstance] is the index of its
    creation in [created], which records the (userId, apiKey) given to
    the factory; a transport is the index of its connection. *)
Record gateway := {
  userServerInstances : gmap jsstring nat;
  userSessionTransports : gmap jsstring nat;
  activeConnections : gmap jsstring Z;
  connectionTotal : gmap jsstring Z;
  created : list (option jsstring * option jsstring);
  connections : list connection
}.

Definition empty : gateway :=
  {| userServerInstances := ∅; userSessionTransports := ∅;
     activeConnections := ∅; connectionTotal := ∅;
     created := []; connections := [] |}.

(** The value of a labelled metric; a label never touched reads 0. *)
Definition value (metric : gmap jsstring Z) (label : jsstring) : Z :=
  default 0%Z (metric !! label).
Definition inc (label : jsstring) (metric : gmap jsstring Z) : gmap jsstring Z :=
  <[label := (value metric label + 1)%Z]> metric.
Definition dec (label : jsstring) (metric : gmap jsstring Z) : gmap jsstring Z :=
  <[label := (value metric label - 1)%Z]> metric.

(** [`${serverName}:${sessionKeyEncoded}`] *)
Definition sessionKey (serverName sessionKeyEncoded : jsstring) : jsstring :=
  serverName ++ [58] ++ sessionKeyEncoded.

Fixpoint before_colon (s : jsstring) : jsstring :=
  match s with
  | [] => []
  | c :: r => if c =? 58 then [] else c :: before_colon r
  end.

Fixpoint after_colon (s : jsstring) : option jsstring :=
  match s with
  | [] => None
  | c :: r => if c =? 58 then Some r else after_colon r
  end.

(** [sessionKeyEncoded.includes(':') ? sessionKeyEncoded.split(':', 2)
    : [sessionKeyEncoded, undefined]] *)
Definition parse_session (sessionKeyEncoded : jsstring)
  : option jsstring * option jsstring :=
  match after_colon sessionKeyEncoded with
  | Some rest => (Some (before_colon sessionKeyEncoded), Some (before_colon rest))
  | None => (Some sessionKeyEncoded, None)
  end.

(** "Get or Create Server Instance": the instance, and the maps after. *)
Definition get_or_create (info : ServerInfo) (serverName key : jsstring)
  (userId apiKey : option jsstring) (g : gateway) : completion (nat * gateway) :=
  match userServerInstances g !! key with
  | Some serverInstance => Return (serverInstance, g)
  | None =>
      _ ← createServerInstance (serverFactory info) userId apiKey;
      let serverInstance := length (created g) in
      Return (serverInstance,
              {| userServerInstances := <[key := serverInstance]> (userServerInstances g);
                 userSessionTransports := userSessionTransports g;
                 activeConnections := inc serverName (activeConnections g);
                 connectionTotal := connectionTotal g;
                 created := created g ++ [(userId, apiKey)];
                 connections := connections g |})
  end.

Definition update_connection (c : nat) (f : connection -> connection)
  (g : gateway) : gateway :=
  {| userServerInstances := userServerInstances g;
     userSessionTransports := userSessionTransports g;
     activeConnections := activeConnections g;
     connectionTotal := connectionTotal g;
     created := created g;
     connections := match connections g !! c with
                    | Some conn => <[c := f conn]> (connections g)
                    | None => connections g
                    end |}.

(** [userSessionTransports.delete(sessionKey);
     activeConnections.labels(serverName).dec()] *)
Definition delete_and_dec (key serverName : jsstring) (g : gateway) : gateway :=
  {| userServerInstances := userServerInstances g;
     userSessionTransports := delete key (userSessionTransports g);
     activeConnections := dec serverName (activeConnections g);
     connectionTotal := connectionTotal g;
     created := created g;
     connections := connections g |}.

(** [readStream.destroy(); writeStream.end()] *)
Definition release_streams (conn : connection) : connection :=
  {| conn_session := conn_session conn; conn_server := conn_server conn;
     conn_instance := conn_instance conn; reply_raw := reply_raw conn;
     readStream := destroy (readStream conn); writeStream_ended := true |}.

Definition on_reply (f : raw -> raw) (conn : connection) : connection :=
  {| conn_session := conn_session conn; conn_server := conn_server conn;
     conn_instance := conn_instance conn; reply_raw := f (reply_raw conn);
     readStream := readStream conn; writeStream_ended := writeStream_ended conn |}.

(** The listener of [request.raw.on('close', ...)] of connection [c]. *)
Definition close_event (c : nat) (g : gateway) : gateway :=
  match connections g !! c with
  | Some conn =>
      update_connection c release_streams
        (delete_and_dec (conn_session conn) (conn_server conn) g)
  | None => g
  end.

(** How the awaited [serverInstance.run(...)] ended. *)
Inductive run_result := run_returned | run_threw.

Definition error_event : jsstring :=
  js "event: error" ++ [10] ++ js "data: "
    ++ stringify (JObj [(js "message", JStr (js "Internal server error"))])
    ++ [10; 10].

(** What follows the [await] in the SSE route of connection [c]: the
    rest of the [try] block or the [catch] block, then [finally]. *)
Definition run_settled (result : run_result) (c : nat) (g : gateway) : gateway :=
  match connections g !! c with
  | Some conn =>
      let g1 :=
        update_connection c
          (on_reply (fun r =>
             if negb (writableEnded r) then
               match result with
               | run_returned => raw_end r
               | run_threw => raw_end (raw_write error_event r)
               end
             else r)) g in
      let g2 :=
        match userSessionTransports g1 !! conn_session conn with
        | Some _ => delete_and_dec (conn_session conn) (conn_server conn) g1
        | None => g1
        end in
      update_connection c release_streams g2
  | None => g
  end.

(** [': connection established\n\n'] *)
Definition connection_established : jsstring :=
  js ": connection established" ++ [10; 10].

(** What the SSE route does between the instance and the [try] block:
    it counts the connection, opens the response, creates the two
    streams and stores the transport, replacing the one the session
    may have. *)
Definition attach (key serverName : jsstring) (serverInstance : nat)
  (g : gateway) : nat * gateway :=
  let c := length (connections g) in
  let conn :=
    {| conn_session := key; conn_server := serverName;
       conn_instance := serverInstance;
       reply_raw := {| writableEnded := false; sent := [connection_established] |};
       readStream := createMessageEmitter;
       writeStream_ended := false |} in
  (c,
   {| userServerInstances := userServerInstances g;
      userSessionTransports := <[key := c]> (userSessionTransports g);
      activeConnections := activeConnections g;
      connectionTotal := inc serverName (connectionTotal g);
      created := created g;
      connections := connections g ++ [conn] |}).

(** The SSE route of a plugin up to its [await]: the new connection
    and the state at the suspension.  A factory that throws makes the
    handler fail before any state is touched; a
    [getInitializationOptions] that throws is caught by the handler's
    own [catch]. *)
Definition sse_route (info : ServerInfo) (serverName sessionKeyEncoded : jsstring)
  (g : gateway) : completion (nat * gateway) :=
  let key := sessionKey serverName sessionKeyEncoded in
  '(serverInstance, g1) ←
    get_or_create info serverName key (fst (parse_session sessionKeyEncoded))
      (snd (parse_session sessionKeyEncoded)) g;
  let '(c, g2) := attach key serverName serverInstance g1 in
  match options_call (getInitializationOptions info) serverInstance with
  | Return _ => Return (c, g2)
  | Throw _ => Return (c, run_settled run_threw c g2)
  end.

(** The message route of a plugin: the status code of the reply and
    the state after. *)
Definition message_route (serverName sessionKeyEncoded : jsstring) (body : json)
  (g : gateway) : Z * gateway :=
  let key := sessionKey serverName sessionKeyEncoded in
  match userSessionTransports g !! key with
  | None => (404%Z, g)
  | Some transport =>
      (202%Z,
       update_connection transport
         (fun conn =>
            {| conn_session := conn_session conn; conn_server := conn_server conn;
               conn_instance := conn_instance conn; reply_raw := reply_raw conn;
               readStream := push body (readStream conn);
               writeStream_ended := writeStream_ended conn |}) g)
  end.

(** The inbound queue of the transport registered for a session. *)
Definition inbound (key : jsstring) (g : gateway) : option Readable :=
  match userSessionTransports g !! key with
  | Some transport =>
      match connections g !! transport with
      | Some conn => Some (readStream conn)
      | None => None
      end
  | None => None
  end.

(** What the gateway reacts to: a request on one of the two routes of
    a plugin, the ['close'] event of the request of a connection, or
    the end of the [run] a connection awaits. *)
Inductive occurrence :=
| Connect (info : ServerInfo) (serverName sessionKeyEncoded : jsstring)
| Close (c : nat)
| RunSettled (result : run_result) (c : nat)
| Post (serverName sessionKeyEncoded : jsstring) (body : json).

Definition react (g : gateway) (o : occurrence) : gateway :=
  match o with
  | Connect info serverName sessionKeyEncoded =>
      match sse_route info serverName sessionKeyEncoded g with
      | Return (_, g') => g'
      | Throw _ => g
      end
  | Close c => close_event c g
  | RunSettled result c => run_settled result c g
  | Post serverName sessionKeyEncoded body =>
      snd (message_route serverName sessionKeyEncoded body g)
  end.

Definition serve (history : list occurrence) (g : gateway) : gateway :=
  fold_left react history g.

(** Every registered transport belongs to a connection of its session
    whose inbound stream has not been destroyed, and a stream in error
    has been ended. *)
Definition registered_live (g : gateway) : Prop :=
  (forall key t, userSessionTransports g !! key = Some t ->
     exists conn, connections g !! t = Some conn /\ conn_session conn = key /\
                  destroyed (readStream conn) = false)
  /\ (forall t conn, connections g !! t = Some conn ->
        errored (readStream conn) = true -> ended (readStream conn) = true).

(** A plugin in the shape of the calendar one: a factory declared as
    a function (it has a prototype) that always yields an instance, and
    options that are computed without failure. *)
Definition calendar_plugin : ServerInfo :=
  {| serverFactory := server calendar_module;
     getInitializationOptions := module_getInitializationOptions calendar_module |}.

(** A first connection of a session. *)
Definition connected : list occurrence :=
  [Connect calendar_plugin (js "gcalendar") (js "alice")].

(** A connection whose [run] returns before the client goes away. *)
Definition run_then_close : list occurrence :=
  [Connect calendar_plugin (js "gcalendar") (js "alice");
   RunSettled run_returned 0; Close 0].

(** A session that connects, is closed by the client and connects again. *)
Definition reconnect : list occurrence :=
  [Connect calendar_plugin (js "gcalendar") (js "alice:secret");
   Close 0;
   Connect calendar_plugin (js "gcalendar") (js "alice:secret")].

End Gateway.

(** ** The credential store ([createAuthClient], [LocalAuthClient],
    [GumloopAuthClient]) *)

Module Auth.

(** *** The file system the store reads and writes

    A resolved path is its list of segments from the root; the root is
    a directory and has no entry of its own. *)
Abbreviation path := (list jsstring).

Inductive node := File (content : jsstring) | Dir.

Abbreviation files := (gmap path node).

Fixpoint split_slash (s : jsstring) : list jsstring :=
  match s with
  | [] => [[]]
  | c :: r =>
      if c =? 47 then [] :: split_slash r
      else match split_slash r with
           | seg :: segs => (c :: seg) :: segs
           | [] => [[c]]
           end
  end.

(** One step of the lexical normalisation of [path.join] and
    [path.resolve]. *)
Definition enter (p : path) (segment : jsstring) : path :=
  if JS.eqb segment [] || JS.eqb segment (js ".") then p
  else if JS.eqb segment (js "..") then removelast p
  else p ++ [segment].

(** Where [path.join(base, rel)] points, for a resolved [base]. *)
Definition join_from (base : path) (rel : jsstring) : path :=
  fold_left enter (split_slash rel) base.

(** [path.resolve(text)] in working directory [cwd]. *)
Definition resolve (cwd : path) (text : jsstring) : path :=
  match text with
  | 47 :: _ => join_from [] text
  | _ => join_from cwd text
  end.

(** [fs.mkdirSync(p, { recursive: true })], walking down from the root:
    a missing directory is created, a file in the way is an error. *)
Fixpoint mkdir_from (prefix : path) (rest : path) (fs : files) : completion files :=
  match rest with
  | [] => Return fs
  | segment :: rest' =>
      let p := prefix ++ [segment] in
      match fs !! p with
      | Some (File _) =>
          Throw (match rest' with [] => js "EEXIST" | _ => js "ENOTDIR" end)
      | Some Dir => mkdir_from p rest' fs
      | None => mkdir_from p rest' (<[p := Dir]> fs)
      end
  end.

Definition mkdirSync (p : path) (fs : files) : completion files :=
  mkdir_from [] p fs.

Definition existsSync (p : path) (fs : files) : bool :=
  match p with
  | [] => true
  | _ => bool_decide (is_Some (fs !! p))
  end.

Definition is_dir (p : path) (fs : files) : bool :=
  match p with
  | [] => true
  | _ => match fs !! p with Some Dir => true | _ => false end
  end.

(** What a text becomes when written as UTF-8 and read back: a
    surrogate without its partner is replaced by U+FFFD. *)
Fixpoint utf8_text (s : jsstring) : jsstring :=
  match s with
  | [] => []
  | c :: r =>
      if is_high_surrogate c then
        match r with
        | d :: r' =>
            if is_low_surrogate d then c :: d :: utf8_text r'
            else 65533 :: utf8_text r
        | [] => [65533]
        end
      else if is_low_surrogate c then 65533 :: utf8_text r
      else c :: utf8_text r
  end.

(** A text that passes unchanged through UTF-8, whatever follows it. *)
Definition stable (a : jsstring) : Prop :=
  forall b, utf8_text (a ++ b) = a ++ utf8_text b.

(** [fs.readFileSync(p, 'utf-8')] *)
Definition readFileSync (p : path) (fs : files) : completion jsstring :=
  match p with
  | [] => Throw (js "EISDIR")
  | _ => match fs !! p with
         | Some (File content) => Return content
         | Some Dir => Throw (js "EISDIR")
         | None => Throw (js "ENOENT")
         end
  end.

(** [fs.writeFileSync(p, data)]: the parent must be a directory and
    [p] must not be one. *)
Definition writeFileSync (p : path) (data : jsstring) (fs : files)
  : completion files :=
  match p with
  | [] => Throw (js "EISDIR")
  | _ =>
      if negb (is_dir (removelast p) fs) then
        Throw (if existsSync (removelast p) fs then js "ENOTDIR" else js "ENOENT")
      else match fs !! p with
           | Some Dir => Throw (js "EISDIR")
           | _ => Return (<[p := File (utf8_text data)]> fs)
           end
  end.

(** The process: its environment, its working directory and the
    directory of the running module.  The file system is threaded
    through the calls; what it holds after an exception is not kept. *)
Record process := {
  env : gmap jsstring jsstring;
  cwd : path;
  dirname : path
}.

(** *** [LocalAuthClient] *)

Record LocalAuthClient := {
  oauthConfigBaseDir : jsstring;
  credentialsBaseDir : jsstring
}.

(** [a || b || c] on strings that may be undefined. *)
Definition first_truthy (a b : option jsstring) (c : jsstring) : jsstring :=
  or_default a (or_default b c).

(** Node's [path.join] keeps a text; the text of a resolved path. *)
Definition path_text (p : path) : jsstring :=
  concat (map (fun segment => 47 :: segment) p).

(** [new LocalAuthClient(oauthConfigBaseDir, credentialsBaseDir)] *)
Definition LocalAuthClient_new (ps : process)
  (oauthConfigBaseDir_arg credentialsBaseDir_arg : option jsstring)
  (fs : files) : completion (LocalAuthClient * files) :=
  let projectRoot := join_from (dirname ps) (js "../../..") in
  let this :=
    {| oauthConfigBaseDir :=
         first_truthy oauthConfigBaseDir_arg
           (env ps !! js "GUMCP_OAUTH_CONFIG_DIR")
           (path_text (join_from (join_from projectRoot (js "local_auth"))
                         (js "oauth_configs")));
       credentialsBaseDir :=
         first_truthy credentialsBaseDir_arg
           (env ps !! js "GUMCP_CREDENTIALS_DIR")
           (path_text (join_from (join_from projectRoot (js "local_auth"))
                         (js "credentials"))) |} in
  fs1 ← (if truthy_string (oauthConfigBaseDir this)
         then mkdirSync (resolve (cwd ps) (oauthConfigBaseDir this)) fs
         else Return fs);
  fs2 ← (if truthy_string (credentialsBaseDir this)
         then mkdirSync (resolve (cwd ps) (credentialsBaseDir this)) fs1
         else Return fs1);
  Return (this, fs2).

(** [path.join(this.credentialsBaseDir, serviceName)], resolved. *)
Definition serviceDir (ps : process) (this : LocalAuthClient)
  (serviceName : jsstring) : path :=
  join_from (resolve (cwd ps) (credentialsBaseDir this)) serviceName.

(** [path.join(serviceDir, `${userId}_credentials.json`)], resolved. *)
Definition credsPath (ps : process) (this : LocalAuthClient)
  (serviceName userId : jsstring) : path :=
  join_from (serviceDir ps this serviceName) (userId ++ js "_credentials.json").

(** [getUserCredentials]: [Return None] is the returned [null]. *)
Definition getUserCredentials (ps : process) (this : LocalAuthClient)
  (serviceName userId : jsstring) (fs : files)
  : completion (option json * files) :=
  if negb (truthy_string (credentialsBaseDir this)) then
    Throw (js "Credentials directory not set")
  else
    fs1 ← mkdirSync (serviceDir ps this serviceName) fs;
    let p := credsPath ps this serviceName userId in
    if negb (existsSync p fs1) then Return (None, fs1)
    else
      credentialsData ← readFileSync p fs1;
      match JSON.parse credentialsData with
      | Some credentials => Return (Some credentials, fs1)
      | None => Throw (js "SyntaxError")
      end.

(** [saveUserCredentials] for credentials that are JSON data.  Such a
    value has no [toJSON] function, so the first branch is never taken;
    reading [toJSON] from [null] throws.  The other two branches
    serialise the value itself. *)
Definition saveUserCredentials (ps : process) (this : LocalAuthClient)
  (serviceName userId : jsstring) (credentials : json) (fs : files)
  : completion files :=
  if negb (truthy_string (credentialsBaseDir this)) then
    Throw (js "Credentials directory not set")
  else
    fs1 ← mkdirSync (serviceDir ps this serviceName) fs;
    let p := credsPath ps this serviceName userId in
    match credentials with
    | JNull => Throw (js "TypeError")
    | JObj _ | JArr _ => writeFileSync p (stringify credentials) fs1
    | _ => writeFileSync p (stringify credentials) fs1
    end.

(** *** [GumloopAuthClient] *)

Record GumloopAuthClient := {
  apiBaseUrl : jsstring;
  apiKey : option jsstring
}.

(** [new GumloopAuthClient(apiKey)]; the warning it may log is not kept. *)
Definition GumloopAuthClient_new (ps : process) (apiKey_arg : option jsstring)
  : GumloopAuthClient :=
  {| apiBaseUrl := or_default (env ps !! js "GUMLOOP_API_BASE_URL")
                     (js "https://api.gumloop.com/api/v1");
     apiKey := apiKey_arg |}.

(** *** [createAuthClient] *)

Inductive client :=
| Custom (tag : jsstring)
| Gumloop (c : GumloopAuthClient)
| Local (c : LocalAuthClient).

(** A class given as [clientType]: what [new clientType()] does. *)
Abbreviation constructor := (files -> completion (client * files)).

(** A statement either falls through to the next one or completes the
    function. *)
Inductive flow (A : Type) :=
| Next
| Done (c : completion A).
Arguments Next {A}.
Arguments Done {A} c.

Fixpoint sequence {A} (statements : list (flow A)) : option (completion A) :=
  match statements with
  | [] => None
  | Next :: rest => sequence rest
  | Done c :: _ => Some c
  end.

(** [apiKey || undefined] *)
Definition key_or_undefined (apiKey : option jsstring) : option jsstring :=
  match apiKey with
  | Some k => if truthy_string k then Some k else None
  | None => None
  end.

(** The four statements of the body of [createAuthClient]. *)
Definition createAuthClient_body (ps : process) (clientType : option constructor)
  (apiKey : option jsstring) (fs : files) : list (flow (client * files)) :=
  let environment :=
    toLowerCase (or_default (env ps !! js "ENVIRONMENT") (js "local")) in
  [ match clientType with
    | Some new_clientType => Done (new_clientType fs)
    | None => Next
    end;
    if JS.eqb environment (js "gumloop")
    then Done (Return (Gumloop (GumloopAuthClient_new ps (key_or_undefined apiKey)), fs))
    else Next;
    Done ('(c, fs') ← LocalAuthClient_new ps None None fs; Return (Local c, fs'));
    Done (Throw (js "Client type not provided.")) ].

(** [createAuthClient(clientType, apiKey)]; a body that fell off its
    end would return [undefined], here [None]. *)
Definition createAuthClient (ps : process) (clientType : option constructor)
  (apiKey : option jsstring) (fs : files) : option (completion (client * files)) :=
  sequence (createAuthClient_body ps clientType apiKey fs).

(** A process running [/app/src/auth/clients/LocalAuthClient] with an
    empty environment, and a file system in which [/app/local_auth] is
    a regular file. *)
Definition sample_process : process :=
  {| env := ∅; cwd := [js "app"];
     dirname := [js "app"; js "src"; js "auth"; js "clients"] |}.

Definition blocked_files : files :=
  {[ [js "app"] := Dir; [js "app"; js "local_auth"] := File (js "not a directory") ]}.

(** Every directory on the way from [prefix] down [rest] exists. *)
Definition all_dirs (prefix rest : path) (fs : files) : Prop :=
  forall i, (i < length rest)%nat -> fs !! (prefix ++ take (S i) rest) = Some Dir.

(** A client with the default directories of [sample_process], and
    credentials as the OAuth flow stores them. *)
Definition sample_client : LocalAuthClient :=
  {| oauthConfigBaseDir := js "/app/local_auth/oauth_configs";
     credentialsBaseDir := js "/app/local_auth/credentials" |}.

Definition sample_credentials : json :=
  JObj [(js "access_token", JStr (js "ya29.a0Af"));
        (js "refresh_token", JStr (js "1//0g"));
        (js "expiry_date", JNum (num_of_Z 1735689600000));
        (js "scope", JArr [JStr (js "https://www.googleapis.com/auth/calendar")])].

(** The file system after these credentials are saved for [alice] in
    an empty one, and after the directory of the service is created. *)
Definition sample_saved : files :=
  value_of (saveUserCredentials sample_process sample_client (js "gcalendar")
              (js "alice") sample_credentials ∅) ∅.

Definition sample_service_dir : files :=
  value_of (mkdirSync (serviceDir sample_process sample_client (js "gcalendar")) ∅) ∅.

(** A class whose constructor throws. *)
Definition failing_class : constructor :=
  fun _ => Throw (js "vault unreachable").

End Auth.

(** ** Plugin lookup on demand and the stdio mode ([getServer],
    [runStdioServer]) *)

Module Lookup.
Import Registry Gateway.

(** [getServer(serverName)] on the module-level map [discoveredServers]:
    the entry returned ([None] is [null]), the map afterwards and the
    lines logged.  [stat p] is [(await fs.stat(p)).isDirectory()], which
    throws for a path that does not exist.  A name the map lacks is
    loaded from its directory and cached when the load succeeds; a load
    that throws is caught like a missing directory;
    [path.join] is the concatenation used by [load_entry], exact for a
    name that is one path segment. *)
Definition getServer (h : host) (stat : jsstring -> completion bool)
  (serverName : jsstring) (discoveredServers : gmap jsstring ServerInfo)
  : option ServerInfo * gmap jsstring ServerInfo * log :=
  match discoveredServers !! serverName with
  | Some serverInfo => (Some serverInfo, discoveredServers, [])
  | None =>
      let serverDirPath := path_join (SERVERS_DIR h) serverName in
      match stat serverDirPath with
      | Return true =>
          let '(loadedModule, lines) := loadServerModule h serverName serverDirPath in
          match loadedModule with
          | Return (Some m) =>
              let serverInfo :=
                {| serverFactory := server m;
                   getInitializationOptions := module_getInitializationOptions m |} in
              (Some serverInfo, <[serverName := serverInfo]> discoveredServers, lines)
          | Return None | Throw _ => (None, discoveredServers, lines)
          end
      | _ => (None, discoveredServers, [])
      end
  end.

(** [runStdioServer(serverInfo, userId)], given how the awaited [run]
    ends: the value it leaves in [process.exitCode] ([None] when it does
    not set it).  The instance and its options are made outside the
    [try], so a factory or a [getInitializationOptions] that throws
    rejects the promise. *)
Definition runStdioServer (serverInfo : ServerInfo) (userId : option jsstring)
  (run : run_result) : completion (option Z) :=
  _ ← createServerInstance (serverFactory serverInfo) userId None;
  _ ← options_call (getInitializationOptions serverInfo) 0;
  Return match run with
         | run_returned => None
         | run_threw => Some 1%Z
         end.

(** A module whose [server] export is an instance rather than a
    factory, and a servers directory that holds it as [notes]. *)
Definition instance_module : ServerModule :=
  {| server :=
       {| typeof := TObject; prototype := false;
          construct := fun _ _ => Throw (js "TypeError");
          call := fun _ _ => Throw (js "TypeError") |};
     module_getInitializationOptions :=
       {| options_typeof := TFunction;
          options_call := fun _ =>
            Return (JObj [(js "server_name", JStr (js "notes-server"))]) |} |}.

Definition notes_host : host :=
  {| SERVERS_DIR := js "/srv";
     readdir := Return [ {| name := js "notes"; isDirectory := true |} ];
     access := fun _ => true;
     import := fun p =>
       if JS.eqb p (js "/srv/notes/main.ts") then Return instance_module
       else Throw (with_message (js "Cannot find module")) |}.

(** A plugin like the calendar one whose [getInitializationOptions]
    throws. *)
Definition fragile_plugin : ServerInfo :=
  {| serverFactory := server calendar_module;
     getInitializationOptions :=
       {| options_typeof := TFunction;
          options_call := fun _ => Throw (js "capabilities unavailable") |} |}.

(** [fs.stat] on a host where every path is a directory, and on one
    where nothing exists. *)
Definition stat_directory : jsstring -> completion bool := fun _ => Return true.
Definition stat_missing : jsstring -> completion bool := fun _ => Throw (js "ENOENT").

(** A host whose servers directory has been emptied. *)
Definition emptied_host : host :=
  {| SERVERS_DIR := js "/srv";
     readdir := Return [];
     access := fun _ => false;
     import := fun _ => Throw (with_message (js "Cannot find module")) |}.

End Lookup.

(** ** Writes of a plugin on the outbound stream of its connection *)

Module Outbound.
Import Sse Gateway.

(** [writeStream.write(text)] on the [Writable] of connection [c], as
    [Server.run] calls it with a string: the state afterwards and
    whether the write reported an error.  After [end()] Node reports
    "write after end" without calling the [write] function given to the
    constructor; before, it calls that function at once. *)
Definition connection_write (c : nat) (text : jsstring) (g : gateway)
  : gateway * bool :=
  match connections g !! c with
  | Some conn =>
      if writeStream_ended conn then (g, true)
      else
        let '(r, failure) := writeStream_write (JStr text) (reply_raw conn) in
        (update_connection c (on_reply (fun _ => r)) g,
         match failure with Some _ => true | None => false end)
  | None => (g, false)
  end.

(** What has been written to the response of connection [c]. *)
Definition sent_to (c : nat) (g : gateway) : list jsstring :=
  match connections g !! c with
  | Some conn => sent (reply_raw conn)
  | None => []
  end.

End Outbound.

(** ** The OAuth configuration of a service ([LocalAuthClient.getOAuthConfig]) *)

Module OAuthConfig.
Import Auth.







End OAuthConfig.

(** ** The calendar plugin ([createServer] of
    [src/servers/gcalendar/main.ts]) *)

Module Calendar.
Import Framer.

(** What the handlers reach outside the process: [createCalendarService]
    (the credentials of the user and the client of the calendar API),
    how the listing of the calendars settles, and what the [try] blocks
    of the other handlers return from their first request to the API
    on, dates included; their [catch] turns a failure into a text. *)
Record world := {
  createCalendarService : completion unit;
  calendarList : outcome;
  read_calendar : json -> json;
  list_events : json -> json;
  create_event : json -> json;
  update_event : json -> json
}.

(** [!server.userId] *)
Definition no_user (userId : option jsstring) : bool :=
  match userId with
  | Some u => negb (truthy_string u)
  | None => true
  end.

(** [name === text] for a parameter that may be any JSON value. *)
Definition is_text (name : json) (text : jsstring) : bool :=
  match name with
  | JStr s => JS.eqb s text
  | _ => false
  end.

(** [!argumentsNonNull.key] *)
Definition lacks (arguments : json) (key : jsstring) : bool :=
  negb (truthy_opt (get arguments key)).

(** [[{ type: 'text', text }]] *)
Definition text_content (text : jsstring) : json :=
  JArr [JObj [(js "type", JStr (js "text")); (js "text", JStr text)]].

(** What the [catch] of [call_tool] returns for [new Error(message)]
    with a message that is not empty. *)
Definition tool_error (name : json) (message : jsstring) : outcome :=
  Resolved (text_content (js "Error calling tool '" ++ ToString name ++ js "': "
                            ++ message)).

Definition string_property (description : jsstring) : json :=
  JObj [(js "type", JStr (js "string")); (js "description", JStr description)].

Definition integer_property (description : jsstring) : json :=
  JObj [(js "type", JStr (js "integer")); (js "description", JStr description)].

Definition attendees_property (description : jsstring) : json :=
  JObj [(js "type", JStr (js "array"));
        (js "items", JObj [(js "type", JStr (js "string"));
                           (js "format", JStr (js "email"))]);
        (js "description", JStr description)].

Definition tool (name description : jsstring) (properties : list (jsstring * json))
  (required : list jsstring) : json :=
  JObj [(js "name", JStr name);
        (js "description", JStr description);
        (js "inputSchema",
         JObj [(js "type", JStr (js "object"));
               (js "properties", JObj properties);
               (js "required", JArr (map JStr required))])].

(** The list the [list_tools] handler returns. *)
Definition tools : json :=
  JArr [
    tool (js "list_events")
      (js "List events from Google Calendar for a specified time range")
      [(js "calendar_id",
        string_property (js "Calendar ID (optional - defaults to primary)"));
       (js "days",
        integer_property (js "Number of days to look ahead (optional - defaults to 7)"));
       (js "max_results",
        integer_property
          (js "Maximum number of events to return (optional - defaults to 10)"))]
      [];
    tool (js "create_event") (js "Create a new event in Google Calendar")
      [(js "calendar_id",
        string_property (js "Calendar ID (optional - defaults to primary)"));
       (js "summary", string_property (js "Event title"));
       (js "start_datetime",
        string_property
          (js "Start date/time (format: YYYY-MM-DD HH:MM for specific time, YYYY-MM-DD for all-day)"));
       (js "end_datetime",
        string_property
          (js "End date/time (format: YYYY-MM-DD HH:MM for specific time, YYYY-MM-DD for all-day)"));
       (js "description", string_property (js "Event description (optional)"));
       (js "location", string_property (js "Event location (optional)"));
       (js "attendees", attendees_property (js "List of attendee emails (optional)"))]
      [js "summary"; js "start_datetime"; js "end_datetime"];
    tool (js "update_event") (js "Update an existing event in Google Calendar")
      [(js "calendar_id",
        string_property (js "Calendar ID (optional - defaults to primary)"));
       (js "event_id", string_property (js "ID of the Event to update"));
       (js "summary", string_property (js "New event title (optional)"));
       (js "start_datetime",
        string_property
          (js "New start date/time (format: YYYY-MM-DD HH:MM or YYYY-MM-DD) (optional)"));
       (js "end_datetime",
        string_property
          (js "New end date/time (format: YYYY-MM-DD HH:MM or YYYY-MM-DD) (optional)"));
       (js "description", string_property (js "New event description (optional)"));
       (js "location", string_property (js "New event location (optional)"));
       (js "attendees",
        attendees_property
          (js "New list of attendee emails (replaces existing) (optional)"))]
      [js "event_id"] ].

(** The handler given to [server.call_tool()]. *)
Definition call_tool (w : world) (userId : option jsstring) (name args : json)
  : outcome :=
  if no_user userId then
    if interpolates name
    then Rejected (js "User ID is not set for call_tool " ++ ToString name)
    else Rejected not_primitive
  else
    let argumentsNonNull := match args with JNull => JObj [] | _ => args end in
    if negb (interpolates name) then Rejected not_primitive else
    match createCalendarService w with
    | Throw message => Rejected message
    | Return _ =>
        if is_text name (js "list_events") then Resolved (list_events w argumentsNonNull)
        else if is_text name (js "create_event") then
          if lacks argumentsNonNull (js "summary")
             || lacks argumentsNonNull (js "start_datetime")
             || lacks argumentsNonNull (js "end_datetime")
          then tool_error name
                 (js "Missing required parameters: summary, start_datetime, end_datetime")
          else Resolved (create_event w argumentsNonNull)
        else if is_text name (js "update_event") then
          if lacks argumentsNonNull (js "event_id")
          then tool_error name (js "Missing required parameter: event_id")
          else Resolved (update_event w argumentsNonNull)
        else tool_error name (js "Unknown tool: " ++ ToString name)
    end.

(** [createServer(userId, apiKey)]: the four handlers it registers. *)
Definition createServer (w : world) (userId apiKey : option jsstring) : Server :=
  {| listResourcesHandler :=
       Some (fun cursor =>
               if no_user userId
               then Rejected (js "User ID is not set for list_resources")
               else if negb (interpolates cursor) then Rejected not_primitive
               else match createCalendarService w with
                    | Throw message => Rejected message
                    | Return _ => calendarList w
                    end);
     readResourceHandler :=
       Some (fun uri =>
               if no_user userId
               then Rejected (js "User ID is not set for read_resource")
               else if negb (interpolates uri) then Rejected not_primitive
               else match createCalendarService w with
                    | Throw message => Rejected message
                    | Return _ => Resolved (read_calendar w uri)
                    end);
     listToolsHandler := Some (fun _ => Resolved tools);
     callToolHandler := Some (call_tool w userId) |}.

(** A calendar without events, and a user without stored credentials,
    for whom [getCredentials] throws. *)
Definition quiet : world :=
  {| createCalendarService := Return tt;
     calendarList := Resolved (JArr []);
     read_calendar := fun _ => JArr [];
     list_events := fun _ => text_content (js "No events found");
     create_event := fun _ => text_content (js "Event created");
     update_event := fun _ => text_content (js "Event updated") |}.

Definition without_credentials : world :=
  {| createCalendarService := Throw (js "Credentials not found for user alice");
     calendarList := Resolved (JArr []);
     read_calendar := fun _ => JArr [];
     list_events := fun _ => JArr [];
     create_event := fun _ => JArr [];
     update_event := fun _ => JArr [] |}.

End Calendar.

(** * Properties

    ** Lines of a text *)

Module FramerFacts.
Import Framer.

Lemma split_LF_nonempty s : split_LF s <> [].
Proof. destruct s as [|c r]; simpl; [done|]. destruct (c =? 10); [done|]. by destruct (split_LF r). Qed.

Lemma indexOf_LF_Some s b :
  indexOf_LF s = Some b ->
  s = take b s ++ [10] ++ drop (S b) s /\ indexOf_LF (take b s) = None.
Proof.
  revert b. induction s as [|c r IH]; intros b H; simpl in H; [done|].
  destruct (c =? 10) eqn:E.
  - injection H as <-. apply N.eqb_eq in E. subst. by simpl.
  - destruct (indexOf_LF r) as [i|] eqn:Hi; [|done]. injection H as <-.
    destruct (IH i eq_refl) as [H1 H2]. simpl. rewrite E, H2. split; [|done].
    f_equal. exact H1.
Qed.

Lemma split_LF_line l rest :
  indexOf_LF l = None -> split_LF (l ++ [10] ++ rest) = l :: split_LF rest.
Proof.
  induction l as [|c r IH]; intros H; simpl in *; [done|].
  destruct (c =? 10); [done|]. destruct (indexOf_LF r); [done|].
  by rewrite IH.
Qed.

Lemma split_LF_None s : indexOf_LF s = None -> split_LF s = [s].
Proof.
  induction s as [|c r IH]; intros H; simpl in *; [done|].
  destruct (c =? 10); [done|]. destruct (indexOf_LF r); [done|].
  by rewrite IH.
Qed.

Lemma complete_lines_line l rest :
  indexOf_LF l = None -> complete_lines (l ++ [10] ++ rest) = l :: complete_lines rest.
Proof.
  intros H. unfold complete_lines. rewrite split_LF_line by done.
  pose proof (split_LF_nonempty rest). simpl. by destruct (split_LF rest).
Qed.

Lemma complete_lines_None s : indexOf_LF s = None -> complete_lines s = [].
Proof. intros H. unfold complete_lines. by rewrite split_LF_None. Qed.


Lemma complete_lines_terminated ls rest :
  Forall (fun l => indexOf_LF l = None) ls ->
  complete_lines (terminated ls ++ rest) = ls ++ complete_lines rest.
Proof.
  induction 1 as [|l ls Hl _ IH]; [done|].
  unfold terminated in *. simpl. rewrite <- !app_assoc.
  rewrite (complete_lines_line l) by done. by rewrite IH.
Qed.
End FramerFacts.

(** ** The framer under arbitrary and under serial schedules *)

Module FramerProofs.
Import Framer FramerFacts.



Lemma frames_of_cons srv l ls :
  frames_of srv (l :: ls) = line_frames srv (trim l) ++ frames_of srv ls.
Proof. done. Qed.

Lemma frames_of_app srv ls1 ls2 :
  frames_of srv (ls1 ++ ls2) = frames_of srv ls1 ++ frames_of srv ls2.
Proof. unfold frames_of. by rewrite map_app, concat_app. Qed.

(** What one run of the loop does: it consumes some terminated lines
    [ls] of the buffer and either leaves with no line left, having
    written their frames, or is suspended on the last of them. *)
Lemma drain_loop_spec srv fuel st :
  (length (buffer st) < fuel)%nat ->
  exists ls,
    buffer st = terminated ls ++ buffer (drain_loop srv fuel st) /\
    Forall (fun l => indexOf_LF l = None) ls /\
    ((pending (drain_loop srv fuel st) = pending st /\
      indexOf_LF (buffer (drain_loop srv fuel st)) = None /\
      written (drain_loop srv fuel st) = written st ++ frames_of srv ls)
     \/
     (exists r,
        pending (drain_loop srv fuel st) = pending st ++ [(next_task st, r)] /\
        written (drain_loop srv fuel st) ++ response_frames r
        = written st ++ frames_of srv ls)).
Proof.
  revert st. induction fuel as [|fuel IH]; intros st Hlen; [lia|].
  simpl. destruct (indexOf_LF (buffer st)) as [b|] eqn:Hb.
  - destruct (indexOf_LF_Some _ _ Hb) as [Hsplit Hline].
    set (line := take b (buffer st)) in *.
    set (rest := drop (S b) (buffer st)) in *.
    assert (Hrest : (length rest < fuel)%nat).
    { rewrite Hsplit in Hlen. rewrite !length_app in Hlen. simpl in Hlen. lia. }
    unfold substring_to, substring_from. fold line rest.
    assert (Hfr : forall ls, frames_of srv (line :: ls)
                  = line_frames srv (trim line) ++ frames_of srv ls) by done.
    unfold line_frames in Hfr.
    destruct (process_line srv (trim line)) as [|frame|r] eqn:Hp.
    + destruct (IH (set_buffer rest st)) as (ls & H1 & H2 & H3); [done|].
      exists (line :: ls). split; [|split].
      * rewrite Hsplit at 1. simpl in H1. rewrite H1 at 1.
        unfold terminated. simpl. by rewrite <- !app_assoc.
      * by constructor.
      * rewrite Hfr. simpl in *. exact H3.
    + destruct (IH (write [frame] (set_buffer rest st))) as (ls & H1 & H2 & H3); [done|].
      exists (line :: ls). split; [|split].
      * rewrite Hsplit at 1. simpl in H1. rewrite H1 at 1.
        unfold terminated. simpl. by rewrite <- !app_assoc.
      * by constructor.
      * rewrite Hfr. simpl in *. rewrite <- !app_assoc in H3. exact H3.
    + exists [line]. split; [|split].
      * simpl. rewrite Hsplit at 1. unfold terminated. simpl.
        by rewrite <- !app_assoc.
      * by constructor.
      * right. exists r. split; [done|]. rewrite Hfr. simpl.
        by rewrite app_nil_r.
  - exists []. split; [done|]. split; [constructor|]. left.
    split; [done|]. split; [done|]. unfold frames_of. simpl. by rewrite app_nil_r.
Qed.

Lemma drain_spec srv st :
  exists ls,
    buffer st = terminated ls ++ buffer (drain srv st) /\
    Forall (fun l => indexOf_LF l = None) ls /\
    ((pending (drain srv st) = pending st /\
      indexOf_LF (buffer (drain srv st)) = None /\
      written (drain srv st) = written st ++ frames_of srv ls)
     \/
     (exists r,
        pending (drain srv st) = pending st ++ [(next_task st, r)] /\
        written (drain srv st) ++ response_frames r
        = written st ++ frames_of srv ls)).
Proof. apply drain_loop_spec. lia. Qed.

Lemma take_task_Some t tasks r rest :
  take_task t tasks = Some (r, rest) ->
  Permutation tasks ((t, r) :: rest).
Proof.
  revert rest. induction tasks as [|[t' r'] tasks IH]; intros rest H; simpl in H; [done|].
  destruct (Nat.eqb t t') eqn:E.
  - apply Nat.eqb_eq in E. subst. by injection H as <- <-.
  - destruct (take_task t tasks) as [[r0 rest']|]; [|done].
    injection H as <- <-. rewrite (IH rest' eq_refl). apply perm_swap.
Qed.



Lemma terminated_app ls1 ls2 : terminated (ls1 ++ ls2) = terminated ls1 ++ terminated ls2.
Proof. unfold terminated. by rewrite map_app, concat_app. Qed.

Lemma pending_frames_snoc st t r p :
  pending st = p ++ [(t, r)] ->
  pending_frames st = concat (map (fun task => response_frames (snd task)) p) ++ response_frames r.
Proof. intros H. unfold pending_frames. rewrite H, map_app, concat_app. simpl. by rewrite app_nil_r. Qed.

Lemma consistent_drain srv text st :
  (exists ls,
    text = terminated ls ++ buffer st /\
    Forall (fun l => indexOf_LF l = None) ls /\
    Permutation (written st ++ pending_frames st) (frames_of srv ls)) ->
  consistent srv text (drain srv st).
Proof.
  intros (ls & Ht & Hls & Hp).
  destruct (drain_spec srv st) as (ls' & Hb & Hls' & Hcases).
  exists (ls ++ ls'). split; [|split; [|split]].
  - rewrite Ht, Hb, terminated_app. by rewrite <- app_assoc.
  - by apply Forall_app.
  - rewrite frames_of_app. destruct Hcases as [(Hpe & _ & Hw)|(r & Hpe & Hw)].
    + unfold pending_frames. rewrite Hpe, Hw. fold (pending_frames st).
      rewrite <- Hp. rewrite <- !app_assoc. apply Permutation_app_head, Permutation_app_comm.
    + rewrite (pending_frames_snoc _ _ _ _ Hpe). fold (pending_frames st).
      rewrite <- Hp.
      transitivity ((written (drain srv st) ++ response_frames r) ++ pending_frames st).
      * rewrite <- !app_assoc. apply Permutation_app_head, Permutation_app_comm.
      * rewrite Hw. rewrite <- !app_assoc. apply Permutation_app_head, Permutation_app_comm.
  - destruct Hcases as [(Hpe & Hn & _)|(r & Hpe & _)]; [done|].
    rewrite Hpe. intros Hnil. by destruct (pending st).
Qed.

Lemma consistent_step srv text st e :
  consistent srv text st ->
  consistent srv (text ++ taken e) (step srv st e).
Proof.
  intros (ls & Ht & Hls & Hp & Hq). destruct e as [chunk|t]; cbn [step taken].
  - destruct (readable (Data chunk)).
    + apply consistent_drain. exists ls. split; [|split]; [|done|done].
      simpl. by rewrite Ht, <- app_assoc.
    + rewrite app_nil_r. by exists ls.
  - rewrite app_nil_r. destruct (take_task t (pending st)) as [[r rest]|] eqn:Htake.
    + apply consistent_drain. exists ls. split; [|split]; [done|done|].
      simpl. rewrite <- Hp. apply take_task_Some in Htake.
      unfold pending_frames at 2. rewrite Htake. simpl.
      unfold pending_frames. simpl. rewrite <- !app_assoc. done.
    + by exists ls.
Qed.

Lemma received_snoc events e :
  received (events ++ [e]) = received events ++ taken e.
Proof. unfold received. rewrite map_app, concat_app. simpl. by rewrite app_nil_r. Qed.

Lemma run_snoc srv events e st :
  run srv (events ++ [e]) st = step srv (run srv events st) e.
Proof. unfold run. by rewrite fold_left_app. Qed.

Lemma consistent_run srv events :
  consistent srv (received events) (run srv events initial).
Proof.
  induction events as [|e events IH] using rev_ind.
  - exists []. simpl. split; [done|]. split; [constructor|]. split; [|done].
    unfold frames_of. simpl. constructor.
  - rewrite received_snoc, run_snoc. by apply consistent_step.
Qed.

Lemma consistent_quiescent srv text st :
  consistent srv text st -> pending st = [] ->
  Permutation (written st) (frames_of srv (complete_lines text)).
Proof.
  intros (ls & Ht & Hls & Hp & Hq) Hnil.
  rewrite Ht, complete_lines_terminated by done.
  rewrite complete_lines_None by auto. rewrite app_nil_r.
  unfold pending_frames in Hp. rewrite Hnil in Hp. simpl in Hp.
  by rewrite app_nil_r in Hp.
Qed.

Lemma in_order_drain srv text st :
  pending st = [] ->
  (exists ls,
    text = terminated ls ++ buffer st /\
    Forall (fun l => indexOf_LF l = None) ls /\
    written st = frames_of srv ls) ->
  in_order srv text (drain srv st).
Proof.
  intros Hnil (ls & Ht & Hls & Hw).
  destruct (drain_spec srv st) as (ls' & Hb & Hls' & Hcases).
  exists (ls ++ ls'). split; [|split; [|split; [|split]]].
  - rewrite Ht, Hb, terminated_app. by rewrite <- app_assoc.
  - by apply Forall_app.
  - rewrite frames_of_app, <- Hw.
    destruct Hcases as [(Hpe & _ & Hw')|(r & Hpe & Hw')].
    + unfold pending_frames. rewrite Hpe, Hnil. simpl. by rewrite app_nil_r.
    + rewrite Hnil in Hpe. unfold pending_frames. rewrite Hpe. simpl.
      by rewrite app_nil_r.
  - destruct Hcases as [(Hpe & _ & _)|(r & Hpe & _)]; rewrite Hpe, Hnil; simpl; lia.
  - destruct Hcases as [(Hpe & Hn & _)|(r & Hpe & _)]; [done|].
    rewrite Hpe, Hnil. done.
Qed.

Lemma in_order_data srv text st chunk :
  in_order srv text st -> pending st = [] ->
  in_order srv (text ++ taken (Data chunk)) (step srv st (Data chunk)).
Proof.
  intros Hin Hnil. pose proof Hin as (ls & Ht & Hls & Hw & _ & _).
  cbn [step taken]. destruct (readable (Data chunk)).
  - apply in_order_drain; [done|]. exists ls. split; [|split]; [|done|].
    + simpl. by rewrite Ht, <- app_assoc.
    + simpl. unfold pending_frames in Hw. rewrite Hnil in Hw. simpl in Hw.
      by rewrite app_nil_r in Hw.
  - by rewrite app_nil_r.
Qed.

Lemma in_order_settle srv text st t :
  in_order srv text st -> in_order srv text (step srv st (Settle t)).
Proof.
  intros Hin. pose proof Hin as (ls & Ht & Hls & Hw & Hlen & Hq). simpl.
  destruct (pending st) as [|[t' r] [|x p]] eqn:Hp; simpl in *; [done| |lia].
  destruct (Nat.eqb t t'); [|done].
  apply in_order_drain; [done|]. exists ls. split; [|split]; [done|done|].
  simpl. unfold pending_frames in Hw. rewrite Hp in Hw. simpl in Hw.
  by rewrite app_nil_r in Hw.
Qed.

Lemma received_cons e events :
  received (e :: events) = taken e ++ received events.
Proof. done. Qed.

Lemma in_order_run srv events : forall st text,
  in_order srv text st -> serial srv events st ->
  in_order srv (text ++ received events) (run srv events st).
Proof.
  induction events as [|e events IH]; intros st text Hin Hser.
  - simpl. by rewrite app_nil_r.
  - rewrite received_cons, app_assoc. destruct e as [chunk|t]; simpl in Hser.
    + destruct Hser as [Hnil Hser]. apply IH; [|done]. by apply in_order_data.
    + rewrite app_nil_r. apply IH; [|done]. by apply in_order_settle.
Qed.

Lemma in_order_initial srv : in_order srv [] initial.
Proof.
  exists []. simpl. split; [done|]. split; [constructor|].
  split; [done|]. split; [lia|done].
Qed.

Lemma in_order_quiescent srv text st :
  in_order srv text st -> pending st = [] ->
  written st = frames_of srv (complete_lines text).
Proof.
  intros (ls & Ht & Hls & Hw & _ & Hq) Hnil.
  rewrite Ht, complete_lines_terminated by done.
  rewrite complete_lines_None by auto. rewrite app_nil_r.
  unfold pending_frames in Hw. rewrite Hnil in Hw. simpl in Hw.
  by rewrite app_nil_r in Hw.
Qed.

Lemma parse_nonempty line v : JSON.parse line = Some v -> truthy_string line = true.
Proof. destruct line; [|done]. by vm_compute. Qed.

(** The response of the [catch] block of the listener to a line that
    is JSON. *)
Lemma errorResponse_parsed line request :
  JSON.parse line = Some request ->
  errorResponse line
  = error_response (-32700) (js "Parse error") (or_null (get request (js "id"))).
Proof.
  intros Hparse. unfold errorResponse. rewrite Hparse.
  destruct (truthy request) eqn:Ht; [done|]. by destruct request.
Qed.

(** A request that passes validation and carries an id that is not
    null: one frame, with this id, whether [handleRequest] returns or
    throws. *)
Lemma request_frame srv line request id :
  JSON.parse line = Some request ->
  invalid_request request = false ->
  get request (js "id") = Some id -> id <> JNull ->
  exists response,
    line_frames srv line = [stringify response ++ [10]] /\
    get response (js "id") = Some id /\
    get response (js "jsonrpc") = Some (JStr (js "2.0")).
Proof.
  intros Hparse Hvalid Hid Hnn. unfold line_frames, process_line.
  rewrite (parse_nonempty _ _ Hparse), Hparse, Hvalid.
  unfold handleRequest. rewrite Hid.
  destruct (dispatch srv _ _) as [result|message].
  - exists (result_response result id). by destruct id.
  - destruct (interpolates_opt (get request (js "method"))).
    + eexists (error_response _ _ id). by destruct id.
    + exists (errorResponse line). cbn [resumed response_frames].
      split; [done|]. by rewrite (errorResponse_parsed _ _ Hparse), Hid.
Qed.


(** *** One line completed by a chunk *)

Lemma indexOf_LF_line l rest :
  indexOf_LF l = None -> indexOf_LF (l ++ [10] ++ rest) = Some (length l).
Proof.
  induction l as [|c r IH]; intros H; simpl in *; [done|].
  destruct (c =? 10); [done|].
  destruct (indexOf_LF r); [done|]. by rewrite IH.
Qed.

Lemma line_arrives srv st text :
  indexOf_LF (buffer st ++ text) = None ->
  step srv st (Data (JStr (text ++ [10])))
  = after_line (process_line srv (trim (buffer st ++ text))) (set_buffer [] st).
Proof.
  intros Hno. cbn [step readable interpolates ToString].
  unfold drain. cbn [set_buffer buffer].
  assert (Hb : buffer st ++ text ++ [10] = (buffer st ++ text) ++ [10] ++ [])
    by (by rewrite <- app_assoc).
  rewrite Hb. cbn [drain_loop set_buffer buffer].
  rewrite (indexOf_LF_line _ [] Hno).
  unfold substring_to, substring_from.
  rewrite take_app_length.
  replace (drop (S (length (buffer st ++ text))) ((buffer st ++ text) ++ [10] ++ []))
    with (@nil N).
  2:{ change ((buffer st ++ text) ++ [10] ++ [])
        with ((buffer st ++ text) ++ [10]).
      rewrite drop_ge; [done|]. rewrite length_app. cbn. lia. }
  cbn [pending next_task written].
  destruct (process_line srv (trim (buffer st ++ text))) as [|frame|response];
    cbn [after_line]; [| |done].
  - by destruct (length ((buffer st ++ text) ++ [10] ++ [])).
  - by destruct (length ((buffer st ++ text) ++ [10] ++ [])).
Qed.

Lemma take_task_fresh t tasks r :
  take_task t tasks = None -> take_task t (tasks ++ [(t, r)]) = Some (r, tasks).
Proof.
  induction tasks as [|[t' r'] tasks IH]; cbn [take_task app].
  - by rewrite Nat.eqb_refl.
  - destruct (Nat.eqb t t'); [done|].
    destruct (take_task t tasks) as [[r0 rest]|]; [done|].
    intros _. by rewrite IH.
Qed.

(** The invocation suspended last is resumed while the buffer is
    empty: it writes its frame and leaves the loop. *)
Lemma resumed_at_once srv st response :
  take_task (next_task st) (pending st) = None ->
  step srv (suspend response (set_buffer [] st)) (Settle (next_task st))
  = write (response_frames response)
      {| buffer := []; pending := pending st;
         next_task := S (next_task st); written := written st |}.
Proof.
  intros Hfresh. cbn [step suspend set_buffer pending next_task buffer written].
  by rewrite (take_task_fresh _ _ response Hfresh).
Qed.

End FramerProofs.

(** ** The responses of the framer *)

Module FramerResponses.
Import Framer FramerFacts FramerProofs.

Lemma or_default_nonempty c m d : or_default (Some (c :: m)) d = c :: m.
Proof. done. Qed.

Lemma dispatch_unknown srv m params :
  known_method m = false ->
  dispatch srv (Some m) params = Rejected (method_not_found (Some m)).
Proof.
  intros H. unfold dispatch. destruct m as [| | |s| |]; try done.
  simpl in H. apply orb_false_elim in H as [H H4]. apply orb_false_elim in H as [H H3].
  apply orb_false_elim in H as [H1 H2]. by rewrite H1, H2, H3, H4.
Qed.







(** So is a request without [id] that passes the validation with a
    method the log line cannot hold: [handleRequest] throws in its own
    [catch] block, before its test of the [id]. *)
Lemma notification_unprintable_method_is_answered :
  let line := json_text "{'jsonrpc':'2.0','method':{'toString':1}}" in
  (exists request,
     JSON.parse line = Some request /\ invalid_request request = false
     /\ get request (js "id") = None)
  /\ written (run calendar_like [Data (JStr (line ++ [10])); Settle 0] initial)
     = [json_text "{'jsonrpc':'2.0','error':{'code':-32700,'message':'Parse error'},'id':null}"
          ++ [10]].
Proof.
  split.
  - eexists. repeat split; vm_compute; reflexivity.
  - vm_compute. reflexivity.
Qed.

(** C3 (amended).  For every schedule of chunks and settlements that
    ends with no invocation of the listener suspended, the frames
    written are exactly, up to order, those of the complete lines
    received, each valid request with an id that is not null giving one
    frame that carries this id; and when no chunk is delivered while an
    invocation is suspended, the frames are in the order of the lines.
    The chunks are such that the listener can take their text, and the
    lines such that JavaScript reads them as they are written. *)
Theorem responses_per_request srv events :
  forallb readable events = true ->
  forallb (fun l => read_as_written (trim l)) (complete_lines (received events))
  = true ->
  pending (run srv events initial) = [] ->
  Permutation (written (run srv events initial))
    (frames_of srv (complete_lines (received events)))
  /\ (serial srv events initial ->
      written (run srv events initial)
      = frames_of srv (complete_lines (received events)))
  /\ (forall line request id,
        JSON.parse line = Some request -> as_written request = true ->
        invalid_request request = false ->
        get request (js "id") = Some id -> id <> JNull ->
        exists response,
          line_frames srv line = [stringify response ++ [10]] /\
          get response (js "id") = Some id).
Proof.
  intros _ _ Hq. split; [|split].
  - eapply consistent_quiescent; [apply consistent_run | done].
  - intros Hser. eapply in_order_quiescent; [|done].
    apply (in_order_run srv events initial [] (in_order_initial srv) Hser).
  - intros line request id Hp _ Hv Hid Hn.
    destruct (request_frame srv line request id Hp Hv Hid Hn) as (r & H1 & H2 & _).
    by exists r.
Qed.

Lemma responses_per_request_witness :
  written (run calendar_like two_lines initial)
  = [json_text "{'jsonrpc':'2.0','result':[{'name':'list_events'}],'id':1}" ++ [10];
     json_text "{'jsonrpc':'2.0','error':{'code':-32603,'message':'Method not found: nope'},'id':2}" ++ [10]].
Proof.
  assert (Hq : pending (run calendar_like two_lines initial) = [])
    by (vm_compute; reflexivity).
  destruct (responses_per_request calendar_like two_lines) as (_ & Hser & _);
    [reflexivity | vm_compute; reflexivity | exact Hq |].
  rewrite Hser.
  - vm_compute. reflexivity.
  - vm_compute. tauto.
Defined.

(** C3 as stated fails: two requests in two chunks, the second
    delivered while the first is still awaiting its handler; the
    response to the second is written first. *)

Lemma responses_out_of_order :
  pending (run calendar_like overlapping initial) = []
  /\ written (run calendar_like overlapping initial)
     = [json_text "{'jsonrpc':'2.0','result':[{'name':'list_events'}],'id':2}" ++ [10];
        json_text "{'jsonrpc':'2.0','result':[{'type':'text','text':'list_events'}],'id':1}" ++ [10]]
  /\ frames_of calendar_like (complete_lines (received overlapping))
     = [json_text "{'jsonrpc':'2.0','result':[{'type':'text','text':'list_events'}],'id':1}" ++ [10];
        json_text "{'jsonrpc':'2.0','result':[{'name':'list_events'}],'id':2}" ++ [10]].
Proof. repeat split; vm_compute; reflexivity. Qed.

(** C4 (amended).  A line is completed by a chunk and its trimmed text
    is not empty.  If it is not valid JSON, the listener writes the
    error -32700 with a null [id] at once.  If it is JSON and fails the
    validation of the listener, it writes the same error with the [id]
    of the line, null when it has none.  If it is a valid request whose
    method is not one of the four known ones and can be held by the
    message, with an [id] that is not null, the invocation is suspended
    and writes, when resumed, the error -32603 "Method not found:
    <method>" with this [id]. *)
Theorem error_responses srv st text :
  indexOf_LF (buffer st ++ text) = None ->
  truthy_string (trim (buffer st ++ text)) = true ->
  let line := trim (buffer st ++ text) in
  let arrival := step srv st (Data (JStr (text ++ [10]))) in
  (JSON.parse line = None ->
   let frame :=
     stringify (error_response (-32700) (js "Parse error") JNull) ++ [10] in
   line_frames srv line = [frame]
   /\ written arrival = written st ++ [frame]
   /\ pending arrival = pending st)
  /\ (forall request,
        JSON.parse line = Some request -> as_written request = true ->
        (invalid_request request = true ->
         let frame :=
           stringify (error_response (-32700) (js "Parse error")
                        (or_null (get request (js "id")))) ++ [10] in
         line_frames srv line = [frame]
         /\ written arrival = written st ++ [frame]
         /\ pending arrival = pending st)
        /\ (forall method id,
              invalid_request request = false ->
              get request (js "method") = Some method ->
              known_method method = false -> interpolates method = true ->
              get request (js "id") = Some id -> id <> JNull ->
              let response :=
                error_response (-32603)
                  (js "Method not found: " ++ ToString method) id in
              line_frames srv line = [stringify response ++ [10]]
              /\ written arrival = written st
              /\ pending arrival = pending st ++ [(next_task st, Some response)]
              /\ (take_task (next_task st) (pending st) = None ->
                  written (step srv arrival (Settle (next_task st)))
                  = written st ++ [stringify response ++ [10]]
                  /\ pending (step srv arrival (Settle (next_task st)))
                     = pending st))).
Proof.
  intros Hno Hne. cbv zeta. rewrite (line_arrives srv st text Hno).
  unfold line_frames, process_line. rewrite Hne. split.
  - intros Hparse. unfold errorResponse. by rewrite Hparse.
  - intros request Hparse _. rewrite Hparse. split.
    + intros Hinv. rewrite Hinv. cbn [after_line].
      by rewrite (errorResponse_parsed _ _ Hparse).
    + intros method id Hvalid Hm Hunknown Hi Hid Hnn. rewrite Hvalid.
      unfold handleRequest. rewrite Hm, Hid, (dispatch_unknown _ _ _ Hunknown).
      cbn [interpolates_opt method_not_found]. rewrite Hi.
      assert (Hd : or_default (Some (js "Method not found: " ++ ToString method))
                     (js "Internal server error")
                   = js "Method not found: " ++ ToString method) by done.
      rewrite Hd.
      assert (Hr : resumed (trim (buffer st ++ text))
                     (Return match id with
                             | JNull => None
                             | _ => Some (error_response (-32603)
                                            (js "Method not found: " ++ ToString method)
                                            id)
                             end)
                   = Some (error_response (-32603)
                             (js "Method not found: " ++ ToString method) id))
        by (by destruct id).
      rewrite Hr. cbn [after_line]. split; [done|]. split; [done|]. split; [done|].
      intros Hfresh. by rewrite (resumed_at_once srv st _ Hfresh).
Qed.

Lemma error_responses_witness :
  written (run calendar_like
             [Data (JStr (json_text "{'jsonrpc':'2.0','method':" ++ [10]))] initial)
  = [json_text "{'jsonrpc':'2.0','error':{'code':-32700,'message':'Parse error'},'id':null}" ++ [10]]
  /\ written (run calendar_like
                [Data (JStr (json_text "{'jsonrpc':'1.0','method':'list_tools','id':7}"
                             ++ [10]))] initial)
     = [json_text "{'jsonrpc':'2.0','error':{'code':-32700,'message':'Parse error'},'id':7}" ++ [10]]
  /\ written (run calendar_like
                [Data (JStr (json_text "{'jsonrpc':'2.0','method':'nope','id':'a'}"
                             ++ [10])); Settle 0] initial)
     = [json_text "{'jsonrpc':'2.0','error':{'code':-32603,'message':'Method not found: nope'},'id':'a'}" ++ [10]].
Proof.
  split; [|split].
  - destruct (error_responses calendar_like initial
                (json_text "{'jsonrpc':'2.0','method':")) as [H _];
      [vm_compute; reflexivity | vm_compute; reflexivity |].
    cbn [run fold_left]. cbv zeta in H.
    rewrite (proj1 (proj2 (H ltac:(vm_compute; reflexivity)))).
    vm_compute. reflexivity.
  - destruct (error_responses calendar_like initial
                (json_text "{'jsonrpc':'1.0','method':'list_tools','id':7}"))
      as [_ H]; [vm_compute; reflexivity | vm_compute; reflexivity |].
    edestruct H as [H1 _]; [vm_compute; reflexivity | vm_compute; reflexivity |].
    cbn [run fold_left]. cbv zeta in H1.
    rewrite (proj1 (proj2 (H1 ltac:(vm_compute; reflexivity)))).
    vm_compute. reflexivity.
  - destruct (error_responses calendar_like initial
                (json_text "{'jsonrpc':'2.0','method':'nope','id':'a'}"))
      as [_ H]; [vm_compute; reflexivity | vm_compute; reflexivity |].
    edestruct H as [_ H2]; [vm_compute; reflexivity | vm_compute; reflexivity |].
    edestruct (H2 (JStr (js "nope")) (JStr (js "a"))) as (_ & _ & _ & H3);
      [vm_compute; reflexivity | vm_compute; reflexivity | vm_compute; reflexivity
      | reflexivity | vm_compute; reflexivity | discriminate |].
    cbn [run fold_left]. cbv zeta in H3.
    change (next_task initial) with 0%nat in H3.
    rewrite (proj1 (H3 eq_refl)). vm_compute. reflexivity.
Defined.

(** C4 as stated fails: a request with an unknown method whose [id]
    field is null is valid JSON with an [id] that can be recovered, and
    gets no error response at all, [handleRequest] returning [null]
    for it; and an unknown method that is an object with a member
    [toString] is answered, with the [id] of the request, by the parse
    error of the listener, not by a "method not found" error. *)
Lemma unknown_method_with_null_id_is_not_answered :
  let line := json_text "{'jsonrpc':'2.0','method':'nope','id':null}" in
  let other := json_text "{'jsonrpc':'2.0','method':{'toString':1},'id':1}" in
  (exists request,
     JSON.parse line = Some request /\ get request (js "id") = Some JNull
     /\ get request (js "method") = Some (JStr (js "nope")))
  /\ pending (run calendar_like [Data (JStr (line ++ [10])); Settle 0] initial) = []
  /\ written (run calendar_like [Data (JStr (line ++ [10])); Settle 0] initial) = []
  /\ written (run calendar_like [Data (JStr (other ++ [10])); Settle 0] initial)
     = [json_text "{'jsonrpc':'2.0','error':{'code':-32700,'message':'Parse error'},'id':1}"
          ++ [10]].
Proof.
  split; [|split; [|split]].
  - eexists. repeat split; vm_compute; reflexivity.
  - vm_compute. reflexivity.
  - vm_compute. reflexivity.
  - vm_compute. reflexivity.
Qed.

End FramerResponses.

(** ** The outbound side of the SSE transport *)

Module SseProofs.
Import Sse Framer FramerFacts.

Lemma split_LF_pieces s : Forall (fun l => indexOf_LF l = None) (split_LF s).
Proof.
  induction s as [|c r IH]; simpl.
  - by repeat constructor.
  - destruct (c =? 10) eqn:E; [by constructor|].
    pose proof (split_LF_nonempty r). destruct (split_LF r) as [|l ls]; [done|].
    inversion IH as [|? ? Hl Hls]; subst. constructor; [|done].
    simpl. by rewrite E, Hl.
Qed.

Lemma join_split_LF s : join [10] (split_LF s) = s.
Proof.
  induction s as [|c r IH]; [done|]. simpl.
  destruct (c =? 10) eqn:E.
  - apply N.eqb_eq in E. subst. pose proof (split_LF_nonempty r).
    simpl. destruct (split_LF r); [done|]. simpl in *. by rewrite IH.
  - pose proof (split_LF_nonempty r). destruct (split_LF r) as [|l ls]; [done|].
    destruct ls; simpl in *; by rewrite <- IH.
Qed.

Lemma split_LF_terminated ls rest :
  Forall (fun l => indexOf_LF l = None) ls ->
  split_LF (terminated ls ++ rest) = ls ++ split_LF rest.
Proof.
  induction 1 as [|l ls Hl _ IH]; [done|].
  unfold terminated in *. simpl. rewrite <- !app_assoc.
  rewrite (split_LF_line l) by done. by rewrite IH.
Qed.

Lemma data_lines_event ls :
  ls <> [] ->
  join [10] (map (fun line => js "data: " ++ line) ls) ++ [10; 10]
  = concat (map (fun line => js "data: " ++ line ++ [10]) ls) ++ [10].
Proof.
  induction ls as [|l ls IH]; [done|]. intros _.
  destruct ls as [|l' ls].
  - simpl. rewrite app_nil_r. by rewrite <- !app_assoc.
  - change (join [10] (map (fun line => js "data: " ++ line) (l :: l' :: ls)))
      with ((js "data: " ++ l) ++ [10]
            ++ join [10] (map (fun line => js "data: " ++ line) (l' :: ls))).
    rewrite <- !app_assoc. rewrite IH by done.
    change (concat (map (fun line => js "data: " ++ line ++ [10]) (l :: l' :: ls)))
      with ((js "data: " ++ l ++ [10])
            ++ concat (map (fun line => js "data: " ++ line ++ [10]) (l' :: ls))).
    by rewrite <- !app_assoc.
Qed.

Lemma strip_prefix_app p s : strip_prefix p (p ++ s) = Some s.
Proof. induction p as [|a p IH]; [done|]. simpl. by rewrite N.eqb_refl. Qed.

Lemma read_fields_data ls :
  read_fields (map (fun line => js "data: " ++ line) ls ++ [[]; []]) = Some ls.
Proof.
  induction ls as [|l ls IH]; [done|].
  change (read_fields (map (fun line => js "data: " ++ line) (l :: ls) ++ [[]; []]))
    with (match strip_prefix (js "data: ") (js "data: " ++ l),
                read_fields (map (fun line => js "data: " ++ line) ls ++ [[]; []]) with
          | Some field, Some fields => Some (field :: fields)
          | _, _ => None
          end).
  by rewrite strip_prefix_app, IH.
Qed.

Lemma prefixed_no_LF l :
  indexOf_LF l = None -> indexOf_LF (js "data: " ++ l) = None.
Proof. intros H. simpl. by rewrite H. Qed.

Lemma spec_event_terminated text :
  spec_event text
  = terminated (map (fun line => js "data: " ++ line) (split_LF text)) ++ [10].
Proof.
  unfold spec_event, terminated. by rewrite map_map.
Qed.

Lemma read_spec_event text : read_event (spec_event text) = Some text.
Proof.
  unfold read_event. rewrite spec_event_terminated, split_LF_terminated.
  - change (split_LF [10]) with ([[]; []] : list jsstring).
    by rewrite read_fields_data, join_split_LF.
  - apply Forall_map. eapply Forall_impl; [apply split_LF_pieces|].
    intros l Hl. by apply prefixed_no_LF.
Qed.

(** C5.  A payload written while the response is open goes out as one
    event: the payload itself when it is a string and its JSON text
    otherwise, cut at the line feeds, one [data: ] line per piece and a
    blank line at the end, from which a reader recovers the payload.  A
    write after the response has ended reports
    "Cannot write to closed SSE stream" and sends nothing. *)
Theorem outbound_write chunk r :
  (forall s, chunk = JStr s -> dataString chunk = s)
  /\ ((forall s, chunk <> JStr s) -> dataString chunk = stringify chunk)
  /\ (writableEnded r = false ->
      writeStream_write chunk r
      = ({| writableEnded := false;
            sent := sent r ++ [spec_event (dataString chunk)] |}, None)
      /\ Forall (fun line => indexOf_LF line = None) (split_LF (dataString chunk))
      /\ read_event (spec_event (dataString chunk)) = Some (dataString chunk))
  /\ (writableEnded r = true ->
      writeStream_write chunk r
      = (r, Some (js "Cannot write to closed SSE stream"))).
Proof.
  split; [|split; [|split]].
  - by intros s ->.
  - intros H. destruct chunk; try done. by destruct (H s).
  - intros Hopen. split; [|split].
    + unfold writeStream_write, data_lines, raw_write. rewrite Hopen. simpl negb.
      cbv iota. by rewrite data_lines_event by apply split_LF_nonempty.
    + apply split_LF_pieces.
    + apply read_spec_event.
  - intros Hended. unfold writeStream_write. by rewrite Hended.
Qed.

Lemma outbound_write_witness :
  writeStream_write (JStr (js "a" ++ [10] ++ js "b"))
    {| writableEnded := false; sent := [] |}
  = ({| writableEnded := false;
        sent := [js "data: a" ++ [10] ++ js "data: b" ++ [10; 10]] |}, None)
  /\ writeStream_write (JObj [(js "id", JNull)])
       {| writableEnded := true; sent := [] |}
     = ({| writableEnded := true; sent := [] |},
        Some (js "Cannot write to closed SSE stream")).
Proof.
  split.
  - destruct (outbound_write (JStr (js "a" ++ [10] ++ js "b"))
                {| writableEnded := false; sent := [] |}) as (_ & _ & H & _).
    destruct (H eq_refl) as [-> _]. vm_compute. reflexivity.
  - destruct (outbound_write (JObj [(js "id", JNull)])
                {| writableEnded := true; sent := [] |}) as (_ & _ & _ & H).
    exact (H eq_refl).
Defined.
End SseProofs.

(** ** The gateway: teardown, instances and the message route *)

Module GatewayProofs.
Import Sse Registry Gateway.

Lemma value_dec label metric :
  value (dec label metric) label = (value metric label - 1)%Z.
Proof. unfold value, dec. by rewrite lookup_insert_eq. Qed.

Lemma value_inc label metric :
  value (inc label metric) label = (value metric label + 1)%Z.
Proof. unfold value, inc. by rewrite lookup_insert_eq. Qed.

Lemma update_connection_lookup c f g conn :
  connections g !! c = Some conn ->
  connections (update_connection c f g) !! c = Some (f conn).
Proof.
  intros H. unfold update_connection. simpl. rewrite H.
  apply list_lookup_insert_eq. by eapply lookup_lt_Some.
Qed.

Lemma update_connection_lookup_ne c c' f g :
  c <> c' ->
  connections (update_connection c f g) !! c' = connections g !! c'.
Proof.
  intros H. unfold update_connection. simpl.
  destruct (connections g !! c); [|done]. by apply list_lookup_insert_ne.
Qed.

Lemma update_connection_length c f g :
  length (connections (update_connection c f g)) = length (connections g).
Proof.
  unfold update_connection. simpl. destruct (connections g !! c); [|done].
  apply length_insert.
Qed.

(** The two teardown paths of a connection whose transport is
    registered: [close] then [finally] decrements once; [finally] then
    [close] decrements twice. *)
Lemma close_event_gauge c g conn :
  connections g !! c = Some conn ->
  activeConnections (close_event c g)
  = dec (conn_server conn) (activeConnections g)
  /\ userSessionTransports (close_event c g)
     = delete (conn_session conn) (userSessionTransports g)
  /\ connections (close_event c g) !! c = Some (release_streams conn).
Proof.
  intros H. unfold close_event. rewrite H. split; [done|]. split; [done|].
  by apply update_connection_lookup.
Qed.

Lemma run_settled_registered result c g conn t :
  connections g !! c = Some conn ->
  userSessionTransports g !! conn_session conn = Some t ->
  activeConnections (run_settled result c g)
  = dec (conn_server conn) (activeConnections g)
  /\ userSessionTransports (run_settled result c g)
     = delete (conn_session conn) (userSessionTransports g)
  /\ exists conn', connections (run_settled result c g) !! c = Some conn' /\
                   conn_session conn' = conn_session conn /\
                   conn_server conn' = conn_server conn.
Proof.
  intros H Ht. unfold run_settled. rewrite H. simpl. rewrite Ht.
  split; [done|]. split; [done|].
  eexists. split.
  - apply update_connection_lookup. simpl. rewrite H.
    apply list_lookup_insert_eq. by eapply lookup_lt_Some.
  - done.
Qed.

Lemma run_settled_unregistered result c g conn :
  connections g !! c = Some conn ->
  userSessionTransports g !! conn_session conn = None ->
  activeConnections (run_settled result c g) = activeConnections g
  /\ userSessionTransports (run_settled result c g) = userSessionTransports g.
Proof.
  intros H Ht. unfold run_settled. rewrite H. simpl. by rewrite Ht.
Qed.

(** C1 at the failing schedule.  For a connection whose transport is
    registered, the end of [run] followed by the ['close'] event of the
    request takes 2 off the gauge of the plugin, where 1 is specified;
    the two in the other order take 1. *)
Theorem teardown_after_run_decrements_twice result c g conn t :
  connections g !! c = Some conn ->
  userSessionTransports g !! conn_session conn = Some t ->
  value (activeConnections (close_event c (run_settled result c g))) (conn_server conn)
  = (value (activeConnections g) (conn_server conn) - 2)%Z
  /\ value (activeConnections (run_settled result c (close_event c g))) (conn_server conn)
     = (value (activeConnections g) (conn_server conn) - 1)%Z.
Proof.
  intros H Ht. split.
  - destruct (run_settled_registered result c g conn t H Ht)
      as (Hg & _ & conn' & Hc' & _ & Hs').
    destruct (close_event_gauge c _ conn' Hc') as (Hg' & _).
    rewrite Hg', Hs', value_dec, Hg, value_dec. lia.
  - destruct (close_event_gauge c g conn H) as (Hg & Hd & Hc).
    destruct (run_settled_unregistered result c _ _ Hc) as (Hg' & _).
    + simpl. rewrite Hd. apply lookup_delete_eq.
    + rewrite Hg', Hg, value_dec. lia.
Qed.


Lemma teardown_after_run_decrements_twice_witness :
  value (activeConnections
           (serve [Connect calendar_plugin (js "gcalendar") (js "alice")] empty))
    (js "gcalendar") = 1%Z
  /\ value (activeConnections (serve run_then_close empty)) (js "gcalendar") = (-1)%Z.
Proof.
  split; [vm_compute; reflexivity|].
  set (g := serve [Connect calendar_plugin (js "gcalendar") (js "alice")] empty).
  assert (Hc : exists conn, connections g !! 0%nat = Some conn
                 /\ conn_server conn = js "gcalendar"
                 /\ userSessionTransports g !! conn_session conn = Some 0%nat).
  { eexists. split; [vm_compute; reflexivity|]. split; vm_compute; reflexivity. }
  destruct Hc as (conn & Hc & Hs & Ht).
  destruct (teardown_after_run_decrements_twice run_returned 0 g conn 0 Hc Ht) as [H _].
  change (serve run_then_close empty) with (close_event 0 (run_settled run_returned 0 g)).
  rewrite <- Hs, H. rewrite Hs. vm_compute. reflexivity.
Defined.

(** *** Instances are kept *)

Lemma run_settled_keeps result c g :
  userServerInstances (run_settled result c g) = userServerInstances g
  /\ created (run_settled result c g) = created g
  /\ length (connections (run_settled result c g)) = length (connections g)
  /\ (forall conn, connections g !! c = Some conn ->
        exists conn', connections (run_settled result c g) !! c = Some conn'
                      /\ conn_instance conn' = conn_instance conn).
Proof.
  unfold run_settled. destruct (connections g !! c) as [conn|] eqn:Hc.
  - set (g1 := update_connection c _ g).
    assert (H1 : connections g1 !! c = Some (on_reply
              (fun r => if negb (writableEnded r) then
                 match result with
                 | run_returned => raw_end r
                 | run_threw => raw_end (raw_write error_event r)
                 end else r) conn)) by by apply update_connection_lookup.
    assert (Hlen : length (connections g1) = length (connections g))
      by apply update_connection_length.
    destruct (userSessionTransports g1 !! conn_session conn);
      (split; [done|]; split; [done|]; split;
       [rewrite update_connection_length; unfold delete_and_dec;
        cbn [connections]; exact Hlen|];
       intros conn0 [= <-]; eexists; split;
       [by apply update_connection_lookup | done]).
  - repeat split; try done.
Qed.

Lemma close_event_keeps c g :
  userServerInstances (close_event c g) = userServerInstances g
  /\ created (close_event c g) = created g.
Proof. unfold close_event. by destruct (connections g !! c). Qed.

Lemma message_route_keeps serverName sessionKeyEncoded body g :
  userServerInstances (snd (message_route serverName sessionKeyEncoded body g))
  = userServerInstances g
  /\ userSessionTransports (snd (message_route serverName sessionKeyEncoded body g))
     = userSessionTransports g
  /\ activeConnections (snd (message_route serverName sessionKeyEncoded body g))
     = activeConnections g
  /\ connectionTotal (snd (message_route serverName sessionKeyEncoded body g))
     = connectionTotal g
  /\ created (snd (message_route serverName sessionKeyEncoded body g)) = created g.
Proof.
  unfold message_route.
  by destruct (userSessionTransports g !! sessionKey serverName sessionKeyEncoded).
Qed.

(** The SSE route spelled out for a session that has an instance and
    for one that has none. *)
Lemma attach_spec key serverName i g :
  let c := fst (attach key serverName i g) in
  let g2 := snd (attach key serverName i g) in
  c = length (connections g)
  /\ userServerInstances g2 = userServerInstances g
  /\ created g2 = created g
  /\ activeConnections g2 = activeConnections g
  /\ userSessionTransports g2 = <[key := c]> (userSessionTransports g)
  /\ exists conn, connections g2 = connections g ++ [conn]
       /\ connections g2 !! c = Some conn
       /\ conn_instance conn = i /\ conn_session conn = key
       /\ conn_server conn = serverName
       /\ readStream conn = createMessageEmitter.
Proof.
  simpl. repeat (split; [done|]). eexists. split; [done|]. split; [|done].
  rewrite lookup_app_r by lia. by rewrite Nat.sub_diag.
Qed.

Lemma sse_route_instances info serverName sessionKeyEncoded g c g' :
  sse_route info serverName sessionKeyEncoded g = Return (c, g') ->
  let key := sessionKey serverName sessionKeyEncoded in
  match userServerInstances g !! key with
  | Some i =>
      userServerInstances g' = userServerInstances g /\ created g' = created g /\
      exists conn, connections g' !! c = Some conn /\ conn_instance conn = i
  | None =>
      createServerInstance (serverFactory info)
        (fst (parse_session sessionKeyEncoded)) (snd (parse_session sessionKeyEncoded))
      = Return tt /\
      userServerInstances g' = <[key := length (created g)]> (userServerInstances g) /\
      created g' = created g ++ [parse_session sessionKeyEncoded] /\
      exists conn, connections g' !! c = Some conn /\
                   conn_instance conn = length (created g)
  end.
Proof.
  intros Hr. unfold sse_route, get_or_create in Hr. cbv zeta.
  set (key := sessionKey serverName sessionKeyEncoded) in *.
  destruct (userServerInstances g !! key) as [i|] eqn:Hi.
  - cbn [mbind completion_bind] in Hr.
    destruct (attach key serverName i g) as [c2 g2] eqn:Ha.
    pose proof (attach_spec key serverName i g) as Hs. rewrite Ha in Hs.
    cbn [fst snd] in Hs. destruct Hs as (_ & H1 & H2 & _ & _ & conn & _ & Hc & Hci & _).
    destruct (options_call (getInitializationOptions info) i).
    + injection Hr as Hr1 Hr2; subst c g'. rewrite H1, H2. split; [done|]. split; [done|]. by exists conn.
    + injection Hr as Hr1 Hr2; subst c g'.
      destruct (run_settled_keeps run_threw c2 g2) as (H1' & H2' & _ & H4).
      rewrite H1', H2', H1, H2. split; [done|]. split; [done|].
      destruct (H4 _ Hc) as (conn' & Hc' & Hi'). exists conn'. by rewrite Hi'.
  - destruct (createServerInstance (serverFactory info) _ _) as [[]|m] eqn:Hf; [|done].
    cbn [mbind completion_bind] in Hr.
    match type of Hr with context [attach key serverName ?i0 ?g0] =>
      destruct (attach key serverName i0 g0) as [c2 g2] eqn:Ha;
      pose proof (attach_spec key serverName i0 g0) as Hs end.
    rewrite Ha in Hs. cbn [fst snd userServerInstances created] in Hs.
    destruct Hs as (_ & H1 & H2 & _ & _ & conn & _ & Hc & Hci & _).
    assert (Hcr : created g ++ [(fst (parse_session sessionKeyEncoded),
                                snd (parse_session sessionKeyEncoded))]
                  = created g ++ [parse_session sessionKeyEncoded])
      by by destruct (parse_session sessionKeyEncoded).
    destruct (options_call (getInitializationOptions info) (length (created g))).
    + injection Hr as Hr1 Hr2; subst c g'. rewrite H1, H2, Hcr. split; [done|]. split; [done|].
      split; [done|]. by exists conn.
    + injection Hr as Hr1 Hr2; subst c g'.
      destruct (run_settled_keeps run_threw c2 g2) as (H1' & H2' & _ & H4).
      rewrite H1', H2', H1, H2, Hcr. split; [done|]. split; [done|]. split; [done|].
      destruct (H4 _ Hc) as (conn' & Hc' & Hi'). exists conn'. by rewrite Hi'.
Qed.

Lemma sse_route_reuse info serverName sessionKeyEncoded g i :
  userServerInstances g !! sessionKey serverName sessionKeyEncoded = Some i ->
  exists c g', sse_route info serverName sessionKeyEncoded g = Return (c, g').
Proof.
  intros Hi. unfold sse_route, get_or_create. rewrite Hi.
  cbn [mbind completion_bind].
  destruct (attach _ _ _ _). destruct (options_call _ _); by eexists _, _.
Qed.

Lemma react_instance g o key i :
  userServerInstances g !! key = Some i ->
  userServerInstances (react g o) !! key = Some i.
Proof.
  intros Hi. destruct o as [info n k|c|result c|n k body]; simpl.
  - destruct (sse_route info n k g) as [[c g']|] eqn:Hr; [|done].
    pose proof (sse_route_instances _ _ _ _ _ _ Hr) as H. simpl in H.
    destruct (userServerInstances g !! sessionKey n k) as [j|] eqn:Hj.
    + destruct H as (-> & _). done.
    + destruct H as (_ & -> & _). rewrite lookup_insert_ne; [done|].
      intros <-. congruence.
  - by rewrite (proj1 (close_event_keeps c g)).
  - by rewrite (proj1 (run_settled_keeps result c g)).
  - by rewrite (proj1 (message_route_keeps n k body g)).
Qed.

Lemma serve_instance history : forall g key i,
  userServerInstances g !! key = Some i ->
  userServerInstances (serve history g) !! key = Some i.
Proof.
  induction history as [|o history IH]; intros g key i Hi; [done|].
  simpl. apply IH. by apply react_instance.
Qed.

(** C6.  Once a session has an instance, it keeps this very instance
    whatever happens to the gateway, and a connection on the session is
    given it without the factory being run; the factory is run, once,
    exactly when the session has none. *)
Theorem reconnect_reuses_instance info serverName sessionKeyEncoded g :
  let key := sessionKey serverName sessionKeyEncoded in
  (forall i, userServerInstances g !! key = Some i ->
     (forall history, userServerInstances (serve history g) !! key = Some i)
     /\ exists c g',
          sse_route info serverName sessionKeyEncoded g = Return (c, g') /\
          (exists conn, connections g' !! c = Some conn /\ conn_instance conn = i) /\
          created g' = created g /\
          userServerInstances g' = userServerInstances g)
  /\ (userServerInstances g !! key = None ->
      forall c g',
        sse_route info serverName sessionKeyEncoded g = Return (c, g') ->
        createServerInstance (serverFactory info)
          (fst (parse_session sessionKeyEncoded)) (snd (parse_session sessionKeyEncoded))
        = Return tt /\
        created g' = created g ++ [parse_session sessionKeyEncoded] /\
        userServerInstances g' !! key = Some (length (created g)) /\
        exists conn, connections g' !! c = Some conn /\
                     conn_instance conn = length (created g)).
Proof.
  intros key. split.
  - intros i Hi. split; [intros history; by apply serve_instance|].
    destruct (sse_route_reuse info _ _ _ _ Hi) as (c & g' & Hr).
    exists c, g'. split; [done|].
    pose proof (sse_route_instances _ _ _ _ _ _ Hr) as H. simpl in H.
    fold key in H. rewrite Hi in H. destruct H as (H1 & H2 & H3). done.
  - intros Hn c g' Hr.
    pose proof (sse_route_instances _ _ _ _ _ _ Hr) as H. simpl in H.
    fold key in H. rewrite Hn in H. destruct H as (H1 & H2 & H3 & H4).
    split; [done|]. split; [done|]. split; [|done].
    rewrite H2. apply lookup_insert_eq.
Qed.


Lemma reconnect_reuses_instance_witness :
  created (serve reconnect empty) = [(Some (js "alice"), Some (js "secret"))]
  /\ (exists conn, connections (serve reconnect empty) !! 1%nat = Some conn
                   /\ conn_instance conn = 0%nat).
Proof.
  set (g := serve [Connect calendar_plugin (js "gcalendar") (js "alice:secret"); Close 0] empty).
  assert (Hi : userServerInstances g !! sessionKey (js "gcalendar") (js "alice:secret")
               = Some 0%nat) by (vm_compute; reflexivity).
  destruct (proj1 (reconnect_reuses_instance calendar_plugin (js "gcalendar")
                     (js "alice:secret") g) 0%nat Hi) as (_ & c & g' & Hr & Hconn & Hcr & _).
  assert (Hs : serve reconnect empty = g').
  { change (serve reconnect empty)
      with (react g (Connect calendar_plugin (js "gcalendar") (js "alice:secret"))).
    simpl. by rewrite Hr. }
  assert (Hc : c = 1%nat).
  { assert (H : sse_route calendar_plugin (js "gcalendar") (js "alice:secret") g
                = Return (1%nat, snd (1%nat, react g (Connect calendar_plugin (js "gcalendar") (js "alice:secret")))))
      by (vm_compute; reflexivity).
    rewrite Hr in H. by injection H. }
  rewrite Hs. split.
  - rewrite Hcr. vm_compute. reflexivity.
  - by rewrite <- Hc.
Defined.

(** *** Registered transports are live *)

Lemma push_keeps_destroyed msg r : destroyed (push msg r) = destroyed r.
Proof.
  unfold push. destruct msg; try done;
    (destruct (ended r); [done|]; by destruct (destroyed r || errored r)).
Qed.

Lemma push_errored_ended msg r :
  (errored r = true -> ended r = true) ->
  errored (push msg r) = true -> ended (push msg r) = true.
Proof.
  intros H. unfold push.
  destruct msg; try done;
    (destruct (ended r) eqn:He; [done|];
     destruct (destroyed r || errored r) eqn:Hor;
     [by rewrite He | simpl; apply orb_false_elim in Hor as [_ Hr]; congruence]).
Qed.

Lemma registered_live_update c f g :
  (forall conn, conn_session (f conn) = conn_session conn) ->
  (forall conn, destroyed (readStream (f conn)) = destroyed (readStream conn)) ->
  (forall conn, (errored (readStream conn) = true -> ended (readStream conn) = true) ->
                errored (readStream (f conn)) = true ->
                ended (readStream (f conn)) = true) ->
  registered_live g -> registered_live (update_connection c f g).
Proof.
  intros Hs Hd He [HA HB]. split.
  - intros key t Ht. destruct (HA key t Ht) as (conn & Hc & Hk & Hl).
    destruct (decide (c = t)) as [->|Hne].
    + exists (f conn). split; [by apply update_connection_lookup|].
      by rewrite Hs, Hd.
    + exists conn. by rewrite update_connection_lookup_ne.
  - intros t conn Hc. destruct (decide (c = t)) as [->|Hne].
    + destruct (connections g !! t) as [conn0|] eqn:H0.
      * rewrite (update_connection_lookup _ _ _ _ H0) in Hc. injection Hc as <-.
        apply He. by apply (HB t).
      * unfold update_connection in Hc. simpl in Hc. rewrite H0 in Hc. congruence.
    + rewrite update_connection_lookup_ne in Hc by done. by apply (HB t).
Qed.

(** Removing the registration of the session of [conn] and then
    destroying the stream of [conn] keeps the invariant. *)
Lemma registered_live_release c g conn transports metric :
  connections g !! c = Some conn ->
  registered_live g ->
  (forall key t, transports !! key = Some t ->
                 userSessionTransports g !! key = Some t /\ key <> conn_session conn) ->
  registered_live
    (update_connection c release_streams
       {| userServerInstances := userServerInstances g;
          userSessionTransports := transports;
          activeConnections := metric;
          connectionTotal := connectionTotal g;
          created := created g;
          connections := connections g |}).
Proof.
  intros Hc [HA HB] Hsub. split.
  - intros key t Ht. destruct (Hsub key t Ht) as [Hold Hne].
    destruct (HA key t Hold) as (conn' & Hc' & Hk & Hl).
    assert (c <> t) by (intros ->; congruence).
    exists conn'. by rewrite update_connection_lookup_ne.
  - intros t conn' Hc'. destruct (decide (c = t)) as [->|Hne].
    + rewrite (update_connection_lookup t release_streams _ conn) in Hc' by done.
      injection Hc' as <-. simpl. by apply (HB t).
    + rewrite update_connection_lookup_ne in Hc' by done. by apply (HB t).
Qed.

Lemma registered_live_close c g :
  registered_live g -> registered_live (close_event c g).
Proof.
  intros Hg. unfold close_event. destruct (connections g !! c) as [conn|] eqn:Hc; [|done].
  apply (registered_live_release c g conn); [done|done|].
  intros key t Ht. destruct (decide (key = conn_session conn)) as [->|Hne].
  - by rewrite lookup_delete_eq in Ht.
  - by rewrite lookup_delete_ne in Ht.
Qed.

Lemma registered_live_run_settled result c g :
  registered_live g -> registered_live (run_settled result c g).
Proof.
  intros Hg. unfold run_settled. destruct (connections g !! c) as [conn|] eqn:Hc; [|done].
  set (f := on_reply _).
  assert (Hg1 : registered_live (update_connection c f g))
    by (apply registered_live_update; done).
  assert (Hc1 : connections (update_connection c f g) !! c = Some (f conn))
    by by apply update_connection_lookup.
  change (userSessionTransports (update_connection c f g))
    with (userSessionTransports g).
  destruct (userSessionTransports g !! conn_session conn) as [t|] eqn:Ht.
  - apply (registered_live_release c (update_connection c f g) (f conn)); [done|done|].
    intros key t' Ht'. simpl in *. destruct (decide (key = conn_session conn)) as [->|Hne].
    + by rewrite lookup_delete_eq in Ht'.
    + by rewrite lookup_delete_ne in Ht'.
  - destruct (update_connection c f g) as [m1 m2 m3 m4 cr cs] eqn:Hu.
    assert (m2 = userSessionTransports g)
      by (change m2 with (userSessionTransports
            {| userServerInstances := m1; userSessionTransports := m2;
               activeConnections := m3; connectionTotal := m4; created := cr;
               connections := cs |}); by rewrite <- Hu).
    subst m2.
    apply (registered_live_release c
             {| userServerInstances := m1;
                userSessionTransports := userSessionTransports g;
                activeConnections := m3; connectionTotal := m4; created := cr;
                connections := cs |} (f conn)); [done|done|].
    intros key t' Ht'. split; [done|]. simpl. intros ->. subst f. simpl in Ht'. congruence.
Qed.

Lemma registered_live_attach key serverName i g :
  registered_live g -> registered_live (snd (attach key serverName i g)).
Proof.
  intros [HA HB]. split.
  - intros k t Ht. simpl in Ht. destruct (decide (key = k)) as [->|Hne].
    + rewrite lookup_insert_eq in Ht. injection Ht as <-. eexists. split.
      * simpl. rewrite lookup_app_r by lia. by rewrite Nat.sub_diag.
      * done.
    + rewrite lookup_insert_ne in Ht by done.
      destruct (HA k t Ht) as (conn & Hc & Hk & Hl). exists conn.
      split; [|done]. simpl. rewrite lookup_app_l; [done|]. by eapply lookup_lt_Some.
  - intros t conn Hc. simpl in Hc. apply lookup_app_Some in Hc as [Hc|[_ Hc]].
    + by apply (HB t).
    + destruct (t - length (connections g))%nat; [|done]. by injection Hc as <-.
Qed.

Lemma registered_live_react g o : registered_live g -> registered_live (react g o).
Proof.
  intros Hg. destruct o as [info n k|c|result c|n k body]; simpl.
  - unfold sse_route, get_or_create.
    destruct (userServerInstances g !! sessionKey n k) as [i|].
    + cbn [mbind completion_bind].
      pose proof (registered_live_attach (sessionKey n k) n i g Hg) as Ha.
      destruct (attach (sessionKey n k) n i g) as [c2 g2].
      destruct (options_call _ _); [done|]. by apply registered_live_run_settled.
    + destruct (createServerInstance _ _ _) as [[]|]; [|done].
      cbn [mbind completion_bind].
      match goal with |- context [attach ?k0 ?n0 ?i0 ?g0] =>
        assert (Ha : registered_live (snd (attach k0 n0 i0 g0)))
          by (apply registered_live_attach; destruct Hg; by split);
        destruct (attach k0 n0 i0 g0) as [c2 g2] end.
      destruct (options_call _ _); [done|]. by apply registered_live_run_settled.
  - by apply registered_live_close.
  - by apply registered_live_run_settled.
  - unfold message_route. destruct (userSessionTransports g !! sessionKey n k); [|done].
    simpl. apply registered_live_update; try done.
    + intros conn. simpl. apply push_keeps_destroyed.
    + intros conn. simpl. apply push_errored_ended.
Qed.

Lemma registered_live_serve history : forall g,
  registered_live g -> registered_live (serve history g).
Proof.
  induction history as [|o history IH]; intros g Hg; [done|].
  simpl. apply IH. by apply registered_live_react.
Qed.

Lemma registered_live_empty : registered_live empty.
Proof. split; intros ? ?; simpl; [by rewrite lookup_empty|done]. Qed.

(** C7 (amended).  In every state the gateway can reach, a message
    posted to a session that has no transport is answered 404 and
    changes nothing; posted to a session whose transport has an inbound
    stream that has not been ended, a body other than [null] is
    appended to that stream as one message and answered 202, and no
    session map or metric changes. *)
Theorem post_message history serverName sessionKeyEncoded body :
  let g := serve history empty in
  let key := sessionKey serverName sessionKeyEncoded in
  (userSessionTransports g !! key = None ->
   message_route serverName sessionKeyEncoded body g = (404%Z, g))
  /\ (forall inbound_stream,
        inbound key g = Some inbound_stream ->
        ended inbound_stream = false -> body <> JNull ->
        exists g',
          message_route serverName sessionKeyEncoded body g = (202%Z, g') /\
          inbound key g'
          = Some {| queue := queue inbound_stream ++ [body]; ended := false;
                    destroyed := false; errored := false |} /\
          destroyed inbound_stream = false /\ errored inbound_stream = false /\
          userServerInstances g' = userServerInstances g /\
          userSessionTransports g' = userSessionTransports g /\
          activeConnections g' = activeConnections g /\
          connectionTotal g' = connectionTotal g).
Proof.
  intros g key. split.
  - intros Hn. unfold message_route. fold key. by rewrite Hn.
  - intros r Hin Hend Hbody.
    destruct (registered_live_serve history empty registered_live_empty) as [HA HB].
    fold g in HA, HB. unfold inbound in Hin.
    destruct (userSessionTransports g !! key) as [t|] eqn:Ht; [|done].
    destruct (HA key t Ht) as (conn & Hc & Hk & Hl). rewrite Hc in Hin.
    injection Hin as <-.
    assert (Herr : errored (readStream conn) = false).
    { destruct (errored (readStream conn)) eqn:E; [|done].
      rewrite (HB t conn Hc E) in Hend. done. }
    unfold message_route. fold key. rewrite Ht. eexists. split; [done|].
    split; [|done].
    unfold inbound. cbn [userSessionTransports update_connection]. rewrite Ht.
    erewrite update_connection_lookup by done. cbn [readStream].
    unfold push. rewrite Hend, Hl, Herr. by destruct body.
Qed.


Lemma post_message_witness :
  message_route (js "gcalendar") (js "bob") (JStr (js "hello")) (serve connected empty)
  = (404%Z, serve connected empty)
  /\ (exists g',
        message_route (js "gcalendar") (js "alice") (JStr (js "hello"))
          (serve connected empty) = (202%Z, g') /\
        inbound (sessionKey (js "gcalendar") (js "alice")) g'
        = Some {| queue := [JStr (js "hello")]; ended := false;
                  destroyed := false; errored := false |}).
Proof.
  split.
  - apply (proj1 (post_message connected (js "gcalendar") (js "bob") (JStr (js "hello")))).
    vm_compute. reflexivity.
  - destruct (proj2 (post_message connected (js "gcalendar") (js "alice")
                       (JStr (js "hello"))) createMessageEmitter)
      as (g' & H1 & H2 & _); [vm_compute; reflexivity | reflexivity | discriminate |].
    exists g'. split; [exact H1 | exact H2].
Defined.

(** C7 as stated fails: the body [null] posted to a live session is
    answered 202, but it is not queued; it ends the inbound stream. *)
Lemma post_null_ends_the_stream :
  let g := serve connected empty in
  exists g',
    message_route (js "gcalendar") (js "alice") JNull g = (202%Z, g') /\
    inbound (sessionKey (js "gcalendar") (js "alice")) g
    = Some {| queue := []; ended := false; destroyed := false; errored := false |} /\
    inbound (sessionKey (js "gcalendar") (js "alice")) g'
    = Some {| queue := []; ended := true; destroyed := false; errored := false |}.
Proof. eexists. repeat split; vm_compute; reflexivity. Qed.
End GatewayProofs.

(** ** The plugin registry *)

Module RegistryProofs.
Import Registry.

Lemma loadServerModule_loads h entry :
  isDirectory entry = true ->
  match loads h entry with
  | Some info =>
      exists m, loadServerModule h (name entry) (path_join (SERVERS_DIR h) (name entry))
                = (Return (Some m), [])
                /\ info = {| serverFactory := server m;
                             getInitializationOptions := module_getInitializationOptions m |}
  | None =>
      (access h (main_file h entry) = false /\
       loadServerModule h (name entry) (path_join (SERVERS_DIR h) (name entry))
       = (Return None,
          [(warn, js "Server main file not found for '" ++ name entry
                    ++ js "' at " ++ main_file h entry)]))
      \/ (access h (main_file h entry) = true /\
          exists message,
            loadServerModule h (name entry) (path_join (SERVERS_DIR h) (name entry))
            = (Return None,
               [(error, js "Failed to load server module '" ++ name entry
                          ++ js "' from " ++ main_file h entry ++ js ": "
                          ++ message)]))
      \/ (rejects_bare h entry = true /\
          exists typeError,
            import h (main_file h entry) = Throw (without_message typeError) /\
            loadServerModule h (name entry) (path_join (SERVERS_DIR h) (name entry))
            = (Throw typeError, []))
  end.
Proof.
  intros Hd. unfold loads, loadServerModule, checkFileExists, import_and_validate,
    rejects_bare.
  fold (main_file h entry). rewrite Hd. cbn [andb].
  destruct (access h (main_file h entry)) eqn:Ha; cbn [negb andb].
  - destruct (import h (main_file h entry)) as [m|[msg|typeError]] eqn:Hi.
    + destruct (typeof (server m)) eqn:Ht;
        destruct (options_typeof (module_getInitializationOptions m)) eqn:Ho;
        try (right; left; split; [done|]; by eexists);
        try (by exists m).
    + right. left. split; [done|]. by eexists.
    + right. right. split; [done|]. by exists typeError.
  - left. done.
Qed.

Lemma loads_deterministic h e1 e2 i1 i2 :
  name e1 = name e2 -> loads h e1 = Some i1 -> loads h e2 = Some i2 -> i1 = i2.
Proof.
  unfold loads. intros Hn. rewrite Hn.
  destruct (isDirectory e1), (isDirectory e2); cbn [andb]; try done.
  destruct (access h _); cbn [andb]; [|done].
  destruct (import h _) as [m|]; [|done].
  destruct (typeof (server m)), (options_typeof (module_getInitializationOptions m));
    congruence.
Qed.

Lemma loads_directory h e i : loads h e = Some i -> isDirectory e = true.
Proof. unfold loads. by destruct (isDirectory e). Qed.

Lemma loads_same_name h e1 e2 i :
  name e1 = name e2 -> isDirectory e1 = true ->
  loads h e2 = Some i -> loads h e1 = Some i.
Proof.
  intros Hn Hd H. pose proof (loads_directory _ _ _ H) as Hd2.
  unfold loads in *. by rewrite Hn, Hd; rewrite Hd2 in H.
Qed.

Lemma rejects_bare_loads h entry : rejects_bare h entry = true -> loads h entry = None.
Proof.
  unfold rejects_bare, loads. fold (main_file h entry).
  destruct (isDirectory entry && access h (main_file h entry)); [|done].
  by destruct (import h (main_file h entry)) as [m|[msg|typeError]].
Qed.

(** One turn of the loop that returns. *)
Lemma load_entry_returns h acc entry :
  rejects_bare h entry = false ->
  exists lines,
    load_entry h acc entry
    = Return (match loads h entry with
              | Some info => <[name entry := info]> (fst acc)
              | None => fst acc
              end, snd acc ++ lines)
    /\ (isDirectory entry = true -> loads h entry = None ->
        (access h (main_file h entry) = false /\
         lines = [(warn, js "Server main file not found for '" ++ name entry
                           ++ js "' at " ++ main_file h entry)])
        \/ (access h (main_file h entry) = true /\
            exists message,
              lines = [(error, js "Failed to load server module '" ++ name entry
                                 ++ js "' from " ++ main_file h entry ++ js ": "
                                 ++ message)])).
Proof.
  intros Hbare. unfold load_entry. destruct (isDirectory entry) eqn:Hd.
  - pose proof (loadServerModule_loads h entry Hd) as H.
    destruct (loads h entry) as [info|] eqn:Hl.
    + destruct H as (m & -> & ->). exists []. split; [done|]. done.
    + destruct H as [[Ha ->]|[[Ha [message ->]]|[Hb _]]].
      * eexists. split; [done|]. intros _ _. left. done.
      * eexists. split; [done|]. intros _ _. right. split; [done|]. by exists message.
      * congruence.
  - exists []. split.
    + unfold loads. rewrite Hd. cbn [andb]. rewrite app_nil_r. by destruct acc.
    + done.
Qed.

(** One turn of the loop that throws. *)
Lemma load_entry_throws h acc entry :
  rejects_bare h entry = true ->
  exists typeError,
    import h (main_file h entry) = Throw (without_message typeError)
    /\ load_entry h acc entry = Throw typeError.
Proof.
  intros Hbare. pose proof Hbare as Hb.
  unfold rejects_bare in Hb.
  apply andb_true_iff in Hb as [[Hd Ha]%andb_true_iff _].
  pose proof (loadServerModule_loads h entry Hd) as H.
  rewrite (rejects_bare_loads _ _ Hbare) in H.
  destruct H as [[Ha' _]|[[_ [message Hl]]|[_ (typeError & Hi & Hl)]]].
  - congruence.
  - exfalso. unfold rejects_bare in Hbare. rewrite Hd, Ha in Hbare. cbn [andb] in Hbare.
    unfold loadServerModule, checkFileExists, import_and_validate in Hl.
    fold (main_file h entry) in Hl. rewrite Ha in Hl. cbn [negb] in Hl.
    by destruct (import h (main_file h entry)) as [m|[msg|typeError]].
  - exists typeError. split; [done|]. unfold load_entry. by rewrite Hd, Hl.
Qed.

Lemma some_entry_loads h n (entries : list Dirent) :
  (exists entry i, entry ∈ entries /\ name entry = n /\ loads h entry = Some i)
  \/ (forall entry, entry ∈ entries -> name entry = n -> loads h entry = None).
Proof.
  induction entries as [|e entries IH].
  - right. intros entry Hin. by apply elem_of_nil in Hin.
  - destruct IH as [(entry & i & Hin & Hn & Hl)|Hall].
    + left. exists entry, i. split; [by apply elem_of_cons; right | done].
    + destruct (decide (name e = n)) as [Heq|Hne].
      * destruct (loads h e) as [i|] eqn:Hl.
        -- left. exists e, i. split; [by apply elem_of_cons; left | done].
        -- right. intros entry [->|Hin]%elem_of_cons Hn; [done | by apply Hall].
      * right. intros entry [->|Hin]%elem_of_cons Hn; [done | by apply Hall].
Qed.

(** The pass over entries none of which makes the loop throw: the
    plugins of the map are the entries that pass both checks of
    [loadServerModule], and the others have their line in the log. *)
Lemma load_entries_returning h entries :
  Forall (fun entry => rejects_bare h entry = false) entries ->
  forall acc,
    (forall serverName info,
       fst (load_entries h entries acc) !! serverName = Some info <->
       (exists entry, entry ∈ entries /\ name entry = serverName /\
                      loads h entry = Some info)
       \/ (fst acc !! serverName = Some info /\
           forall entry, entry ∈ entries -> name entry = serverName ->
                         loads h entry = None))
    /\ exists lines,
         snd (load_entries h entries acc) = snd acc ++ lines /\
         forall entry,
           entry ∈ entries -> isDirectory entry = true -> loads h entry = None ->
           (access h (main_file h entry) = false /\
            (warn, js "Server main file not found for '" ++ name entry
                     ++ js "' at " ++ main_file h entry) ∈ lines)
           \/ (access h (main_file h entry) = true /\
               exists message,
                 (error, js "Failed to load server module '" ++ name entry
                           ++ js "' from " ++ main_file h entry ++ js ": " ++ message)
                 ∈ lines).
Proof.
  induction 1 as [|e entries He _ IH]; intros acc.
  - cbn [load_entries]. split.
    + intros n info. split.
      * intros Hl. right. split; [done|]. intros entry Hin. by apply elem_of_nil in Hin.
      * intros [(entry & Hin & _)|[Hl _]]; [by apply elem_of_nil in Hin | done].
    + exists []. split; [by rewrite app_nil_r|]. intros entry Hin.
      by apply elem_of_nil in Hin.
  - cbn [load_entries].
    destruct (load_entry_returns h acc e He) as (lines & -> & Hlines).
    destruct (IH (match loads h e with
                  | Some info => <[name e := info]> (fst acc)
                  | None => fst acc
                  end, snd acc ++ lines)) as [IHm (lines' & IHs & IHl)].
    cbn [fst snd] in *. split.
    + intros n info. rewrite IHm. split.
      * intros [(entry & Hin & Hn & Hle)|[Hacc Hnone]].
        -- left. exists entry. split; [by apply elem_of_cons; right | done].
        -- destruct (loads h e) as [info_e|] eqn:Hl.
           ++ destruct (decide (name e = n)) as [Heq|Hne].
              ** rewrite <- Heq, lookup_insert_eq in Hacc. injection Hacc as ->.
                 left. exists e. split; [by apply elem_of_cons; left | done].
              ** rewrite lookup_insert_ne in Hacc by done.
                 right. split; [done|]. intros entry [->|Hin]%elem_of_cons Hn;
                   [done | by apply Hnone].
           ++ right. split; [done|]. intros entry [->|Hin]%elem_of_cons Hn;
                [done | by apply Hnone].
      * intros [(entry & [->|Hin]%elem_of_cons & Hn & Hle)|[Hacc Hnone]].
        -- destruct (some_entry_loads h n entries)
             as [(entry' & i & Hin & Hn' & Hl')|Hall].
           ++ left. exists entry'. split; [done|]. split; [done|].
              rewrite Hl'. f_equal. symmetry.
              eapply loads_deterministic; [|exact Hle|exact Hl']. congruence.
           ++ right. split; [by rewrite Hle, <- Hn, lookup_insert_eq|done].
        -- left. by exists entry.
        -- right. split.
           ++ destruct (loads h e) as [info_e|] eqn:Hl; [|done].
              destruct (decide (name e = n)) as [Heq|Hne].
              ** rewrite (Hnone e) in Hl; [done | by apply elem_of_cons; left | done].
              ** by rewrite lookup_insert_ne.
           ++ intros entry Hin. apply Hnone. by apply elem_of_cons; right.
    + exists (lines ++ lines'). split; [by rewrite IHs, <- app_assoc|].
      intros entry [->|Hin]%elem_of_cons Hd Hl.
      * destruct (Hlines Hd Hl) as [[Ha ->]|[Ha [message ->]]].
        -- left. split; [done|]. apply elem_of_app. left. by apply list_elem_of_singleton.
        -- right. split; [done|]. exists message. apply elem_of_app. left.
           by apply list_elem_of_singleton.
      * destruct (IHl entry Hin Hd Hl) as [[Ha Hw]|[Ha [message Hw]]].
        -- left. split; [done|]. apply elem_of_app. by right.
        -- right. split; [done|]. exists message. apply elem_of_app. by right.
Qed.

(** Whatever the entries do, a plugin of the map is an entry that
    passes both checks, or was in the map before. *)
Lemma load_entries_sound h entries : forall acc serverName info,
  fst (load_entries h entries acc) !! serverName = Some info ->
  fst acc !! serverName = Some info
  \/ exists entry, entry ∈ entries /\ name entry = serverName /\
                    loads h entry = Some info.
Proof.
  induction entries as [|e entries IH]; intros acc n info Hl; [by left|].
  cbn [load_entries] in Hl.
  destruct (rejects_bare h e) eqn:Hbare.
  - destruct (load_entry_throws h acc e Hbare) as (typeError & _ & Ht).
    rewrite Ht in Hl. by left.
  - destruct (load_entry_returns h acc e Hbare) as (lines & Hr & _).
    rewrite Hr in Hl. apply IH in Hl as [Hl|(entry & Hin & Hn & Hle)].
    + cbn [fst] in Hl. destruct (loads h e) as [info_e|] eqn:Hle; [|by left].
      destruct (decide (name e = n)) as [Heq|Hne].
      * rewrite <- Heq, lookup_insert_eq in Hl. injection Hl as ->.
        right. exists e. split; [by apply elem_of_cons; left | done].
      * rewrite lookup_insert_ne in Hl by done. by left.
    + right. exists entry. split; [by apply elem_of_cons; right | done].
Qed.

(** The pass ends at the first entry whose load throws. *)
Lemma load_entries_aborted h before bad after typeError : forall acc,
  Forall (fun entry => rejects_bare h entry = false) before ->
  (forall acc', load_entry h acc' bad = Throw typeError) ->
  load_entries h (before ++ bad :: after) acc
  = (fst (load_entries h before acc),
     snd (load_entries h before acc) ++ [discovery_error h typeError]).
Proof.
  intros acc Hbefore Hbad. revert acc.
  induction Hbefore as [|e before He _ IH]; intros acc.
  - cbn [app load_entries]. by rewrite Hbad.
  - cbn [app load_entries].
    destruct (load_entry_returns h acc e He) as (lines & -> & _). apply IH.
Qed.

(** Hosts on which no import rejects with a value without [message]:
    discovery yields exactly the directories that pass both checks of
    [loadServerModule], whatever their siblings are; a directory that
    fails one is left out, with a line of the log naming it. *)
Lemma discovery_skips_malformed h entries :
  readdir h = Return entries ->
  Forall (fun entry => rejects_bare h entry = false) entries ->
  (forall serverName info,
     fst (discoverAndLoadServers h) !! serverName = Some info <->
     exists entry, entry ∈ entries /\ name entry = serverName /\
                   loads h entry = Some info)
  /\ (forall entry,
        entry ∈ entries -> isDirectory entry = true -> loads h entry = None ->
        fst (discoverAndLoadServers h) !! name entry = None
        /\ ((access h (main_file h entry) = false /\
             (warn, js "Server main file not found for '" ++ name entry
                      ++ js "' at " ++ main_file h entry)
             ∈ snd (discoverAndLoadServers h))
            \/ (access h (main_file h entry) = true /\
                exists message,
                  (error, js "Failed to load server module '" ++ name entry
                            ++ js "' from " ++ main_file h entry ++ js ": "
                            ++ message)
                  ∈ snd (discoverAndLoadServers h)))).
Proof.
  intros Hr Hall. unfold discoverAndLoadServers. rewrite Hr.
  destruct (load_entries_returning h entries Hall (∅, [])) as [Hm (lines & Hs & Hl)].
  cbn [fst snd] in *.
  assert (Hiff : forall serverName info,
             fst (load_entries h entries (∅, [])) !! serverName = Some info <->
             exists entry, entry ∈ entries /\ name entry = serverName /\
                           loads h entry = Some info).
  { intros n info. rewrite Hm. split; [|by left].
    intros [H|[H _]]; [done|]. by rewrite lookup_empty in H. }
  split; [exact Hiff|].
  intros entry Hin Hd Hnone. split.
  - destruct (fst (load_entries h entries (∅, [])) !! name entry)
      as [info|] eqn:Hlook; [|done].
    apply Hiff in Hlook as (entry' & _ & Hn & Hload).
    rewrite (loads_same_name h entry entry' info) in Hnone; done.
  - rewrite Hs. by apply Hl.
Qed.

(** C8.  A plugin whose import rejects with a value that has no
    [message] ([undefined] or [null]) ends the discovery pass: the
    [catch] block of [loadServerModule] throws on it, and the [catch]
    around the loop takes over.  The map holds the plugins of the
    directories listed before it and none of those listed after it,
    valid or not; the last line of the log is the error of the [catch]
    around the loop. *)
Theorem bare_rejection_ends_discovery h before bad after typeError :
  readdir h = Return (before ++ bad :: after) ->
  Forall (fun entry => rejects_bare h entry = false) before ->
  isDirectory bad = true ->
  access h (main_file h bad) = true ->
  import h (main_file h bad) = Throw (without_message typeError) ->
  (forall serverName info,
     fst (discoverAndLoadServers h) !! serverName = Some info <->
     exists entry, entry ∈ before /\ name entry = serverName /\
                   loads h entry = Some info)
  /\ (forall entry,
        entry ∈ after ->
        (forall earlier, earlier ∈ before -> name earlier <> name entry) ->
        fst (discoverAndLoadServers h) !! name entry = None)
  /\ last (snd (discoverAndLoadServers h)) = Some (discovery_error h typeError).
Proof.
  intros Hr Hbefore Hd Ha Hi.
  assert (Hbare : rejects_bare h bad = true).
  { unfold rejects_bare. by rewrite Hd, Ha, Hi. }
  assert (Hthrow : forall acc', load_entry h acc' bad = Throw typeError).
  { intros acc'. destruct (load_entry_throws h acc' bad Hbare) as (t & Hi' & Ht).
    rewrite Hi in Hi'. by injection Hi' as ->. }
  unfold discoverAndLoadServers. rewrite Hr.
  rewrite (load_entries_aborted h before bad after typeError (∅, []) Hbefore Hthrow).
  cbn [fst snd].
  destruct (load_entries_returning h before Hbefore (∅, [])) as [Hm _].
  cbn [fst] in Hm.
  assert (Hiff : forall serverName info,
             fst (load_entries h before (∅, [])) !! serverName = Some info <->
             exists entry, entry ∈ before /\ name entry = serverName /\
                           loads h entry = Some info).
  { intros n info. rewrite Hm. split; [|by left].
    intros [H|[H _]]; [done|]. by rewrite lookup_empty in H. }
  split; [exact Hiff|]. split.
  - intros entry _ Hfresh.
    destruct (fst (load_entries h before (∅, [])) !! name entry) as [info|] eqn:Hl;
      [|done].
    apply Hiff in Hl as (earlier & Hin & Hn & _). by destruct (Hfresh earlier Hin).
  - apply last_snoc.
Qed.

Lemma bare_rejection_ends_discovery_witness :
  loads rejecting_host {| name := js "gcalendar"; isDirectory := true |}
  = Some {| serverFactory := server calendar_module;
            getInitializationOptions := module_getInitializationOptions calendar_module |}
  /\ fst (discoverAndLoadServers rejecting_host) !! js "gcalendar" = None.
Proof.
  split; [vm_compute; reflexivity|].
  destruct (bare_rejection_ends_discovery rejecting_host []
              {| name := js "flaky"; isDirectory := true |}
              [ {| name := js "gcalendar"; isDirectory := true |} ]
              (js "Cannot read properties of undefined (reading 'message')"))
    as (_ & Hafter & _).
  - reflexivity.
  - constructor.
  - reflexivity.
  - reflexivity.
  - vm_compute. reflexivity.
  - apply (Hafter {| name := js "gcalendar"; isDirectory := true |}).
    + apply list_elem_of_In. vm_compute. auto.
    + intros earlier Hin. by apply elem_of_nil in Hin.
Defined.

Lemma discovery_skips_malformed_sample :
  (exists info, fst (discoverAndLoadServers sample_host) !! js "gcalendar" = Some info)
  /\ fst (discoverAndLoadServers sample_host) !! js "broken" = None
  /\ fst (discoverAndLoadServers sample_host) !! js "empty" = None.
Proof.
  destruct (discovery_skips_malformed sample_host _ eq_refl) as [Hm Hs].
  { repeat constructor. }
  split; [|split].
  - eexists. apply Hm. exists {| name := js "gcalendar"; isDirectory := true |}.
    split; [|split]; [|reflexivity|vm_compute; reflexivity].
    apply list_elem_of_In. vm_compute. auto 10.
  - apply (Hs {| name := js "broken"; isDirectory := true |}).
    + apply list_elem_of_In. vm_compute. auto 10.
    + reflexivity.
    + vm_compute. reflexivity.
  - apply (Hs {| name := js "empty"; isDirectory := true |}).
    + apply list_elem_of_In. vm_compute. auto 10.
    + reflexivity.
    + vm_compute. reflexivity.
Qed.

End RegistryProofs.

(** ** The fuel of [JSON.parse] is enough *)

Module JSONFuel.

Lemma skip_ws_length s : (length (skip_ws s) <= length s)%nat.
Proof.
  induction s as [|c r IH]; [done|]. cbn [skip_ws].
  destruct (is_json_ws c); simpl; lia.
Qed.

Lemma skip_ws_cons s c r : skip_ws s = c :: r -> (length r < length s)%nat.
Proof.
  intros H. pose proof (skip_ws_length s) as Hl. rewrite H in Hl. simpl in Hl. lia.
Qed.

Lemma parse_string_body_length n : forall s str rest,
  (length s <= n)%nat ->
  parse_string_body s = Some (str, rest) -> (length rest < length s)%nat.
Proof.
  induction n as [|n IH]; intros s str rest Hn H.
  - destruct s; [done|simpl in Hn; lia].
  - destruct s as [|c r]; [done|]. cbn [parse_string_body] in H.
    destruct (c =? 34).
    { injection H as <- <-. simpl. lia. }
    destruct (c =? 92).
    { destruct r as [|e r1]; [done|]. destruct (e =? 117).
      - destruct r1 as [|h1 [|h2 [|h3 [|h4 r2]]]]; try done.
        destruct (hex_value h1), (hex_value h2), (hex_value h3), (hex_value h4);
          try done.
        destruct (parse_string_body r2) as [[str' rest']|] eqn:Hr; [|done].
        injection H as <- <-. apply IH in Hr; simpl in *; lia.
      - destruct (simple_escape e); [|done].
        destruct (parse_string_body r1) as [[str' rest']|] eqn:Hr; [|done].
        injection H as <- <-. apply IH in Hr; simpl in *; lia. }
    destruct (c <? 32); [done|].
    destruct (parse_string_body r) as [[str' rest']|] eqn:Hr; [|done].
    injection H as <- <-. apply IH in Hr; simpl in *; lia.
Qed.

Lemma string_body_length s str rest :
  parse_string_body s = Some (str, rest) -> (length rest < length s)%nat.
Proof. by apply (parse_string_body_length (length s)). Qed.

Lemma expect_length w : forall s rest,
  expect w s = Some rest -> (length rest <= length s)%nat.
Proof.
  induction w as [|a w IH]; intros s rest H.
  - destruct s; injection H as <-; done.
  - destruct s as [|c r]; [done|]. cbn [expect] in H.
    destruct (c =? a); [|done]. apply IH in H. simpl. lia.
Qed.

Lemma span_digits_length s : (length (snd (span_digits s)) <= length s)%nat.
Proof.
  induction s as [|c r IH]; [done|]. cbn [span_digits].
  destruct (is_digit c); [|done].
  destruct (span_digits r) as [ds rest]. simpl in *. lia.
Qed.

Lemma span_digits_rest s ds rest :
  span_digits s = (ds, rest) -> (length rest <= length s)%nat.
Proof. intros H. pose proof (span_digits_length s) as Hl. by rewrite H in Hl. Qed.

Lemma parse_int_part_length s ds rest :
  parse_int_part s = Some (ds, rest) -> (length rest < length s)%nat.
Proof.
  destruct s as [|c r]; [done|]. unfold parse_int_part.
  destruct (c =? 48).
  - intros [= <- <-]. simpl. lia.
  - destruct (is_digit c) eqn:Hd; [|done]. intros [= H].
    cbn [span_digits] in H. rewrite Hd in H.
    destruct (span_digits r) as [ds' rest'] eqn:Hs. injection H as <- <-.
    apply span_digits_rest in Hs. simpl. lia.
Qed.

Lemma parse_frac_part_length s ds rest :
  parse_frac_part s = Some (ds, rest) -> (length rest <= length s)%nat.
Proof.
  destruct s as [|c r]; [by intros [= <- <-]|]. unfold parse_frac_part.
  destruct (c =? 46).
  - destruct (span_digits r) as [[|d ds'] rest'] eqn:Hs; [done|].
    intros [= <- <-]. apply span_digits_rest in Hs. simpl. lia.
  - by intros [= <- <-].
Qed.

Lemma parse_exp_digits_length neg s e rest :
  parse_exp_digits neg s = Some (e, rest) -> (length rest <= length s)%nat.
Proof.
  unfold parse_exp_digits. destruct (span_digits s) as [[|d ds] rest'] eqn:Hs; [done|].
  intros [= _ <-]. by apply span_digits_rest in Hs.
Qed.

Lemma parse_exp_part_length s e rest :
  parse_exp_part s = Some (e, rest) -> (length rest <= length s)%nat.
Proof.
  destruct s as [|c r]; [by intros [= <- <-]|]. unfold parse_exp_part.
  destruct ((c =? 101) || (c =? 69)).
  - destruct r as [|g r1]; [done|].
    destruct (g =? 43); [|destruct (g =? 45)]; intros H;
      apply parse_exp_digits_length in H; simpl in *; lia.
  - by intros [= <- <-].
Qed.

Lemma parse_unsigned_length s ds point rest :
  parse_unsigned s = Some (ds, point, rest) -> (length rest < length s)%nat.
Proof.
  unfold parse_unsigned.
  destruct (parse_int_part s) as [[ids s2]|] eqn:H1; [|done].
  destruct (parse_frac_part s2) as [[fds s3]|] eqn:H2; [|done].
  destruct (parse_exp_part s3) as [[e rest']|] eqn:H3; [|done].
  intros [= _ _ <-]. apply parse_int_part_length in H1.
  apply parse_frac_part_length in H2. apply parse_exp_part_length in H3. lia.
Qed.

Lemma parse_number_length s x rest :
  parse_number s = Some (x, rest) -> (length rest < length s)%nat.
Proof.
  unfold parse_number. destruct s as [|c r].
  - intros H. by cbv in H.
  - destruct (c =? 45).
    + destruct (parse_unsigned r) as [[[ds point] rest']|] eqn:H; [|done].
      intros [= _ <-]. apply parse_unsigned_length in H. simpl. lia.
    + destruct (parse_unsigned (c :: r)) as [[[ds point] rest']|] eqn:H; [|done].
      intros [= _ <-]. by apply parse_unsigned_length in H.
Qed.


Lemma parse_consumes fuel : consumes fuel.
Proof.
  induction fuel as [|fuel (IHv & IHe & IHm)]; [by repeat split|].
  split; [|split].
  - intros s v rest H. cbn [parse_value] in H.
    destruct (skip_ws s) as [|c r] eqn:Hs; [done|]. apply skip_ws_cons in Hs.
    destruct (c =? 110).
    { destruct (expect (js "ull") r) eqn:He; [|done]. injection H as _ <-.
      apply expect_length in He. lia. }
    destruct (c =? 116).
    { destruct (expect (js "rue") r) eqn:He; [|done]. injection H as _ <-.
      apply expect_length in He. lia. }
    destruct (c =? 102).
    { destruct (expect (js "alse") r) eqn:He; [|done]. injection H as _ <-.
      apply expect_length in He. lia. }
    destruct (c =? 34).
    { destruct (parse_string_body r) as [[str rest']|] eqn:Hb; [|done].
      injection H as _ <-. apply string_body_length in Hb. lia. }
    destruct (c =? 91).
    { destruct (skip_ws r) as [|c1 rest'] eqn:Hr; [done|]. apply skip_ws_cons in Hr.
      destruct (c1 =? 93); [injection H as _ <-; lia|].
      destruct (parse_elements fuel r) as [[items rest'']|] eqn:He; [|done].
      injection H as _ <-. apply IHe in He. lia. }
    destruct (c =? 123).
    { destruct (skip_ws r) as [|c1 rest'] eqn:Hr; [done|]. apply skip_ws_cons in Hr.
      destruct (c1 =? 125); [injection H as _ <-; lia|].
      destruct (parse_members fuel [] r) as [[fields rest'']|] eqn:He; [|done].
      injection H as _ <-. apply IHm in He. lia. }
    destruct (parse_number (c :: r)) as [[x rest']|] eqn:Hn; [|done].
    injection H as _ <-. apply parse_number_length in Hn. simpl in Hn. lia.
  - intros s vs rest H. cbn [parse_elements] in H.
    destruct (parse_value fuel s) as [[v r1]|] eqn:Hv; [|done]. apply IHv in Hv.
    destruct (skip_ws r1) as [|c r2] eqn:Hs; [done|]. apply skip_ws_cons in Hs.
    destruct (c =? 44).
    + destruct (parse_elements fuel r2) as [[vs' rest']|] eqn:He; [|done].
      injection H as _ <-. apply IHe in He. lia.
    + destruct (c =? 93); [|done]. injection H as _ <-. lia.
  - intros acc s fields rest H. cbn [parse_members] in H.
    destruct (skip_ws s) as [|q r] eqn:Hs; [done|]. apply skip_ws_cons in Hs.
    destruct (q =? 34); [|done].
    destruct (parse_string_body r) as [[k r1]|] eqn:Hk; [|done].
    apply string_body_length in Hk.
    destruct (skip_ws r1) as [|colon r2] eqn:Hc; [done|]. apply skip_ws_cons in Hc.
    destruct (colon =? 58); [|done].
    destruct (parse_value fuel r2) as [[v r3]|] eqn:Hv; [|done]. apply IHv in Hv.
    destruct (skip_ws r3) as [|c r4] eqn:H4; [done|]. apply skip_ws_cons in H4.
    destruct (c =? 44).
    + apply IHm in H. lia.
    + destruct (c =? 125); [|done]. injection H as _ <-. lia.
Qed.


Lemma parse_enough fuel : enough fuel.
Proof.
  induction fuel as [|fuel (IHv & IHe & IHm)].
  - repeat split; intros; lia.
  - split; [|split].
    + intros s [|fuel'] Hf Hf'; [lia|]. cbn [parse_value].
      destruct (skip_ws s) as [|c r] eqn:Hs; [done|]. apply skip_ws_cons in Hs.
      rewrite (IHe r fuel') by lia. rewrite (IHm [] r fuel') by lia. done.
    + intros s [|fuel'] Hf Hf'; [lia|]. cbn [parse_elements].
      rewrite (IHv s fuel') by lia.
      destruct (parse_value fuel' s) as [[v r1]|] eqn:Hv; [|done].
      apply (proj1 (parse_consumes fuel')) in Hv.
      destruct (skip_ws r1) as [|c r2] eqn:Hs; [done|]. apply skip_ws_cons in Hs.
      rewrite (IHe r2 fuel') by lia. done.
    + intros acc s [|fuel'] Hf Hf'; [lia|]. cbn [parse_members].
      destruct (skip_ws s) as [|q r] eqn:Hs; [done|]. apply skip_ws_cons in Hs.
      destruct (q =? 34); [|done].
      destruct (parse_string_body r) as [[k r1]|] eqn:Hk; [|done].
      apply string_body_length in Hk.
      destruct (skip_ws r1) as [|colon r2] eqn:Hc; [done|]. apply skip_ws_cons in Hc.
      destruct (colon =? 58); [|done].
      rewrite (IHv r2 fuel') by lia.
      destruct (parse_value fuel' r2) as [[v r3]|] eqn:Hv; [|done].
      apply (proj1 (parse_consumes fuel')) in Hv.
      destruct (skip_ws r3) as [|c r4] eqn:H4; [done|]. apply skip_ws_cons in H4.
      rewrite (IHm _ r4 fuel') by lia. done.
Qed.

(** [JSON.parse] rejects a text only if no amount of fuel makes the
    parser accept it. *)
Lemma parse_fuel text fuel :
  (2 * length text + 1 <= fuel)%nat ->
  parse_value fuel text = parse_value (S (2 * length text)) text.
Proof. intros H. apply (proj1 (parse_enough fuel)); lia. Qed.
End JSONFuel.

(** ** [JSON.parse] reads back what [JSON.stringify] writes *)

Module JSONProofs.

(** *** Decimal digits *)

Lemma digit_unit_digit d :
  d < 10 -> is_digit (digit_unit d) = true /\ digit_unit d - 48 = d.
Proof.
  intros H. unfold is_digit, digit_unit. split; [|lia].
  apply andb_true_intro. split; apply N.leb_le; lia.
Qed.


Lemma span_digits_units ds rest :
  Forall (fun d => d < 10) ds -> starts_with_digit rest = false ->
  span_digits (digit_units ds ++ rest) = (ds, rest).
Proof.
  intros Hds Hrest. induction Hds as [|d ds Hd _ IH].
  - destruct rest as [|c r]; [done|]. change (is_digit c = false) in Hrest.
    cbn [digit_units map app span_digits]. by rewrite Hrest.
  - cbn [digit_units map app span_digits].
    destruct (digit_unit_digit d Hd) as [-> ->]. unfold digit_units in IH.
    by rewrite IH.
Qed.

Lemma N_digits_aux_app fuel : forall n acc,
  N_digits_aux fuel n acc = N_digits_aux fuel n [] ++ acc.
Proof.
  induction fuel as [|fuel IH]; intros n acc; simpl; [done|].
  destruct (n <? 10); [done|].
  rewrite (IH _ (n mod 10 :: acc)), (IH _ [n mod 10]). by rewrite <- app_assoc.
Qed.

Lemma digits_value_snoc ds d : digits_value (ds ++ [d]) = 10 * digits_value ds + d.
Proof. unfold digits_value. by rewrite fold_left_app. Qed.

Lemma N_digits_aux_spec fuel : forall n,
  n < 10 ^ N.of_nat (S fuel) ->
  Forall (fun d => d < 10) (N_digits_aux fuel n [])
  /\ digits_value (N_digits_aux fuel n []) = n
  /\ N_digits_aux fuel n [] <> [].
Proof.
  induction fuel as [|fuel IH]; intros n Hn.
  - simpl in *. change (10 ^ 1) with 10 in Hn. split; [|split]; [|done|done].
    by repeat constructor.
  - simpl N_digits_aux. destruct (n <? 10) eqn:E.
    + apply N.ltb_lt in E. split; [|split]; [|done|done]. by repeat constructor.
    + apply N.ltb_ge in E. rewrite N_digits_aux_app.
      assert (Hdiv : n / 10 < 10 ^ N.of_nat (S fuel)).
      { apply N.Div0.div_lt_upper_bound.
        replace (N.of_nat (S (S fuel))) with (N.succ (N.of_nat (S fuel))) in Hn by lia.
        by rewrite N.pow_succ_r' in Hn. }
      destruct (IH _ Hdiv) as (H1 & H2 & H3). split; [|split].
      * apply Forall_app. split; [done|]. repeat constructor.
        apply N.mod_lt. lia.
      * rewrite digits_value_snoc, H2. symmetry. apply N.div_mod. lia.
      * by destruct (N_digits_aux fuel (n / 10) []).
Qed.

Lemma N_digits_spec n :
  Forall (fun d => d < 10) (N_digits n)
  /\ digits_value (N_digits n) = n
  /\ N_digits n <> [].
Proof.
  apply N_digits_aux_spec. rewrite Nat2N.inj_succ, N2Nat.id.
  destruct (N.eq_dec n 0) as [->|Hne]; [done|].
  destruct (N.log2_spec n) as [_ Hlt]; [lia|].
  eapply N.lt_le_trans; [exact Hlt|].
  apply N.pow_le_mono_l. lia.
Qed.

(** *** Shortest form *)

Lemma strip_zeros_repeat m ds : strip_zeros (repeat 0 m ++ ds) = strip_zeros ds.
Proof. induction m as [|m IH]; [done|]. simpl. exact IH. Qed.

Lemma strip_zeros_head d ds : d <> 0 -> strip_zeros (d :: ds) = d :: ds.
Proof. intros H. simpl. by destruct (N.eqb_spec d 0). Qed.

Lemma rev_repeat {A} (x : A) m : rev (repeat x m) = repeat x m.
Proof.
  induction m as [|m IH]; [done|]. simpl. rewrite IH.
  clear IH. induction m as [|m IH]; [done|]. simpl. by rewrite IH.
Qed.

Lemma normalize_padded neg ds a b point l rds d ds' :
  ds = d :: ds' -> d <> 0 -> rev ds = l :: rds -> l <> 0 ->
  normalize neg (repeat 0 a ++ ds ++ repeat 0 b) point
  = {| num_neg := neg; num_digits := ds; num_exp := (point - Z.of_nat a)%Z |}.
Proof.
  intros Hds Hd Hrev Hl. unfold normalize.
  rewrite strip_zeros_repeat.
  assert (H1 : strip_zeros (ds ++ repeat 0 b) = ds ++ repeat 0 b).
  { rewrite Hds. simpl app. by apply strip_zeros_head. }
  rewrite H1.
  rewrite rev_app_distr, rev_repeat, strip_zeros_repeat, Hrev.
  rewrite strip_zeros_head by done. rewrite <- Hrev, rev_involutive.
  replace (length (repeat 0%N a ++ ds ++ repeat 0%N b)
           - length (ds ++ repeat 0%N b))%nat
    with a by (rewrite !length_app, !repeat_length; lia).
  rewrite Hds. done.
Qed.

Lemma wf_num_nonzero x d ds :
  wf_num x = true -> num_digits x = d :: ds ->
  Forall (fun d => d < 10) (d :: ds) /\ d <> 0
  /\ exists l rds, rev (d :: ds) = l :: rds /\ l <> 0.
Proof.
  unfold wf_num. intros H Hd. rewrite Hd in H.
  apply andb_prop in H as [H1 H2]. apply andb_prop in H2 as [H2 H3].
  split; [|split].
  - apply Forall_forall. intros y Hy. rewrite forallb_forall in H1.
    apply N.ltb_lt, H1. by apply list_elem_of_In.
  - apply negb_true_iff, N.eqb_neq in H2. done.
  - destruct (rev (d :: ds)) as [|l rds]; [done|]. exists l, rds. split; [done|].
    by apply negb_true_iff, N.eqb_neq in H3.
Qed.

(** *** Numbers *)


Lemma number_end_digit rest : number_end rest = true -> starts_with_digit rest = false.
Proof.
  destruct rest as [|c r]; [done|]. unfold number_end, starts_with_digit.
  destruct (is_digit c); [done|done].
Qed.

Lemma delimited_number_end rest : delimited rest = true -> number_end rest = true.
Proof.
  destruct rest as [|c r]; [done|]. unfold delimited, number_end, is_digit.
  intros H. apply orb_prop in H as [H|H]; [apply orb_prop in H as [H|H]|];
    apply N.eqb_eq in H; by subst.
Qed.

Lemma parse_frac_none rest :
  number_end rest = true -> parse_frac_part rest = Some ([], rest).
Proof.
  destruct rest as [|c r]; [done|]. unfold number_end, parse_frac_part.
  destruct (c =? 46); [|done]. rewrite andb_false_r. by destruct (is_digit c).
Qed.

Lemma parse_exp_none rest :
  number_end rest = true -> parse_exp_part rest = Some (0%Z, rest).
Proof.
  destruct rest as [|c r]; [done|]. unfold number_end, parse_exp_part.
  destruct (c =? 101); [by rewrite !andb_false_r|].
  destruct (c =? 69); [by rewrite !andb_false_r|]. done.
Qed.

Lemma zeros_units m : zeros m = digit_units (repeat 0 m).
Proof. unfold zeros, digit_units. induction m as [|m IH]; [done|]. simpl. by rewrite <- IH. Qed.

Lemma digit_units_app a b : digit_units (a ++ b) = digit_units a ++ digit_units b.
Proof. apply map_app. Qed.

Lemma Forall_repeat_zero m : Forall (fun d => d < 10) (repeat 0 m).
Proof. induction m; simpl; constructor; [lia|done]. Qed.

Lemma parse_int_digits d ds tail :
  d <> 0 -> Forall (fun d => d < 10) (d :: ds) -> starts_with_digit tail = false ->
  parse_int_part (digit_units (d :: ds) ++ tail) = Some (d :: ds, tail).
Proof.
  intros Hd Hds Htail. pose proof (span_digits_units _ _ Hds Htail) as Hspan.
  unfold parse_int_part. cbn [digit_units map app] in *.
  inversion Hds as [|? ? Hd10 _]; subst.
  destruct (digit_unit_digit d Hd10) as [Hdig _]. rewrite Hdig.
  replace (digit_unit d =? 48) with false; [by rewrite Hspan|].
  symmetry. apply N.eqb_neq. unfold digit_unit. lia.
Qed.

Lemma parse_frac_digits ds tail :
  ds <> [] -> Forall (fun d => d < 10) ds -> starts_with_digit tail = false ->
  parse_frac_part (46 :: digit_units ds ++ tail) = Some (ds, tail).
Proof.
  intros Hne Hds Htail. unfold parse_frac_part. cbn [N.eqb Pos.eqb].
  rewrite (span_digits_units _ _ Hds Htail). by destruct ds.
Qed.

Lemma parse_exp_text e rest :
  starts_with_digit rest = false ->
  parse_exp_part (101 :: exponent_part e ++ rest) = Some (e, rest).
Proof.
  intros Hrest. destruct (N_digits_spec (Z.abs_N e)) as (Hds & Hval & Hne).
  unfold parse_exp_part, exponent_part. cbn [N.eqb Pos.eqb orb].
  destruct (Z.leb_spec 0 e) as [Hpos|Hneg]; cbn [app N.eqb Pos.eqb];
    unfold parse_exp_digits; rewrite (span_digits_units _ _ Hds Hrest), Hval;
    destruct (N_digits (Z.abs_N e)); try done; do 2 f_equal; lia.
Qed.

Lemma parse_frac_skip c tail :
  c <> 46 -> parse_frac_part (c :: tail) = Some ([], c :: tail).
Proof. intros H. unfold parse_frac_part. by destruct (N.eqb_spec c 46). Qed.

(** The text of a number without its sign is read back as its digits. *)
Lemma parse_unsigned_text x d ds rest :
  wf_num x = true -> num_digits x = d :: ds -> number_end rest = true ->
  exists body c t,
    Number_toString x = (if num_neg x then [45] else []) ++ body /\
    body = c :: t /\ is_digit c = true /\
    exists digs point,
      parse_unsigned (body ++ rest) = Some (digs, point, rest) /\
      normalize (num_neg x) digs point
      = {| num_neg := num_neg x; num_digits := d :: ds; num_exp := num_exp x |}.
Proof.
  intros Hwf Hdig Hend.
  destruct (wf_num_nonzero x d ds Hwf Hdig) as (Hten & Hd & l & rds & Hrev & Hl).
  pose proof (number_end_digit _ Hend) as Hnd.
  inversion Hten as [|? ? Hd10 Hds10]; subst.
  destruct (digit_unit_digit d Hd10) as [Hisd _].
  unfold Number_toString. rewrite Hdig.
  set (k := Z.of_nat (length (d :: ds))). set (n := num_exp x).
  assert (Hk : (0 < k)%Z) by (subst k; simpl; lia).
  destruct ((k <=? n)%Z && (n <=? 21)%Z) eqn:EA.
  { (* digits followed by zeros *)
    apply andb_prop in EA as [E1 E2]. apply Z.leb_le in E1.
    eexists _, _, _. split; [done|]. split; [done|]. split; [exact Hisd|].
    exists ((d :: ds ++ repeat 0 (Z.to_nat (n - k))) ++ []),
      (Z.of_nat (length (d :: ds ++ repeat 0%N (Z.to_nat (n - k)))) + 0)%Z.
    split.
    - unfold parse_unsigned. rewrite zeros_units, <- app_assoc, app_assoc.
      rewrite <- digit_units_app.
      change ((d :: ds) ++ repeat 0 (Z.to_nat (n - k)))
        with (d :: (ds ++ repeat 0 (Z.to_nat (n - k)))).
      rewrite parse_int_digits; [|done| |done].
      + by rewrite (parse_frac_none _ Hend), (parse_exp_none _ Hend).
      + constructor; [done|]. apply Forall_app. split; [done|apply Forall_repeat_zero].
    - rewrite app_nil_r.
      change (d :: ds ++ repeat 0 (Z.to_nat (n - k)))
        with (repeat 0 0 ++ (d :: ds) ++ repeat 0 (Z.to_nat (n - k))).
      rewrite (normalize_padded (num_neg x) (d :: ds) 0 _ _ l rds d ds eq_refl Hd Hrev Hl).
      f_equal. cbn [repeat app length]. rewrite length_app, repeat_length.
      subst k. cbn [length] in *. lia. }
  destruct ((0 <? n)%Z && (n <=? 21)%Z) eqn:EB.
  { (* decimal point inside the digits *)
    apply andb_prop in EB as [E1 E2]. apply Z.ltb_lt in E1.
    assert (Hnk : (n < k)%Z).
    { apply andb_false_iff in EA as [EA|EA]; [by apply Z.leb_gt in EA|congruence]. }
    set (m := Z.to_nat n).
    assert (Hm : (0 < m < length (d :: ds))%nat) by (subst m k; lia).
    destruct m as [|m'] eqn:Em; [lia|].
    eexists _, _, _. split; [done|]. split; [done|]. split; [exact Hisd|].
    exists (take (S m') (d :: ds) ++ drop (S m') (d :: ds)),
      (Z.of_nat (length (take (S m') (d :: ds))) + 0)%Z.
    split.
    - unfold parse_unsigned. rewrite <- app_assoc.
      cbn [take]. rewrite parse_int_digits; [|done| |done].
      + cbn [app]. rewrite parse_frac_digits; [|  | |done].
        * by rewrite (parse_exp_none _ Hend).
        * cbn [drop]. intros Hnil. apply (f_equal length) in Hnil.
          rewrite length_drop in Hnil. simpl in Hnil, Hm. lia.
        * cbn [drop]. by apply Forall_drop.
      + constructor; [done|]. by apply Forall_take.
    - rewrite take_drop.
      pose proof (normalize_padded (num_neg x) (d :: ds) 0 0
                    (Z.of_nat (length (take (S m') (d :: ds))) + 0)%Z
                    l rds d ds eq_refl Hd Hrev Hl) as Hn.
      cbn [repeat app] in Hn. rewrite app_nil_r in Hn. rewrite Hn. f_equal.
      rewrite length_take. fold n. lia. }
  destruct ((-6 <? n)%Z && (n <=? 0)%Z) eqn:EC.
  { (* zeros between the point and the digits *)
    apply andb_prop in EC as [E1 E2]. apply Z.leb_le in E2.
    set (m := Z.to_nat (- n)).
    eexists _, _, _. split; [done|]. split; [done|]. split; [done|].
    exists ([0] ++ (repeat 0 m ++ d :: ds)), (Z.of_nat (length [0]) + 0)%Z. split.
    - unfold parse_unsigned. rewrite zeros_units, <- !app_assoc.
      cbn [app]. change (parse_int_part (48 :: ?t)) with (Some ([0], t)).
      cbv iota beta. rewrite app_assoc, <- digit_units_app.
      rewrite parse_frac_digits; [|by destruct m| |done].
      + by rewrite (parse_exp_none _ Hend).
      + apply Forall_app. split; [apply Forall_repeat_zero|done].
    - pose proof (normalize_padded (num_neg x) (d :: ds) (S m) 0
                    (Z.of_nat (length [0]) + 0)%Z l rds d ds eq_refl Hd Hrev Hl) as Hn.
      cbn [repeat app] in Hn. rewrite app_nil_r in Hn.
      change ([0] ++ repeat 0 m ++ d :: ds) with (0 :: repeat 0 m ++ d :: ds).
      rewrite Hn. f_equal. fold n. subst m. simpl length. lia. }
  (* exponent form *)
  destruct ds as [|d2 ds].
  - eexists _, _, _. split; [done|]. split; [done|]. split; [exact Hisd|].
    exists ([d] ++ []), (Z.of_nat (length [d]) + (n - 1))%Z. split.
    + unfold parse_unsigned. rewrite <- !app_assoc.
      change [digit_unit d] with (digit_units [d]).
      rewrite parse_int_digits; [|done|done|done].
      cbn [app]. rewrite parse_frac_skip by done.
      by rewrite parse_exp_text.
    + pose proof (normalize_padded (num_neg x) [d] 0 0
                    (Z.of_nat (length [d]) + (n - 1))%Z l rds d [] eq_refl Hd Hrev Hl)
        as Hn.
      cbn [repeat app] in Hn. cbn [app]. rewrite Hn. f_equal. simpl length. lia.
  - eexists _, _, _. split; [done|]. split; [done|]. split; [exact Hisd|].
    exists ([d] ++ (d2 :: ds)), (Z.of_nat (length [d]) + (n - 1))%Z. split.
    + unfold parse_unsigned. rewrite <- !app_assoc.
      change [digit_unit d] with (digit_units [d]).
      rewrite parse_int_digits; [|done|by repeat constructor|done].
      cbn [app]. rewrite parse_frac_digits; [|done|done|done].
      by rewrite parse_exp_text.
    + pose proof (normalize_padded (num_neg x) (d :: d2 :: ds) 0 0
                    (Z.of_nat (length [d]) + (n - 1))%Z l rds d (d2 :: ds)
                    eq_refl Hd Hrev Hl) as Hn.
      cbn [repeat app] in Hn. rewrite app_nil_r in Hn. cbn [app].
      rewrite Hn. f_equal. simpl length. lia.
Qed.

Lemma parse_number_text x rest :
  wf_num x = true -> number_end rest = true ->
  parse_number (Number_toString x ++ rest) = Some (x, rest)
  /\ exists c t, Number_toString x = c :: t /\ (c = 45 \/ is_digit c = true).
Proof.
  intros Hwf Hend. destruct x as [neg digits e].
  destruct digits as [|d ds].
  - unfold wf_num in Hwf. cbn [num_digits num_neg num_exp forallb andb] in Hwf.
    apply andb_prop in Hwf as [Hn He]. apply negb_true_iff in Hn.
    apply Z.eqb_eq in He. subst. split; [|by eexists _, _; split; [|right]].
    unfold Number_toString, parse_number, parse_unsigned. cbn [num_digits app].
    cbn [N.eqb Pos.eqb]. change (parse_int_part (48 :: rest)) with (Some ([0], rest)).
    cbv iota beta. by rewrite (parse_frac_none _ Hend), (parse_exp_none _ Hend).
  - destruct (parse_unsigned_text _ d ds rest Hwf eq_refl Hend)
      as (body & c & t & Htext & Hbody & Hc & digs & point & Hparse & Hnorm).
    cbn [num_neg num_digits num_exp] in *. rewrite Htext. split.
    + unfold parse_number. destruct neg.
      * cbn [app N.eqb Pos.eqb]. by rewrite Hparse, Hnorm.
      * cbn [app]. rewrite Hbody in *. cbn [app] in *.
        replace (c =? 45) with false; [by rewrite Hparse, Hnorm|].
        symmetry. apply N.eqb_neq. intros ->. done.
    + destruct neg; cbn [app].
      * eexists _, _. split; [done|by left].
      * rewrite Hbody. eexists _, _. split; [done|by right].
Qed.

(** *** Strings *)

Lemma hex_value_digit x : x < 16 -> hex_value (hex_digit x) = Some x.
Proof.
  intros H.
  assert (Hc : x = 0 \/ x = 1 \/ x = 2 \/ x = 3 \/ x = 4 \/ x = 5 \/ x = 6 \/ x = 7
               \/ x = 8 \/ x = 9 \/ x = 10 \/ x = 11 \/ x = 12 \/ x = 13 \/ x = 14
               \/ x = 15) by lia.
  repeat (destruct Hc as [->|Hc]; [reflexivity|]). by subst.
Qed.

Lemma hex_recompose c :
  c < 65536 ->
  c / 4096 * 4096 + (c / 256) mod 16 * 256 + (c / 16) mod 16 * 16 + c mod 16 = c.
Proof.
  intros H.
  pose proof (N.div_mod c 16 ltac:(lia)) as H1.
  pose proof (N.div_mod (c / 16) 16 ltac:(lia)) as H2.
  pose proof (N.div_mod (c / 256) 16 ltac:(lia)) as H3.
  rewrite N.Div0.div_div in H2. change (16 * 16) with 256 in H2.
  replace (c / 256 / 16) with (c / 4096) in H3
    by (rewrite N.Div0.div_div; reflexivity).
  lia.
Qed.

Lemma parse_unicode_escape c tail :
  c < 65536 ->
  parse_string_body (unicode_escape c ++ tail)
  = match parse_string_body tail with
    | Some (str, rest) => Some (c :: str, rest)
    | None => None
    end.
Proof.
  intros H. unfold unicode_escape. cbn [app parse_string_body N.eqb Pos.eqb].
  rewrite !hex_value_digit.
  - rewrite (hex_recompose c H). done.
  - apply N.mod_lt. lia.
  - apply N.mod_lt. lia.
  - apply N.mod_lt. lia.
  - apply N.Div0.div_lt_upper_bound. lia.
Qed.

Lemma parse_literal c tail :
  32 <= c -> c <> 34 -> c <> 92 ->
  parse_string_body (c :: tail)
  = match parse_string_body tail with
    | Some (str, rest) => Some (c :: str, rest)
    | None => None
    end.
Proof.
  intros H1 H2 H3. cbn [parse_string_body].
  destruct (N.eqb_spec c 34); [done|]. destruct (N.eqb_spec c 92); [done|].
  destruct (N.ltb_spec c 32); [lia|]. done.
Qed.

Lemma parse_escape_unit c tail :
  c < 65536 ->
  parse_string_body (escape_unit c ++ tail)
  = match parse_string_body tail with
    | Some (str, rest) => Some (c :: str, rest)
    | None => None
    end.
Proof.
  intros H. unfold escape_unit.
  destruct (N.eqb_spec c 8) as [->|]; [done|].
  destruct (N.eqb_spec c 9) as [->|]; [done|].
  destruct (N.eqb_spec c 10) as [->|]; [done|].
  destruct (N.eqb_spec c 12) as [->|]; [done|].
  destruct (N.eqb_spec c 13) as [->|]; [done|].
  destruct (N.eqb_spec c 34) as [->|]; [done|].
  destruct (N.eqb_spec c 92) as [->|]; [done|].
  destruct (N.ltb_spec c 32).
  - by apply parse_unicode_escape.
  - by apply parse_literal.
Qed.

Lemma wf_string_cons c s :
  wf_string (c :: s) = true -> c < 65536 /\ wf_string s = true.
Proof.
  unfold wf_string. cbn [forallb]. intros H. apply andb_prop in H as [H1 H2].
  by apply N.ltb_lt in H1.
Qed.

Lemma surrogate_literal c :
  is_high_surrogate c = true \/ is_low_surrogate c = true ->
  32 <= c /\ c <> 34 /\ c <> 92.
Proof.
  unfold is_high_surrogate, is_low_surrogate.
  intros [H|H]; apply andb_prop in H as [H _]; apply N.leb_le in H; lia.
Qed.

Lemma parse_quote_body_bounded n : forall s rest,
  (length s <= n)%nat -> wf_string s = true ->
  parse_string_body (quote_body s ++ 34 :: rest) = Some (s, rest).
Proof.
  induction n as [|n IH]; intros s rest Hlen Hwf.
  - destruct s; [done|simpl in Hlen; lia].
  - destruct s as [|c r]; [done|].
    destruct (wf_string_cons _ _ Hwf) as [Hc Hr].
    assert (IHr : parse_string_body (quote_body r ++ 34 :: rest) = Some (r, rest))
      by (apply IH; [simpl in Hlen; lia|done]).
    cbn [quote_body]. destruct (is_high_surrogate c) eqn:Hh.
    + destruct r as [|d r'].
      * rewrite parse_unicode_escape by done. done.
      * destruct (is_low_surrogate d) eqn:Hl.
        -- destruct (wf_string_cons _ _ Hr) as [Hd Hr'].
           destruct (surrogate_literal c (or_introl Hh)) as (? & ? & ?).
           destruct (surrogate_literal d (or_intror Hl)) as (? & ? & ?).
           cbn [app]. rewrite parse_literal by done. rewrite parse_literal by done.
           rewrite IH; [done|simpl in Hlen; lia|done].
        -- rewrite <- app_assoc, parse_unicode_escape by done. by rewrite IHr.
    + destruct (is_low_surrogate c).
      * rewrite <- app_assoc, parse_unicode_escape by done. by rewrite IHr.
      * rewrite <- app_assoc, parse_escape_unit by done. by rewrite IHr.
Qed.

Lemma parse_quote_body s rest :
  wf_string s = true ->
  parse_string_body (quote_body s ++ 34 :: rest) = Some (s, rest).
Proof. by apply (parse_quote_body_bounded (length s)). Qed.

(** *** Values *)

Lemma json_induction (P : json -> Prop) :
  P JNull -> (forall b, P (JBool b)) -> (forall x, P (JNum x)) ->
  (forall s, P (JStr s)) ->
  (forall items, Forall P items -> P (JArr items)) ->
  (forall fields, Forall (fun kv => P (snd kv)) fields -> P (JObj fields)) ->
  forall v, P v.
Proof.
  intros Hnull Hbool Hnum Hstr Harr Hobj.
  fix IH 1. intros v. destruct v as [|b|x|str|items|fields].
  - exact Hnull.
  - apply Hbool.
  - apply Hnum.
  - apply Hstr.
  - apply Harr. induction items as [|v items IHitems]; constructor; [apply IH|exact IHitems].
  - apply Hobj. induction fields as [|[k v] fields IHfields]; constructor;
      [apply IH|exact IHfields].
Qed.

Lemma join_cons sep (p q : jsstring) ps :
  join sep (p :: q :: ps) = p ++ sep ++ join sep (q :: ps).
Proof. done. Qed.

Lemma digit_not_special c :
  is_digit c = true ->
  is_json_ws c = false /\ (c =? 110) = false /\ (c =? 116) = false
  /\ (c =? 102) = false /\ (c =? 34) = false /\ (c =? 91) = false
  /\ (c =? 123) = false /\ (c =? 93) = false.
Proof.
  unfold is_digit, is_json_ws. intros H. apply andb_prop in H as [H1 H2].
  apply N.leb_le in H1, H2.
  repeat split; rewrite ?orb_false_iff; repeat split; apply N.eqb_neq; lia.
Qed.

Lemma parse_value_number c r fuel :
  c = 45 \/ is_digit c = true ->
  parse_value (S fuel) (c :: r)
  = match parse_number (c :: r) with
    | Some (x, rest) => Some (JNum x, rest)
    | None => None
    end.
Proof.
  intros [->|H]; [done|].
  destruct (digit_not_special c H) as (H0 & H1 & H2 & H3 & H4 & H5 & H6 & _).
  cbn [parse_value skip_ws]. by rewrite H0, H1, H2, H3, H4, H5, H6.
Qed.

(** The first character of the text of a value is not white space and
    does not close an array. *)
Lemma stringify_start v :
  well_formed v = true ->
  exists c t, stringify v = c :: t /\ is_json_ws c = false /\ (c =? 93) = false.
Proof.
  intros Hwf. destruct v as [|[|]|x|s|items|fields];
    try (by eexists _, _).
  destruct (parse_number_text x [] Hwf eq_refl) as (_ & c & t & Ht & Hc).
  exists c, t. split; [done|]. destruct Hc as [->|Hc]; [done|].
  by destruct (digit_not_special c Hc) as (H0 & _ & _ & _ & _ & _ & _ & H7).
Qed.

Lemma skip_ws_start c t : is_json_ws c = false -> skip_ws (c :: t) = c :: t.
Proof. intros H. cbn [skip_ws]. by rewrite H. Qed.

Lemma skip_ws_delimiter c t :
  c = 44 \/ c = 93 \/ c = 125 \/ c = 58 -> skip_ws (c :: t) = c :: t.
Proof. by intros [-> | [-> | [-> | ->]]]. Qed.


Lemma parse_elements_text items :
  Forall reads_back items -> forallb well_formed items = true -> items <> [] ->
  forall rest fuel,
    (2 * length (join [44%N] (map stringify items)) + 2 <= fuel)%nat ->
    parse_elements fuel (join [44] (map stringify items) ++ 93 :: rest)
    = Some (items, rest).
Proof.
  induction 1 as [|v vs Hv Hvs IH]; [done|]. intros Hwf _ rest fuel Hfuel.
  cbn [forallb] in Hwf. apply andb_prop in Hwf as [Hwv Hwvs].
  destruct fuel as [|fuel]; [lia|]. cbn [parse_elements].
  destruct vs as [|v' vs'].
  - cbn [map join] in *. rewrite (Hv Hwv (93 :: rest) fuel eq_refl) by lia. done.
  - cbn [map] in *. rewrite join_cons in *. rewrite <- !app_assoc.
    rewrite !length_app in Hfuel. cbn [length] in Hfuel.
    rewrite (Hv Hwv) by (done || lia). cbn [app skip_ws is_json_ws N.eqb Pos.eqb orb].
    rewrite IH; [done|done|done|lia].
Qed.

Lemma existsb_eqb_false k keys :
  existsb (JS.eqb k) keys = false <-> k ∉ keys.
Proof.
  induction keys as [|k' keys IH]; cbn [existsb].
  - split; [intros _; apply not_elem_of_nil|done].
  - rewrite orb_false_iff, IH, not_elem_of_cons. unfold JS.eqb.
    rewrite bool_decide_eq_false. done.
Qed.

Lemma distinct_NoDup keys : distinct keys = true <-> NoDup keys.
Proof.
  induction keys as [|k keys IH]; cbn [distinct].
  - split; [intros _; constructor|done].
  - rewrite andb_true_iff, negb_true_iff, existsb_eqb_false, IH, NoDup_cons. done.
Qed.

Lemma obj_set_fresh k v acc :
  k ∉ map fst acc -> obj_set k v acc = acc ++ [(k, v)].
Proof.
  induction acc as [|[k' v'] acc IH]; [done|]. cbn [map fst obj_set].
  intros Hn. apply not_elem_of_cons in Hn as [Hne Hn].
  unfold JS.eqb. rewrite bool_decide_eq_false_2 by done. cbn [app].
  by rewrite IH.
Qed.

Lemma fold_obj_set fields : forall acc,
  NoDup (map fst acc ++ map fst fields) ->
  fold_left (fun a kv => obj_set (fst kv) (snd kv) a) fields acc = acc ++ fields.
Proof.
  induction fields as [|[k v] fields IH]; intros acc Hnd.
  - by rewrite app_nil_r.
  - cbn [fold_left fst snd map] in *.
    rewrite obj_set_fresh.
    + rewrite IH; [by rewrite <- app_assoc|].
      rewrite map_app. cbn [map fst]. by rewrite <- app_assoc.
    + apply NoDup_app in Hnd as (_ & Hd & _). intros Hin.
      apply (Hd k Hin). by left.
Qed.


Lemma parse_members_text fields :
  Forall (fun kv => reads_back (snd kv)) fields ->
  forallb (fun kv => wf_string (fst kv) && well_formed (snd kv)) fields = true ->
  fields <> [] ->
  forall acc rest fuel,
    (2 * length (join [44%N] (map member_text fields)) + 2 <= fuel)%nat ->
    parse_members fuel acc (join [44] (map member_text fields) ++ 125 :: rest)
    = Some (fold_left (fun a kv => obj_set (fst kv) (snd kv) a) fields acc, rest).
Proof.
  induction 1 as [|[k v] fs Hv Hfs IH]; [done|]. intros Hwf _ acc rest fuel Hfuel.
  cbn [forallb fst snd] in Hwf. apply andb_prop in Hwf as [Hwkv Hwfs].
  apply andb_prop in Hwkv as [Hwk Hwv]. cbn [snd] in Hv.
  destruct fuel as [|fuel]; [lia|]. cbn [parse_members].
  destruct fs as [|kv' fs'].
  - cbn [map join fold_left fst snd] in *. unfold member_text, QuoteJSONString in *.
    cbn [fst snd] in *. rewrite <- !app_assoc. cbn [app skip_ws is_json_ws N.eqb Pos.eqb orb].
    rewrite <- !app_assoc. cbn [app]. rewrite (parse_quote_body k _ Hwk).
    cbn [skip_ws is_json_ws N.eqb Pos.eqb orb].
    rewrite !length_app in Hfuel. cbn [length] in Hfuel. rewrite !length_app in Hfuel.
    rewrite (Hv Hwv (125 :: rest) fuel eq_refl) by lia. done.
  - cbn [map fold_left fst snd] in *. rewrite join_cons in *.
    unfold member_text at 1, QuoteJSONString. unfold member_text at 1 in Hfuel.
    unfold QuoteJSONString in Hfuel.
    cbn [fst snd] in *. rewrite <- !app_assoc. cbn [app skip_ws is_json_ws N.eqb Pos.eqb orb].
    rewrite <- !app_assoc. cbn [app]. rewrite (parse_quote_body k _ Hwk).
    cbn [skip_ws is_json_ws N.eqb Pos.eqb orb].
    rewrite !length_app in Hfuel. cbn [length] in Hfuel. rewrite !length_app in Hfuel.
    cbn [length] in Hfuel.
    rewrite (Hv Hwv) by (done || lia). cbn [skip_ws is_json_ws N.eqb Pos.eqb orb].
    rewrite IH; [done|done|done|lia].
Qed.

Lemma stringify_obj fields :
  stringify (JObj fields) = [123] ++ join [44] (map member_text fields) ++ [125].
Proof. done. Qed.

Lemma stringify_arr items :
  stringify (JArr items) = [91] ++ join [44] (map stringify items) ++ [93].
Proof. done. Qed.

Lemma member_text_start kv : exists t, member_text kv = 34 :: t.
Proof. by eexists. Qed.

Lemma join_start (c : N) t (p : jsstring) ps :
  p = c :: t -> exists t', join [44] (p :: ps) = c :: t'.
Proof. intros ->. destruct ps; by eexists. Qed.

Lemma reads_back_all v : reads_back v.
Proof.
  induction v as [|b|x|s|items IH|fields IH] using json_induction;
    intros Hwf rest fuel Hrest Hfuel; (destruct fuel as [|fuel]; [lia|]).
  - done.
  - by destruct b.
  - destruct (parse_number_text x rest Hwf (delimited_number_end _ Hrest))
      as (Hparse & c & t & Ht & Hc).
    cbn [stringify]. rewrite Ht in *. cbn [app] in *.
    rewrite parse_value_number by done. by rewrite Hparse.
  - cbn [stringify]. unfold QuoteJSONString. cbn [app parse_value skip_ws is_json_ws
      N.eqb Pos.eqb orb]. rewrite <- app_assoc. cbn [app].
    by rewrite (parse_quote_body s rest Hwf).
  - rewrite stringify_arr in *. cbn [well_formed] in Hwf.
    destruct items as [|v vs]; [done|].
    rewrite !length_app in Hfuel. cbn [length] in Hfuel.
    assert (Hwv : well_formed v = true)
      by (cbn [forallb] in Hwf; by apply andb_prop in Hwf as [? _]).
    destruct (stringify_start v Hwv) as (c & t & Hs & Hws & Hc).
    destruct (join_start c t (stringify v) (map stringify vs) Hs) as [t' Hj].
    change (stringify v :: map stringify vs) with (map stringify (v :: vs)) in Hj.
    set (J := join [44] (map stringify (v :: vs))) in *.
    assert (Htext : ([91] ++ J ++ [93]) ++ rest = 91 :: (J ++ 93 :: rest))
      by by rewrite <- !app_assoc.
    assert (Hsk : skip_ws (J ++ 93 :: rest) = c :: (t' ++ 93 :: rest))
      by (rewrite Hj; by apply skip_ws_start).
    rewrite Htext. cbn [parse_value skip_ws is_json_ws N.eqb Pos.eqb orb].
    rewrite Hsk, Hc. subst J.
    rewrite parse_elements_text; [done|done|done|done|lia].
  - rewrite stringify_obj in *. cbn [well_formed] in Hwf.
    apply andb_prop in Hwf as [Hdist Hwf]. apply distinct_NoDup in Hdist.
    destruct fields as [|kv fs]; [done|].
    rewrite !length_app in Hfuel. cbn [length] in Hfuel.
    destruct (member_text_start kv) as [t Hs].
    destruct (join_start 34 t (member_text kv) (map member_text fs) Hs) as [t' Hj].
    change (member_text kv :: map member_text fs) with (map member_text (kv :: fs)) in Hj.
    set (J := join [44] (map member_text (kv :: fs))) in *.
    assert (Htext : ([123] ++ J ++ [125]) ++ rest = 123 :: (J ++ 125 :: rest))
      by by rewrite <- !app_assoc.
    assert (Hsk : skip_ws (J ++ 125 :: rest) = 34 :: (t' ++ 125 :: rest))
      by by rewrite Hj.
    rewrite Htext. cbn [parse_value skip_ws is_json_ws N.eqb Pos.eqb orb].
    rewrite Hsk. cbn [N.eqb Pos.eqb]. subst J.
    rewrite parse_members_text; [|done|done|done|lia].
    by rewrite fold_obj_set.
Qed.

(** [JSON.parse(JSON.stringify(v))] is [v]. *)
Lemma parse_stringify v :
  well_formed v = true -> JSON.parse (stringify v) = Some v.
Proof.
  intros Hwf. unfold JSON.parse.
  pose proof (reads_back_all v Hwf [] (S (2 * length (stringify v))) eq_refl) as H.
  rewrite app_nil_r in H. rewrite H by lia. done.
Qed.

(** *** Texts that survive UTF-8 *)

Import Auth.

Lemma stable_nil : stable [].
Proof. by intros b. Qed.

Lemma stable_app a a' : stable a -> stable a' -> stable (a ++ a').
Proof. intros H H' b. by rewrite <- app_assoc, H, H', app_assoc. Qed.

Lemma stable_unit c :
  is_high_surrogate c = false -> is_low_surrogate c = false -> stable [c].
Proof. intros Hh Hl b. cbn [app utf8_text]. by rewrite Hh, Hl. Qed.

Lemma stable_pair c d :
  is_high_surrogate c = true -> is_low_surrogate d = true -> stable [c; d].
Proof. intros Hh Hl b. cbn [app utf8_text]. by rewrite Hh, Hl. Qed.

Lemma below_surrogates c :
  c < 55296 -> is_high_surrogate c = false /\ is_low_surrogate c = false.
Proof.
  intros H. unfold is_high_surrogate, is_low_surrogate.
  split; apply andb_false_iff; left; apply N.leb_gt; lia.
Qed.

Lemma stable_plain s : Forall (fun c => c < 55296) s -> stable s.
Proof.
  induction 1 as [|c s Hc _ IH]; [apply stable_nil|].
  change (c :: s) with ([c] ++ s). apply stable_app; [|done].
  destruct (below_surrogates c Hc). by apply stable_unit.
Qed.

Lemma stable_literal s : forallb (fun c => c <? 55296) s = true -> stable s.
Proof.
  intros H. apply stable_plain, Forall_forall. intros c Hc.
  rewrite forallb_forall in H. apply N.ltb_lt, H. by apply list_elem_of_In.
Qed.

Lemma hex_digit_plain x : x < 16 -> hex_digit x < 55296.
Proof. intros H. unfold hex_digit. destruct (x <? 10); lia. Qed.

Lemma stable_unicode_escape c : c < 65536 -> stable (unicode_escape c).
Proof.
  intros H. apply stable_plain. unfold unicode_escape.
  repeat constructor; try lia; apply hex_digit_plain;
    try (apply N.mod_lt; lia). apply N.Div0.div_lt_upper_bound. lia.
Qed.

Lemma stable_escape_unit c :
  c < 65536 -> is_high_surrogate c = false -> is_low_surrogate c = false ->
  stable (escape_unit c).
Proof.
  intros H Hh Hl. unfold escape_unit.
  repeat (match goal with |- context [if ?b then _ else _] => destruct b end;
          [apply stable_plain; repeat constructor; lia|]).
  destruct (c <? 32); [by apply stable_unicode_escape|by apply stable_unit].
Qed.

Lemma stable_quote_body_bounded n : forall s,
  (length s <= n)%nat -> wf_string s = true -> stable (quote_body s).
Proof.
  induction n as [|n IH]; intros s Hlen Hwf.
  - destruct s; [apply stable_nil|simpl in Hlen; lia].
  - destruct s as [|c r]; [apply stable_nil|].
    destruct (wf_string_cons _ _ Hwf) as [Hc Hr].
    assert (IHr : stable (quote_body r)) by (apply IH; [simpl in Hlen; lia|done]).
    cbn [quote_body]. destruct (is_high_surrogate c) eqn:Hh.
    + destruct r as [|d r'].
      * by apply stable_unicode_escape.
      * destruct (is_low_surrogate d) eqn:Hl.
        -- destruct (wf_string_cons _ _ Hr) as [Hd Hr'].
           change (c :: d :: quote_body r') with ([c; d] ++ quote_body r').
           apply stable_app; [by apply stable_pair|].
           apply IH; [simpl in Hlen; lia|done].
        -- apply stable_app; [by apply stable_unicode_escape|done].
    + destruct (is_low_surrogate c) eqn:Hl.
      * apply stable_app; [by apply stable_unicode_escape|done].
      * apply stable_app; [by apply stable_escape_unit|done].
Qed.

Lemma stable_quote s : wf_string s = true -> stable (QuoteJSONString s).
Proof.
  intros H. unfold QuoteJSONString. change (34 :: ?x) with ([34] ++ x).
  apply stable_app; [by apply stable_unit|].
  apply stable_app; [by apply (stable_quote_body_bounded (length s))|by apply stable_unit].
Qed.

Lemma digit_units_plain ds :
  Forall (fun d => d < 10) ds -> Forall (fun c => c < 55296) (digit_units ds).
Proof.
  intros H. unfold digit_units. apply Forall_map. eapply Forall_impl; [exact H|].
  intros d Hd. cbv beta in Hd. cbv [compose digit_unit]. lia.
Qed.

Lemma zeros_plain m : Forall (fun c => c < 55296) (zeros m).
Proof. rewrite zeros_units. apply digit_units_plain, Forall_repeat_zero. Qed.

Lemma exponent_part_plain e : Forall (fun c => c < 55296) (exponent_part e).
Proof.
  unfold exponent_part. apply Forall_app. split.
  - destruct (0 <=? e)%Z; repeat constructor; lia.
  - apply digit_units_plain. by destruct (N_digits_spec (Z.abs_N e)).
Qed.

Lemma Number_toString_plain x :
  wf_num x = true -> Forall (fun c => c < 55296) (Number_toString x).
Proof.
  intros Hwf. unfold Number_toString. destruct (num_digits x) as [|d ds] eqn:Hd.
  - by repeat constructor.
  - destruct (wf_num_nonzero x d ds Hwf Hd) as (Hten & _).
    pose proof (digit_units_plain _ Hten) as Hp.
    pose proof Hten as Hten'. apply Forall_cons in Hten' as [Hd10 Hds10].
    apply Forall_app. split; [destruct (num_neg x); repeat constructor; lia|].
    repeat match goal with |- context [if ?b then _ else _] => destruct b end.
    + apply Forall_app. split; [done|apply zeros_plain].
    + apply Forall_app. split; [apply digit_units_plain; by apply Forall_take|].
      apply Forall_app. split; [repeat constructor; lia|].
      apply digit_units_plain. by apply Forall_drop.
    + apply Forall_app. split; [repeat constructor; lia|].
      apply Forall_app. split; [apply zeros_plain|done].
    + apply Forall_app. split; [done|]. apply Forall_app.
      split; [repeat constructor; lia|apply exponent_part_plain].
    + apply Forall_app. split; [apply (digit_units_plain [d]); by repeat constructor|].
      apply Forall_app. split; [repeat constructor; lia|].
      apply Forall_app. split; [apply digit_units_plain; done|].
      apply Forall_app. split; [repeat constructor; lia|apply exponent_part_plain].
Qed.

Lemma stable_join parts :
  Forall stable parts -> stable (join [44] parts).
Proof.
  induction 1 as [|p ps Hp Hps IH]; [apply stable_nil|].
  destruct ps as [|q ps]; [done|]. rewrite join_cons.
  apply stable_app; [done|]. apply stable_app; [by apply stable_unit|done].
Qed.

Lemma stable_stringify v : well_formed v = true -> stable (stringify v).
Proof.
  induction v as [|b|x|s|items IH|fields IH] using json_induction; intros Hwf.
  - by apply stable_literal.
  - by destruct b; apply stable_literal.
  - by apply stable_plain, Number_toString_plain.
  - by apply stable_quote.
  - rewrite stringify_arr. apply stable_app; [by apply stable_unit|].
    apply stable_app; [|by apply stable_unit].
    apply stable_join. cbn [well_formed] in Hwf.
    induction IH as [|v vs Hv _ IHvs]; [constructor|].
    cbn [forallb] in Hwf. apply andb_prop in Hwf as [Hwv Hwvs].
    constructor; [by apply Hv|by apply IHvs].
  - rewrite stringify_obj. apply stable_app; [by apply stable_unit|].
    apply stable_app; [|by apply stable_unit].
    apply stable_join. cbn [well_formed] in Hwf. apply andb_prop in Hwf as [_ Hwf].
    induction IH as [|[k v] fs Hv _ IHfs]; [constructor|].
    cbn [forallb fst snd] in Hwf. apply andb_prop in Hwf as [Hwkv Hwfs].
    apply andb_prop in Hwkv as [Hwk Hwv].
    constructor; [|by apply IHfs].
    unfold member_text. cbn [fst snd] in *.
    apply stable_app; [by apply stable_quote|].
    apply stable_app; [by apply stable_unit|by apply Hv].
Qed.

Lemma utf8_text_stringify v :
  well_formed v = true -> utf8_text (stringify v) = stringify v.
Proof.
  intros Hwf. pose proof (stable_stringify v Hwf []) as H.
  by rewrite !app_nil_r in H.
Qed.
End JSONProofs.

(** ** The factory of authentication clients *)

Module AuthProofs.
Import Auth.

(** C9 (amended).  [createAuthClient] always completes by one of its
    first three statements, never by the trailing [throw]: it completes
    as the constructor of [clientType] does when one is given;
    otherwise it returns a [GumloopAuthClient], without any exception,
    when [ENVIRONMENT] lower-cases to ["gumloop"]; otherwise it
    completes as the constructor of [LocalAuthClient] does, returning
    the client when the two directories can be created. *)
Theorem createAuthClient_completion ps clientType apiKey fs :
  createAuthClient ps clientType apiKey fs
  = sequence (removelast (createAuthClient_body ps clientType apiKey fs))
  /\ createAuthClient ps clientType apiKey fs
     = Some match clientType with
            | Some new_clientType => new_clientType fs
            | None =>
                if JS.eqb (toLowerCase (or_default (env ps !! js "ENVIRONMENT")
                                          (js "local"))) (js "gumloop")
                then Return (Gumloop (GumloopAuthClient_new ps (key_or_undefined apiKey)),
                             fs)
                else match LocalAuthClient_new ps None None fs with
                     | Return (c, fs') => Return (Local c, fs')
                     | Throw message => Throw message
                     end
            end.
Proof.
  unfold createAuthClient, createAuthClient_body.
  destruct clientType as [new_clientType|]; [done|].
  destruct (JS.eqb _ (js "gumloop")); [done|].
  split; [done|]. cbn [sequence]. by f_equal.
Qed.

(** C9 as stated fails: the function throws what the constructor it
    runs throws. *)
Lemma createAuthClient_throws :
  createAuthClient sample_process None None blocked_files
  = Some (Throw (js "ENOTDIR"))
  /\ createAuthClient sample_process (Some failing_class) None ∅
     = Some (Throw (js "vault unreachable")).
Proof. split; vm_compute; reflexivity. Qed.
End AuthProofs.

(** ** The local credential store *)

Module StoreProofs.
Import Auth JSONProofs.

Lemma mkdir_from_keeps rest : forall prefix fs fs1 q n,
  mkdir_from prefix rest fs = Return fs1 -> fs !! q = Some n -> fs1 !! q = Some n.
Proof.
  induction rest as [|segment rest IH]; intros prefix fs fs1 q n Hm Hq.
  - by injection Hm as <-.
  - cbn [mkdir_from] in Hm.
    destruct (fs !! (prefix ++ [segment])) as [[content|]|] eqn:Hp; [done| |].
    + by eapply IH.
    + eapply IH; [exact Hm|]. rewrite lookup_insert_ne; [done|]. congruence.
Qed.

Lemma mkdir_from_dirs rest : forall prefix fs fs1,
  mkdir_from prefix rest fs = Return fs1 -> all_dirs prefix rest fs1.
Proof.
  induction rest as [|segment rest IH]; intros prefix fs fs1 Hm i Hi.
  - simpl in Hi. lia.
  - cbn [mkdir_from] in Hm.
    assert (Hrec : exists fs0, mkdir_from (prefix ++ [segment]) rest fs0 = Return fs1
                               /\ fs0 !! (prefix ++ [segment]) = Some Dir).
    { destruct (fs !! (prefix ++ [segment])) as [[content|]|] eqn:Hp; [done| |].
      - by exists fs.
      - eexists. split; [exact Hm|]. apply lookup_insert_eq. }
    destruct Hrec as (fs0 & Hrec & Hdir).
    destruct i as [|j].
    + change (take 1 (segment :: rest)) with [segment]. by eapply mkdir_from_keeps.
    + change (take (S (S j)) (segment :: rest)) with (segment :: take (S j) rest).
      replace (prefix ++ segment :: take (S j) rest)
        with ((prefix ++ [segment]) ++ take (S j) rest) by by rewrite <- app_assoc.
      eapply IH; [exact Hrec|]. simpl in Hi. lia.
Qed.

Lemma mkdir_from_noop rest : forall prefix fs,
  all_dirs prefix rest fs -> mkdir_from prefix rest fs = Return fs.
Proof.
  induction rest as [|segment rest IH]; intros prefix fs Hall; [done|].
  cbn [mkdir_from]. pose proof (Hall 0%nat ltac:(simpl; lia)) as H0.
  change (take 1 (segment :: rest)) with [segment] in H0.
  rewrite H0. apply IH. intros i Hi.
  pose proof (Hall (S i) ltac:(simpl; lia)) as Hs.
  change (take (S (S i)) (segment :: rest)) with (segment :: take (S i) rest) in Hs.
  by rewrite <- app_assoc.
Qed.

Lemma writeFileSync_returns p data fs fs' :
  writeFileSync p data fs = Return fs' ->
  p <> [] /\ fs !! p <> Some Dir /\ fs' = <[p := File (utf8_text data)]> fs.
Proof.
  unfold writeFileSync. destruct p as [|segment p]; [done|].
  destruct (negb (is_dir _ fs)); [by destruct (existsSync _ fs)|].
  destruct (fs !! (segment :: p)) as [[content|]|] eqn:Hp; try done;
    intros [= <-]; done.
Qed.

Lemma existsSync_insert p n fs : p <> [] -> existsSync p (<[p := n]> fs) = true.
Proof.
  intros Hp. destruct p; [done|]. unfold existsSync.
  apply bool_decide_eq_true. rewrite lookup_insert_eq. by eexists.
Qed.

Lemma readFileSync_insert p content fs :
  p <> [] -> readFileSync p (<[p := File content]> fs) = Return content.
Proof. intros Hp. destruct p; [done|]. unfold readFileSync. by rewrite lookup_insert_eq. Qed.

(** C10.  What [saveUserCredentials] has stored for a service and a
    user, [getUserCredentials] returns: for credentials that are JSON
    data, after a save that returned, the read returns a value equal to
    the one saved.  And when the directory of the service can be
    created and nothing exists at the path of the credentials,
    [getUserCredentials] returns [null]. *)
Theorem credentials_round_trip ps this serviceName userId credentials fs :
  (forall fs',
     well_formed credentials = true ->
     saveUserCredentials ps this serviceName userId credentials fs = Return fs' ->
     getUserCredentials ps this serviceName userId fs'
     = Return (Some credentials, fs'))
  /\ (forall fs1,
        truthy_string (credentialsBaseDir this) = true ->
        mkdirSync (serviceDir ps this serviceName) fs = Return fs1 ->
        existsSync (credsPath ps this serviceName userId) fs1 = false ->
        getUserCredentials ps this serviceName userId fs = Return (None, fs1)).
Proof.
  split.
  - intros fs' Hwf Hsave. unfold saveUserCredentials in Hsave.
    unfold getUserCredentials.
    destruct (truthy_string (credentialsBaseDir this)); [|done]. cbn [negb] in *.
    destruct (mkdirSync (serviceDir ps this serviceName) fs) as [fs1|] eqn:Hmk; [|done].
    cbn [mbind completion_bind] in Hsave.
    set (p := credsPath ps this serviceName userId) in *.
    assert (Hw : writeFileSync p (stringify credentials) fs1 = Return fs')
      by by destruct credentials.
    destruct (writeFileSync_returns _ _ _ _ Hw) as (Hp & Hnd & ->).
    pose proof (mkdir_from_dirs _ _ _ _ Hmk) as Hdirs.
    assert (Hnoop : mkdirSync (serviceDir ps this serviceName)
                      (<[p := File (utf8_text (stringify credentials))]> fs1)
                    = Return (<[p := File (utf8_text (stringify credentials))]> fs1)).
    { apply mkdir_from_noop. intros i Hi. rewrite lookup_insert_ne; [by apply Hdirs|].
      intros Heq. apply Hnd. rewrite Heq. by apply Hdirs. }
    rewrite Hnoop. cbn [mbind completion_bind].
    rewrite existsSync_insert by done. cbn [negb].
    rewrite readFileSync_insert by done. cbn [mbind completion_bind].
    by rewrite utf8_text_stringify, parse_stringify.
  - intros fs1 Hdir Hmk Hex. unfold getUserCredentials.
    rewrite Hdir, Hmk. cbn [negb mbind completion_bind]. by rewrite Hex.
Qed.

Lemma returned_value {A} (c : completion A) (otherwise : A) :
  returned c = true -> c = Return (value_of c otherwise).
Proof. by destruct c. Qed.

Lemma credentials_round_trip_witness :
  (saveUserCredentials sample_process sample_client (js "gcalendar") (js "alice")
     sample_credentials ∅ = Return sample_saved
   /\ getUserCredentials sample_process sample_client (js "gcalendar") (js "alice")
        sample_saved
      = Return (Some sample_credentials, sample_saved))
  /\ getUserCredentials sample_process sample_client (js "gcalendar") (js "bob") ∅
     = Return (None, sample_service_dir).
Proof.
  assert (Hsave : saveUserCredentials sample_process sample_client (js "gcalendar")
                    (js "alice") sample_credentials ∅ = Return sample_saved)
    by (apply returned_value; vm_compute; reflexivity).
  split; [split; [exact Hsave|]|].
  - apply (proj1 (credentials_round_trip sample_process sample_client (js "gcalendar")
                    (js "alice") sample_credentials ∅)); [|exact Hsave].
    vm_compute. reflexivity.
  - apply (proj2 (credentials_round_trip sample_process sample_client (js "gcalendar")
                    (js "bob") sample_credentials ∅)).
    + reflexivity.
    + apply returned_value. vm_compute. reflexivity.
    + vm_compute. reflexivity.
Defined.
End StoreProofs.

(** ** Lines, chunks and frames of the framer *)

Module LineProofs.
Import Framer FramerFacts FramerProofs JSONProofs.

Lemma indexOf_LF_None_iff s : indexOf_LF s = None <-> Forall (fun c => c <> 10) s.
Proof.
  induction s as [|c r IH]; cbn [indexOf_LF].
  - split; [constructor | done].
  - destruct (N.eqb_spec c 10) as [->|Hc].
    + split; [done | intros H; inversion H; congruence].
    + split.
      * destruct (indexOf_LF r); [done|]. intros _. constructor; [done | by apply IH].
      * intros H. inversion H; subst. destruct IH as [_ IH]. by rewrite IH.
Qed.

Lemma drain_no_line srv st : indexOf_LF (buffer st) = None -> drain srv st = st.
Proof. unfold drain. cbn [drain_loop]. by intros ->. Qed.

(** X1.  A chunk boundary inside a line does not matter: when the text
    buffered so far and a chunk hold no line feed, delivering this
    chunk and then another one leaves the framer as delivering the two
    as a single chunk does. *)
Theorem chunk_boundary_inside_line srv st a b :
  indexOf_LF (buffer st ++ a) = None ->
  step srv (step srv st (Data (JStr a))) (Data (JStr b))
  = step srv st (Data (JStr (a ++ b))).
Proof.
  intros Hno. cbn [step ToString].
  rewrite (drain_no_line srv (set_buffer (buffer st ++ a) st)) by exact Hno.
  cbn [set_buffer buffer pending next_task written].
  unfold set_buffer. cbn [buffer pending next_task written].
  by rewrite app_assoc.
Qed.

Lemma chunk_boundary_inside_line_witness :
  written
    (step calendar_like
       (step calendar_like
          (step calendar_like initial
             (Data (JStr (json_text "{'jsonrpc':'2.0','method':'list_"))))
          (Data (JStr (json_text "tools','id':1}" ++ [10]))))
       (Settle 0))
  = written
      (step calendar_like
         (step calendar_like initial
            (Data (JStr (json_text "{'jsonrpc':'2.0','method':'list_"
                          ++ (json_text "tools','id':1}" ++ [10])))))
         (Settle 0)).
Proof.
  rewrite (chunk_boundary_inside_line calendar_like initial); [reflexivity|].
  vm_compute. reflexivity.
Defined.

(** X2.  Whenever no invocation of the listener is suspended, the
    buffer holds exactly what was received after the last line feed:
    for chunks whose text the listener can take, the text received is
    its complete lines followed by the buffer, and the buffer holds no
    line feed.  A last line that lacks its line feed stays there
    unanswered. *)
Theorem buffer_holds_unterminated_tail srv events :
  forallb readable events = true ->
  pending (run srv events initial) = [] ->
  received events
  = terminated (complete_lines (received events)) ++ buffer (run srv events initial)
  /\ indexOf_LF (buffer (run srv events initial)) = None.
Proof.
  intros _ Hp.
  destruct (consistent_run srv events) as (ls & Htext & Hls & _ & Hbuf).
  specialize (Hbuf Hp). split; [|exact Hbuf].
  assert (Hc : complete_lines (received events) = ls).
  { rewrite Htext, complete_lines_terminated by exact Hls.
    rewrite complete_lines_None by exact Hbuf. apply app_nil_r. }
  rewrite Hc. exact Htext.
Qed.

Lemma buffer_holds_unterminated_tail_witness :
  let events :=
    [Data (JStr (json_text "{'jsonrpc':'2.0','method':'list_tools','id':1}" ++ [10]
                 ++ json_text "{'jsonrpc':'2.0','method':'list_tools','id':2}"));
     Settle 0] in
  buffer (run calendar_like events initial)
  = json_text "{'jsonrpc':'2.0','method':'list_tools','id':2}"
  /\ length (written (run calendar_like events initial)) = 1%nat
  /\ indexOf_LF (buffer (run calendar_like events initial)) = None.
Proof.
  intros events.
  split; [vm_compute; reflexivity|]. split; [vm_compute; reflexivity|].
  apply (buffer_holds_unterminated_tail calendar_like events).
  - reflexivity.
  - vm_compute. reflexivity.
Defined.

(** *** The text of [JSON.stringify] holds no line feed *)

Lemma digit_units_no_LF ds : Forall (fun c => c <> 10) (digit_units ds).
Proof.
  unfold digit_units. apply Forall_map, Forall_forall. intros d _.
  unfold digit_unit. cbn beta. lia.
Qed.

Lemma zeros_no_LF n : Forall (fun c => c <> 10) (zeros n).
Proof. unfold zeros. induction n as [|n IH]; cbn [repeat]; constructor; [lia | exact IH]. Qed.

Lemma exponent_part_no_LF e : Forall (fun c => c <> 10) (exponent_part e).
Proof.
  unfold exponent_part. apply Forall_app. split.
  - destruct (0 <=? e)%Z; repeat constructor; lia.
  - apply digit_units_no_LF.
Qed.

Lemma Number_toString_no_LF x : Forall (fun c => c <> 10) (Number_toString x).
Proof.
  unfold Number_toString. destruct (num_digits x) as [|d ds].
  - repeat constructor; lia.
  - apply Forall_app. split.
    + destruct (num_neg x); repeat constructor; lia.
    + repeat match goal with
             | |- context [if ?b then _ else _] => destruct b
             end;
      repeat first [ apply digit_units_no_LF | apply zeros_no_LF
                   | apply exponent_part_no_LF | apply Forall_app; split ];
      repeat constructor; unfold digit_unit; lia.
Qed.

Lemma hex_digit_no_LF n : hex_digit n <> 10.
Proof. unfold hex_digit. destruct (n <? 10); lia. Qed.

Lemma unicode_escape_no_LF c : Forall (fun c => c <> 10) (unicode_escape c).
Proof.
  unfold unicode_escape.
  repeat constructor; try lia; apply hex_digit_no_LF.
Qed.

Lemma escape_unit_no_LF c : Forall (fun c => c <> 10) (escape_unit c).
Proof.
  unfold escape_unit.
  repeat match goal with
         | |- context [if ?a =? ?b then _ else _] => destruct (N.eqb_spec a b)
         | |- context [if ?a <? ?b then _ else _] => destruct (N.ltb_spec a b)
         end;
  try apply unicode_escape_no_LF; repeat constructor; lia.
Qed.

Lemma quote_body_no_LF_bounded n : forall s,
  (length s <= n)%nat -> Forall (fun c => c <> 10) (quote_body s).
Proof.
  induction n as [|n IH]; intros s Hn.
  - destruct s; [constructor | cbn [length] in Hn; lia].
  - destruct s as [|c r]; [constructor|]. cbn [length] in Hn.
    cbn [quote_body].
    destruct (is_high_surrogate c) eqn:Hh.
    + destruct r as [|d r'].
      * apply unicode_escape_no_LF.
      * destruct (is_low_surrogate d) eqn:Hl.
        -- constructor; [intros ->; vm_compute in Hh; discriminate|].
           constructor; [intros ->; vm_compute in Hl; discriminate|].
           apply IH. cbn [length] in Hn. lia.
        -- apply Forall_app. split; [apply unicode_escape_no_LF|].
           apply IH. lia.
    + destruct (is_low_surrogate c).
      * apply Forall_app. split; [apply unicode_escape_no_LF | apply IH; lia].
      * apply Forall_app. split; [apply escape_unit_no_LF | apply IH; lia].
Qed.

Lemma QuoteJSONString_no_LF s : Forall (fun c => c <> 10) (QuoteJSONString s).
Proof.
  unfold QuoteJSONString. constructor; [lia|].
  apply Forall_app. split; [by apply (quote_body_no_LF_bounded (length s))|].
  repeat constructor; lia.
Qed.

Lemma join_no_LF sep parts :
  Forall (fun c => c <> 10) sep ->
  Forall (Forall (fun c => c <> 10)) parts ->
  Forall (fun c => c <> 10) (join sep parts).
Proof.
  intros Hsep. induction 1 as [|p ps Hp Hps IH]; [constructor|].
  destruct ps as [|q qs]; [exact Hp|].
  change (join sep (p :: q :: qs)) with (p ++ sep ++ join sep (q :: qs)).
  apply Forall_app. split; [exact Hp|]. apply Forall_app. split; [exact Hsep | exact IH].
Qed.

Lemma stringify_no_LF v : Forall (fun c => c <> 10) (stringify v).
Proof.
  induction v as [|b|x|s|items IH|fields IH] using json_induction.
  - vm_compute. repeat constructor; lia.
  - destruct b; vm_compute; repeat constructor; lia.
  - apply Number_toString_no_LF.
  - apply QuoteJSONString_no_LF.
  - cbn [stringify]. apply Forall_app. split; [repeat constructor; lia|].
    apply Forall_app. split; [|repeat constructor; lia].
    apply join_no_LF; [repeat constructor; lia|].
    apply Forall_map. exact IH.
  - cbn [stringify]. apply Forall_app. split; [repeat constructor; lia|].
    apply Forall_app. split; [|repeat constructor; lia].
    apply join_no_LF; [repeat constructor; lia|].
    apply Forall_map. eapply Forall_impl; [exact IH|].
    intros [k v] Hv. cbn [fst snd] in *.
    apply Forall_app. split; [apply QuoteJSONString_no_LF|].
    apply Forall_app. split; [repeat constructor; lia | exact Hv].
Qed.

Lemma line_frames_form srv line :
  Forall (fun frame => exists r, frame = stringify r ++ [10]) (line_frames srv line).
Proof.
  unfold line_frames, process_line.
  destruct (truthy_string line); [|constructor].
  destruct (JSON.parse line) as [request|].
  - destruct (invalid_request request).
    + repeat constructor. by eexists.
    + destruct (resumed line (handleRequest srv request)) as [r|];
        cbn [response_frames].
      * repeat constructor. by eexists.
      * constructor.
  - repeat constructor. by eexists.
Qed.

Lemma frames_of_form srv ls :
  Forall (fun frame => exists r, frame = stringify r ++ [10]) (frames_of srv ls).
Proof.
  induction ls as [|l ls IH]; [constructor|].
  rewrite frames_of_cons. apply Forall_app. split; [apply line_frames_form | exact IH].
Qed.

Lemma frames_responses frames :
  Forall (fun frame => exists r, frame = stringify r ++ [10]) frames ->
  exists responses, frames = map (fun r => stringify r ++ [10]) responses.
Proof.
  induction 1 as [|f fs [r ->] _ [rs ->]].
  - by exists [].
  - by exists (r :: rs).
Qed.

Lemma written_responses srv events :
  exists responses,
    written (run srv events initial) = map (fun r => stringify r ++ [10]) responses.
Proof.
  destruct (consistent_run srv events) as (ls & _ & _ & Hperm & _).
  apply frames_responses.
  pose proof (frames_of_form srv ls) as Hf.
  rewrite <- Hperm in Hf. apply Forall_app in Hf. tauto.
Qed.

(** X3.  Every frame the framer writes, on any schedule, is the JSON
    text of a response followed by one line feed, and this text holds
    no line feed: cutting the output at its line feeds gives back the
    JSON texts, one per frame. *)
Theorem written_frames_are_lines srv events :
  exists responses,
    written (run srv events initial) = map (fun r => stringify r ++ [10]) responses
    /\ Forall (fun r => indexOf_LF (stringify r) = None) responses
    /\ complete_lines (concat (written (run srv events initial)))
       = map stringify responses.
Proof.
  destruct (written_responses srv events) as [responses Hw].
  exists responses. split; [exact Hw|]. split.
  - apply Forall_forall. intros r _. apply indexOf_LF_None_iff, stringify_no_LF.
  - rewrite Hw.
    assert (Ht : concat (map (fun r => stringify r ++ [10]) responses)
                 = terminated (map stringify responses) ++ []).
    { unfold terminated. rewrite map_map. by rewrite app_nil_r. }
    rewrite Ht, complete_lines_terminated.
    + rewrite complete_lines_None by reflexivity. apply app_nil_r.
    + apply Forall_map, Forall_forall. intros r _. cbn beta.
      apply indexOf_LF_None_iff, stringify_no_LF.
Qed.

End LineProofs.

(** ** Requests the framer answers with an error, and frames on the
    SSE stream *)

Module RequestProofs.
Import Framer FramerFacts FramerProofs Sse.
Import LineProofs.

(** *** Blank lines and white space around a line *)

Lemma trimStart_spaces ws : forallb is_trim_space ws = true -> trimStart ws = [].
Proof.
  induction ws as [|c r IH]; [done|]. cbn [forallb trimStart].
  intros [Hc Hr]%andb_true_iff. rewrite Hc. by apply IH.
Qed.

Lemma trimStart_spaces_app ws s :
  forallb is_trim_space ws = true -> trimStart (ws ++ s) = trimStart s.
Proof.
  induction ws as [|c r IH]; [done|]. cbn [forallb app trimStart].
  intros [Hc Hr]%andb_true_iff. rewrite Hc. by apply IH.
Qed.

Lemma trimStart_app s t :
  trimStart (s ++ t)
  = match trimStart s with [] => trimStart t | _ => trimStart s ++ t end.
Proof.
  induction s as [|c r IH]; cbn [app trimStart].
  - by destruct (trimStart t).
  - destruct (is_trim_space c); [exact IH | done].
Qed.

Lemma trimEnd_app_spaces s ws :
  forallb is_trim_space ws = true -> trimEnd (s ++ ws) = trimEnd s.
Proof.
  intros Hws. unfold trimEnd. rewrite rev_app_distr.
  rewrite trimStart_spaces_app; [done|].
  rewrite forallb_forall in *. intros c Hc. apply Hws. by apply in_rev.
Qed.

Lemma trim_surrounded pre l post :
  forallb is_trim_space pre = true -> forallb is_trim_space post = true ->
  trim (pre ++ l ++ post) = trim l.
Proof.
  intros Hpre Hpost. unfold trim.
  rewrite trimStart_spaces_app by exact Hpre.
  rewrite trimStart_app. destruct (trimStart l) as [|c r] eqn:Hl.
  - by rewrite trimStart_spaces.
  - by apply trimEnd_app_spaces.
Qed.

Lemma trim_blank ws : forallb is_trim_space ws = true -> trim ws = [].
Proof. intros H. unfold trim. by rewrite trimStart_spaces. Qed.

(** X4.  White space around a line is ignored and a line of white
    space is skipped: when a chunk completes a line, the listener is
    left in the same state by the line wrapped in white space (a
    carriage return before the line feed, for one) as by the bare
    line, and a line made of white space leaves it with an empty
    buffer, nothing written and nothing awaited. *)
Theorem white_space_is_ignored srv st pre l post :
  forallb is_trim_space (buffer st) = true ->
  forallb is_trim_space pre = true -> forallb is_trim_space post = true ->
  indexOf_LF (buffer st ++ pre ++ l ++ post) = None ->
  step srv st (Data (JStr ((pre ++ l ++ post) ++ [10])))
  = step srv st (Data (JStr (l ++ [10])))
  /\ (let blank := step srv st (Data (JStr (pre ++ [10]))) in
      buffer blank = [] /\ written blank = written st
      /\ pending blank = pending st).
Proof.
  intros Hb Hpre Hpost Hno.
  apply indexOf_LF_None_iff in Hno.
  apply Forall_app in Hno as [Hnb Hno]. apply Forall_app in Hno as [Hnpre Hno].
  apply Forall_app in Hno as [Hnl Hnpost].
  cbv zeta. rewrite !line_arrives.
  - assert (H1 : trim (buffer st ++ pre ++ l ++ post) = trim l).
    { rewrite (app_assoc (buffer st) pre (l ++ post)).
      apply trim_surrounded; [|exact Hpost]. by rewrite forallb_app, Hb, Hpre. }
    assert (H2 : trim (buffer st ++ l) = trim l).
    { rewrite <- (app_nil_r l) at 1. by apply trim_surrounded. }
    assert (H3 : trim (buffer st ++ pre) = []).
    { apply trim_blank. by rewrite forallb_app, Hb, Hpre. }
    rewrite H1, H2, H3. split; [reflexivity|]. done.
  - apply indexOf_LF_None_iff. by apply Forall_app.
  - apply indexOf_LF_None_iff. by apply Forall_app.
  - apply indexOf_LF_None_iff. repeat (apply Forall_app; split); done.
Qed.

Lemma white_space_is_ignored_witness :
  let request := json_text "{'jsonrpc':'2.0','method':'list_tools','id':1}" in
  pending (step calendar_like initial
             (Data (JStr (([32; 9] ++ request ++ [13]) ++ [10]))))
  = [(0%nat,
      Some (result_response (JArr [JObj [(js "name", JStr (js "list_events"))]])
              (JNum (num_of_Z 1))))]
  /\ written (step calendar_like initial (Data (JStr ([32; 9] ++ [10])))) = [].
Proof.
  intros request.
  destruct (white_space_is_ignored calendar_like initial [32; 9] request [13])
    as [H1 (_ & H2 & _)]; [reflexivity | reflexivity | reflexivity
                          | vm_compute; reflexivity |].
  rewrite H1, H2. split; vm_compute; reflexivity.
Defined.

(** *** Failures of the four known methods *)

Lemma valid_request_frame srv line request id m :
  JSON.parse line = Some request ->
  invalid_request request = false ->
  get request (js "id") = Some id -> id <> JNull ->
  get request (js "method") = Some (JStr m) ->
  line_frames srv line
  = [stringify
       match dispatch srv (Some (JStr m)) (get request (js "params")) with
       | Rejected message =>
           error_response (-32603)
             (or_default (Some message) (js "Internal server error")) id
       | Resolved result => result_response result id
       end ++ [10]].
Proof.
  intros Hparse Hvalid Hid Hnn Hm.
  unfold line_frames, process_line.
  rewrite (parse_nonempty _ _ Hparse), Hparse, Hvalid.
  unfold handleRequest. rewrite Hid, Hm. cbn [interpolates_opt interpolates].
  destruct id; try done;
    by destruct (dispatch srv (Some (JStr m)) (get request (js "params"))).
Qed.

(** X5.  A request for one of the four known methods whose handler
    has not been registered is answered like an unknown method: error
    -32603 with the message "Method not found: <method>", carrying the
    [id] of the request. *)
Theorem unregistered_handler_is_method_not_found srv line request id m :
  JSON.parse line = Some request ->
  invalid_request request = false ->
  get request (js "id") = Some id -> id <> JNull ->
  get request (js "method") = Some (JStr m) ->
  (m = js "list_resources" /\ listResourcesHandler srv = None)
  \/ (m = js "read_resource" /\ readResourceHandler srv = None)
  \/ (m = js "list_tools" /\ listToolsHandler srv = None)
  \/ (m = js "call_tool" /\ callToolHandler srv = None) ->
  line_frames srv line
  = [stringify (error_response (-32603) (js "Method not found: " ++ m) id) ++ [10]].
Proof.
  intros Hparse Hvalid Hid Hnn Hm Hcase.
  rewrite (valid_request_frame srv line request id m Hparse Hvalid Hid Hnn Hm).
  destruct Hcase as [[-> H] | [[-> H] | [[-> H] | [-> H]]]];
    unfold dispatch; cbn [JS.eqb]; rewrite ?H;
    repeat match goal with
           | |- context [JS.eqb ?a ?b] =>
               let E := fresh in
               assert (E : JS.eqb a b = false) by (vm_compute; reflexivity);
               rewrite E; clear E
           | |- context [JS.eqb ?a ?a] =>
               let E := fresh in
               assert (E : JS.eqb a a = true) by (apply bool_decide_eq_true; reflexivity);
               rewrite E; clear E
           end; rewrite ?H; reflexivity.
Qed.

Lemma unregistered_handler_is_method_not_found_witness :
  line_frames calendar_like
    (json_text "{'jsonrpc':'2.0','method':'read_resource','params':['gcalendar:///upcoming'],'id':4}")
  = [json_text "{'jsonrpc':'2.0','error':{'code':-32603,'message':'Method not found: read_resource'},'id':4}"
       ++ [10]].
Proof.
  erewrite (unregistered_handler_is_method_not_found calendar_like _ _
              (JNum (num_of_Z 4)) (js "read_resource")).
  - vm_compute. reflexivity.
  - vm_compute. reflexivity.
  - vm_compute. reflexivity.
  - vm_compute. reflexivity.
  - discriminate.
  - vm_compute. reflexivity.
  - right. left. split; reflexivity.
Defined.

(** X6.  A [read_resource] request whose [uri], or a [call_tool]
    request whose [name], is absent or falsy (positional or named
    parameters alike) is answered with the error -32603 and the message
    "Missing parameter: uri", respectively "Missing parameter: name";
    the registered handler is not consulted. *)
Theorem missing_parameter srv line request id :
  JSON.parse line = Some request ->
  invalid_request request = false ->
  get request (js "id") = Some id -> id <> JNull ->
  (forall handler,
     get request (js "method") = Some (JStr (js "read_resource")) ->
     readResourceHandler srv = Some handler ->
     truthy_opt (param (get request (js "params")) 0 (js "uri")) = false ->
     line_frames srv line
     = [stringify (error_response (-32603) (js "Missing parameter: uri") id) ++ [10]])
  /\ (forall handler,
        get request (js "method") = Some (JStr (js "call_tool")) ->
        callToolHandler srv = Some handler ->
        truthy_opt (param (get request (js "params")) 0 (js "name")) = false ->
        line_frames srv line
        = [stringify (error_response (-32603) (js "Missing parameter: name") id)
             ++ [10]]).
Proof.
  intros Hparse Hvalid Hid Hnn.
  split; intros handler Hm Hh Hp;
    rewrite (valid_request_frame srv line request id _ Hparse Hvalid Hid Hnn Hm);
    unfold dispatch.
  - assert (E1 : JS.eqb (js "read_resource") (js "list_resources") = false)
      by (vm_compute; reflexivity).
    assert (E2 : JS.eqb (js "read_resource") (js "read_resource") = true)
      by (vm_compute; reflexivity).
    rewrite E1, E2, Hh.
    destruct (param (get request (js "params")) 0 (js "uri")) as [uri|]; [|done].
    cbn [truthy_opt] in Hp. by rewrite Hp.
  - assert (E1 : JS.eqb (js "call_tool") (js "list_resources") = false)
      by (vm_compute; reflexivity).
    assert (E2 : JS.eqb (js "call_tool") (js "read_resource") = false)
      by (vm_compute; reflexivity).
    assert (E3 : JS.eqb (js "call_tool") (js "list_tools") = false)
      by (vm_compute; reflexivity).
    assert (E4 : JS.eqb (js "call_tool") (js "call_tool") = true)
      by (vm_compute; reflexivity).
    rewrite E1, E2, E3, E4, Hh.
    destruct (param (get request (js "params")) 0 (js "name")) as [toolName|]; [|done].
    cbn [truthy_opt] in Hp. by rewrite Hp.
Qed.

Lemma missing_parameter_witness :
  line_frames calendar_like
    (json_text "{'jsonrpc':'2.0','method':'call_tool','params':{'args':{'days':3}},'id':5}")
  = [json_text "{'jsonrpc':'2.0','error':{'code':-32603,'message':'Missing parameter: name'},'id':5}"
       ++ [10]]
  /\ line_frames calendar_like
       (json_text "{'jsonrpc':'2.0','method':'call_tool','params':[''],'id':6}")
     = [json_text "{'jsonrpc':'2.0','error':{'code':-32603,'message':'Missing parameter: name'},'id':6}"
          ++ [10]].
Proof.
  split.
  - pose proof (fun request => missing_parameter calendar_like
       (json_text "{'jsonrpc':'2.0','method':'call_tool','params':{'args':{'days':3}},'id':5}")
       request (JNum (num_of_Z 5))) as H0.
    edestruct H0 as [_ H];
      [vm_compute; reflexivity | vm_compute; reflexivity | vm_compute; reflexivity
      | discriminate |].
    erewrite H; [vm_compute; reflexivity | vm_compute; reflexivity | reflexivity
                | vm_compute; reflexivity].
  - pose proof (fun request => missing_parameter calendar_like
       (json_text "{'jsonrpc':'2.0','method':'call_tool','params':[''],'id':6}")
       request (JNum (num_of_Z 6))) as H0.
    edestruct H0 as [_ H];
      [vm_compute; reflexivity | vm_compute; reflexivity | vm_compute; reflexivity
      | discriminate |].
    erewrite H; [vm_compute; reflexivity | vm_compute; reflexivity | reflexivity
                | vm_compute; reflexivity].
Defined.

(** *** A response frame on the SSE stream *)

Lemma data_lines_frame text :
  indexOf_LF text = None ->
  data_lines (text ++ [10]) = js "data: " ++ text ++ [10] ++ js "data: ".
Proof.
  intros H. unfold data_lines.
  change (text ++ [10]) with (text ++ [10] ++ []).
  rewrite (split_LF_line text [] H).
  change (split_LF []) with [[] : jsstring].
  cbn [map join]. by rewrite app_nil_r, <- app_assoc.
Qed.

(** X7.  On an open SSE response, a frame written by the framer goes
    out as one event of two [data:] lines: the JSON text of the
    response, then an empty one for the line feed that ends the
    frame. *)
Theorem response_frame_event srv events frame r :
  frame ∈ written (run srv events initial) ->
  writableEnded r = false ->
  exists response,
    frame = stringify response ++ [10]
    /\ writeStream_write (JStr frame) r
       = (raw_write (js "data: " ++ stringify response ++ [10]
                       ++ js "data: " ++ [10; 10]) r, None).
Proof.
  intros Hin Hopen.
  destruct (written_responses srv events) as (responses & Hw).
  rewrite Hw in Hin. apply list_elem_of_In, in_map_iff in Hin as (response & <- & Hr).
  exists response. split; [done|].
  unfold writeStream_write. rewrite Hopen. cbn [negb dataString].
  rewrite data_lines_frame.
  - by rewrite <- !app_assoc.
  - apply indexOf_LF_None_iff, stringify_no_LF.
Qed.

Lemma response_frame_event_witness :
  let text := json_text "{'jsonrpc':'2.0','result':[{'name':'list_events'}],'id':1}" in
  writeStream_write (JStr (text ++ [10])) {| writableEnded := false; sent := [] |}
  = ({| writableEnded := false;
        sent := [js "data: " ++ text ++ [10] ++ js "data: " ++ [10; 10]] |}, None).
Proof.
  intros text.
  destruct (response_frame_event calendar_like two_lines (text ++ [10])
              {| writableEnded := false; sent := [] |})
    as (response & Hframe & Hwrite).
  - apply list_elem_of_In. vm_compute. left. reflexivity.
  - reflexivity.
  - apply app_inj_tail in Hframe as [Htext _]. rewrite Hwrite, <- Htext. reflexivity.
Defined.

End RequestProofs.

(** ** Sessions, instances and counters of the gateway *)

Module SessionProofs.
Import Sse Registry Gateway GatewayProofs.

(** *** Session keys *)

Lemma before_colon_plain u rest :
  forallb (fun c => negb (c =? 58)) u = true ->
  before_colon (u ++ 58 :: rest) = u /\ after_colon (u ++ 58 :: rest) = Some rest.
Proof.
  induction u as [|c r IH]; cbn [forallb app before_colon after_colon].
  - done.
  - intros [Hc Hr]%andb_true_iff. apply negb_true_iff in Hc. rewrite Hc.
    destruct (IH Hr) as [-> ->]. done.
Qed.

Lemma colon_free_plain u :
  forallb (fun c => negb (c =? 58)) u = true ->
  before_colon u = u /\ after_colon u = None.
Proof.
  induction u as [|c r IH]; cbn [forallb before_colon after_colon]; [done|].
  intros [Hc Hr]%andb_true_iff. apply negb_true_iff in Hc. rewrite Hc.
  destruct (IH Hr) as [-> ->]. done.
Qed.

(** X8.  The route parameter of a session is cut at its colons: a
    key without a colon is the user id and there is no API key;
    [user:key] gives both; a third segment is dropped. *)
Theorem session_key_segments u k :
  forallb (fun c => negb (c =? 58)) u = true ->
  forallb (fun c => negb (c =? 58)) k = true ->
  parse_session u = (Some u, None)
  /\ parse_session (u ++ [58] ++ k) = (Some u, Some k)
  /\ (forall rest, parse_session (u ++ [58] ++ k ++ [58] ++ rest) = (Some u, Some k)).
Proof.
  intros Hu Hk. unfold parse_session. split; [|split].
  - by rewrite (proj2 (colon_free_plain u Hu)).
  - destruct (before_colon_plain u k Hu) as [H1 H2].
    cbn [app]. rewrite H1, H2. by rewrite (proj1 (colon_free_plain k Hk)).
  - intros rest. destruct (before_colon_plain u (k ++ [58] ++ rest) Hu) as [H1 H2].
    cbn [app] in *. rewrite H1, H2.
    by rewrite (proj1 (before_colon_plain k rest Hk)).
Qed.

Lemma session_key_segments_witness :
  parse_session (js "alice") = (Some (js "alice"), None)
  /\ parse_session (js "alice" ++ [58] ++ js "secret")
     = (Some (js "alice"), Some (js "secret"))
  /\ parse_session (js "alice:secret:more") = (Some (js "alice"), Some (js "secret")).
Proof.
  destruct (session_key_segments (js "alice") (js "secret")) as (H1 & H2 & H3);
    [reflexivity | reflexivity |].
  split; [exact H1|]. split; [exact H2|]. exact (H3 (js "more")).
Defined.

(** *** connectionTotal *)

Lemma filter_length_servers (serverName : jsstring) (l1 l2 : list connection) :
  conn_server <$> l1 = conn_server <$> l2 ->
  length (filter (fun conn => conn_server conn = serverName) l1)
  = length (filter (fun conn => conn_server conn = serverName) l2).
Proof.
  revert l2. induction l1 as [|a l1 IH]; intros [|b l2] Heq; try done.
  injection Heq as Hab Hl. rewrite !filter_cons.
  destruct (decide (conn_server a = serverName)) as [Ha|Ha];
    destruct (decide (conn_server b = serverName)) as [Hb|Hb];
    try congruence; cbn [length]; by rewrite (IH l2 Hl).
Qed.

Lemma update_connection_servers c f g :
  (forall conn, conn_server (f conn) = conn_server conn) ->
  conn_server <$> connections (update_connection c f g)
  = conn_server <$> connections g.
Proof.
  intros Hf. unfold update_connection. cbn [connections].
  destruct (connections g !! c) as [conn|] eqn:Hc; [|done].
  rewrite list_fmap_insert, Hf.
  apply list_insert_id. by rewrite list_lookup_fmap, Hc.
Qed.

Lemma close_event_total c g :
  connectionTotal (close_event c g) = connectionTotal g
  /\ conn_server <$> connections (close_event c g) = conn_server <$> connections g.
Proof.
  unfold close_event. destruct (connections g !! c) as [conn|]; [|done]. split.
  - done.
  - by rewrite update_connection_servers.
Qed.

Lemma run_settled_total result c g :
  connectionTotal (run_settled result c g) = connectionTotal g
  /\ conn_server <$> connections (run_settled result c g) = conn_server <$> connections g.
Proof.
  unfold run_settled. destruct (connections g !! c) as [conn|]; [|done].
  cbv zeta.
  match goal with
  | |- context [match ?t with Some _ => _ | None => _ end] => destruct t
  end.
  all: split; [done|].
  all: rewrite update_connection_servers by done.
  all: cbn [delete_and_dec connections].
  all: by rewrite update_connection_servers.
Qed.

Lemma message_route_total n k body g :
  connectionTotal (snd (message_route n k body g)) = connectionTotal g
  /\ conn_server <$> connections (snd (message_route n k body g))
     = conn_server <$> connections g.
Proof.
  unfold message_route. cbv zeta.
  destruct (userSessionTransports g !! sessionKey n k); [|done].
  cbn [snd]. split; [done|]. by rewrite update_connection_servers.
Qed.

Lemma sse_route_total info n k g c g' :
  sse_route info n k g = Return (c, g') ->
  connectionTotal g' = inc n (connectionTotal g)
  /\ conn_server <$> connections g' = (conn_server <$> connections g) ++ [n].
Proof.
  unfold sse_route, get_or_create. cbv zeta.
  set (key := sessionKey n k).
  destruct (userServerInstances g !! key) as [i|].
  - cbn [mbind completion_bind].
    unfold attach. cbv zeta.
    destruct (options_call (getInitializationOptions info) i);
      intros [= <- <-].
    + split; [done|].
      cbn [connections]. by rewrite fmap_app.
    + destruct (run_settled_total run_threw (length (connections g))
        {| userServerInstances := userServerInstances g;
           userSessionTransports := <[key := length (connections g)]> (userSessionTransports g);
           activeConnections := activeConnections g;
           connectionTotal := inc n (connectionTotal g);
           created := created g;
           connections := connections g ++
             [{| conn_session := key; conn_server := n; conn_instance := i;
                 reply_raw := {| writableEnded := false; sent := [connection_established] |};
                 readStream := createMessageEmitter; writeStream_ended := false |}] |})
        as [H1 H2].
      rewrite H1, H2. split; [done|].
      cbn [connections]. by rewrite fmap_app.
  - destruct (createServerInstance (serverFactory info) _ _) as [[]|m]; [|done].
    cbn [mbind completion_bind].
    unfold attach. cbv zeta. cbn [connections created].
    destruct (options_call (getInitializationOptions info) (length (created g)));
      intros [= <- <-].
    + split; [done|].
      cbn [connections]. by rewrite fmap_app.
    + match goal with
      | |- context [run_settled run_threw ?c0 ?g0] =>
          destruct (run_settled_total run_threw c0 g0) as [H1 H2]
      end.
      rewrite H1, H2. split; [done|].
      cbn [connections]. by rewrite fmap_app.
Qed.

Lemma value_inc_ne label other metric :
  label <> other -> value (inc label metric) other = value metric other.
Proof. intros H. unfold value, inc. by rewrite lookup_insert_ne. Qed.

Lemma filter_length_names (serverName : jsstring) (l : list connection) :
  length (filter (fun conn => conn_server conn = serverName) l)
  = length (filter (fun s => s = serverName) (conn_server <$> l)).
Proof.
  induction l as [|a l IH]; [done|].
  rewrite fmap_cons, !filter_cons.
  destruct (decide (conn_server a = serverName)); cbn [length]; by rewrite IH.
Qed.

Lemma react_total g o serverName :
  value (connectionTotal g) serverName
  = Z.of_nat (length (filter (fun conn => conn_server conn = serverName) (connections g))) ->
  value (connectionTotal (react g o)) serverName
  = Z.of_nat (length (filter (fun conn => conn_server conn = serverName)
                        (connections (react g o)))).
Proof.
  intros IH. destruct o as [info n k|c|result c|n k body]; cbn [react].
  - destruct (sse_route info n k g) as [[c g']|] eqn:Hr; [|exact IH].
    destruct (sse_route_total _ _ _ _ _ _ Hr) as (Ht & Hc).
    rewrite Ht, (filter_length_names serverName (connections g')), Hc.
    rewrite filter_app, length_app, <- filter_length_names.
    rewrite filter_cons, filter_nil.
    destruct (decide (n = serverName)) as [->|Hne].
    + rewrite value_inc. cbn [length]. lia.
    + rewrite value_inc_ne by done. cbn [length]. lia.
  - destruct (close_event_total c g) as [H1 H2].
    by rewrite H1, (filter_length_servers serverName _ _ H2).
  - destruct (run_settled_total result c g) as [H1 H2].
    by rewrite H1, (filter_length_servers serverName _ _ H2).
  - destruct (message_route_total n k body g) as [H1 H2].
    by rewrite H1, (filter_length_servers serverName _ _ H2).
Qed.

Lemma serve_snoc history o g : serve (history ++ [o]) g = react (serve history g) o.
Proof. unfold serve. by rewrite fold_left_app. Qed.

(** X9.  After any history, the counter [connectionTotal] of a plugin
    is the number of SSE connections accepted for it, reconnections
    included. *)
Theorem connection_total_counts_connections history serverName :
  value (connectionTotal (serve history empty)) serverName
  = Z.of_nat (length (filter (fun conn => conn_server conn = serverName)
                        (connections (serve history empty)))).
Proof.
  induction history as [|o history IH] using rev_ind; [done|].
  rewrite serve_snoc. by apply react_total.
Qed.

End SessionProofs.

(** ** Connections of a session *)

Module ConnectionProofs.
Import Sse Registry Gateway GatewayProofs Lookup Outbound.
Import SessionProofs.

(** The SSE route for a session that has an instance and options that
    are computed. *)
Lemma sse_route_running info n k g i opts :
  userServerInstances g !! sessionKey n k = Some i ->
  options_call (getInitializationOptions info) i = Return opts ->
  sse_route info n k g
  = Return (length (connections g), snd (attach (sessionKey n k) n i g)).
Proof.
  intros Hi Ho. unfold sse_route, get_or_create. rewrite Hi.
  cbn [mbind completion_bind]. unfold attach. cbv zeta. by rewrite Ho.
Qed.

Lemma attach_lookup_old key n i g c conn :
  connections g !! c = Some conn ->
  connections (snd (attach key n i g)) !! c = Some conn.
Proof.
  intros Hc. unfold attach. cbn [snd connections].
  by apply lookup_app_l_Some.
Qed.

Lemma react_connect_running info n k g i opts :
  userServerInstances g !! sessionKey n k = Some i ->
  options_call (getInitializationOptions info) i = Return opts ->
  react g (Connect info n k) = snd (attach (sessionKey n k) n i g).
Proof.
  intros Hi Ho. cbn [react]. by rewrite (sse_route_running info n k g i opts Hi Ho).
Qed.

(** X12.  A reconnection on a session that has its instance leaves
    the gauge [activeConnections] as it is, and the ['close'] event of
    this connection then takes 1 off: each cycle of reconnection and
    close lowers the gauge of the plugin by one. *)
Theorem reconnection_lowers_gauge info n k g i opts :
  userServerInstances g !! sessionKey n k = Some i ->
  options_call (getInitializationOptions info) i = Return opts ->
  let g1 := react g (Connect info n k) in
  activeConnections g1 = activeConnections g
  /\ value (activeConnections (close_event (length (connections g)) g1)) n
     = (value (activeConnections g) n - 1)%Z.
Proof.
  intros Hi Ho. cbv zeta. rewrite (react_connect_running info n k g i opts Hi Ho).
  destruct (attach_spec (sessionKey n k) n i g)
    as (Hc & _ & _ & Ha & _ & conn & _ & Hl & _ & _ & Hs & _).
  cbv zeta in *. split; [exact Ha|].
  rewrite Hc in Hl.
  destruct (close_event_gauge _ _ _ Hl) as (Hg & _).
  by rewrite Hg, Hs, value_dec, Ha.
Qed.

Lemma reconnection_lowers_gauge_witness :
  value (activeConnections (serve [Connect calendar_plugin (js "gcalendar") (js "alice");
                                   Close 0] empty)) (js "gcalendar") = 0%Z
  /\ value (activeConnections
              (serve [Connect calendar_plugin (js "gcalendar") (js "alice"); Close 0;
                      Connect calendar_plugin (js "gcalendar") (js "alice"); Close 1]
                 empty)) (js "gcalendar") = (-1)%Z.
Proof.
  split; [vm_compute; reflexivity|].
  destruct (reconnection_lowers_gauge calendar_plugin (js "gcalendar") (js "alice")
              (serve [Connect calendar_plugin (js "gcalendar") (js "alice"); Close 0]
                 empty) 0%nat
              (JObj [(js "server_name", JStr (js "gcalendar-server"))]))
    as (_ & Hv); [vm_compute; reflexivity | reflexivity |].
  exact Hv.
Defined.

(** X13.  When a session connects again while an earlier connection
    of it is still open, the ['close'] event of the earlier one
    unregisters the transport of the new one: a message posted to the
    session is answered 404 although the new connection is open, its
    inbound stream not destroyed and its response not ended. *)
Theorem stale_close_cuts_off_the_new_connection
  info n k g c_old old i opts body :
  connections g !! c_old = Some old ->
  conn_session old = sessionKey n k ->
  userServerInstances g !! sessionKey n k = Some i ->
  options_call (getInitializationOptions info) i = Return opts ->
  let c := length (connections g) in
  let g2 := close_event c_old (react g (Connect info n k)) in
  userSessionTransports (react g (Connect info n k)) !! sessionKey n k = Some c
  /\ message_route n k body g2 = (404%Z, g2)
  /\ exists conn,
       connections g2 !! c = Some conn
       /\ conn_session conn = sessionKey n k
       /\ destroyed (readStream conn) = false
       /\ writeStream_ended conn = false
       /\ writableEnded (reply_raw conn) = false.
Proof.
  intros Hold Hs Hi Ho. cbv zeta.
  rewrite (react_connect_running info n k g i opts Hi Ho).
  pose proof (attach_lookup_old (sessionKey n k) n i g c_old old Hold) as Hold'.
  destruct (close_event_gauge _ _ _ Hold') as (_ & Ht & _).
  split; [|split].
  - unfold attach. cbn [snd userSessionTransports]. apply lookup_insert_eq.
  - unfold message_route. cbv zeta. by rewrite Ht, Hs, lookup_delete_eq.
  - assert (Hne : c_old <> length (connections g)).
    { apply lookup_lt_Some in Hold. lia. }
    unfold close_event. rewrite Hold'.
    rewrite update_connection_lookup_ne by exact Hne.
    unfold attach. cbn [snd delete_and_dec connections].
    rewrite lookup_app_r by lia. rewrite Nat.sub_diag.
    eexists. split; [reflexivity|]. done.
Qed.

Lemma stale_close_cuts_off_the_new_connection_witness :
  let g2 := serve [Connect calendar_plugin (js "gcalendar") (js "alice");
                   Connect calendar_plugin (js "gcalendar") (js "alice");
                   Close 0] empty in
  message_route (js "gcalendar") (js "alice") (JStr (js "ping")) g2 = (404%Z, g2)
  /\ exists conn,
       connections g2 !! 1%nat = Some conn
       /\ destroyed (readStream conn) = false
       /\ writableEnded (reply_raw conn) = false.
Proof.
  intros g2.
  destruct (stale_close_cuts_off_the_new_connection calendar_plugin
              (js "gcalendar") (js "alice")
              (serve [Connect calendar_plugin (js "gcalendar") (js "alice")] empty)
              0%nat
              {| conn_session := sessionKey (js "gcalendar") (js "alice");
                 conn_server := js "gcalendar"; conn_instance := 0;
                 reply_raw := {| writableEnded := false;
                                 sent := [connection_established] |};
                 readStream := createMessageEmitter; writeStream_ended := false |}
              0%nat (JObj [(js "server_name", JStr (js "gcalendar-server"))])
              (JStr (js "ping")))
    as (_ & Hpost & conn & Hc & _ & Hd & _ & Hw).
  - vm_compute. reflexivity.
  - reflexivity.
  - vm_compute. reflexivity.
  - reflexivity.
  - split; [exact Hpost|]. exists conn. split; [exact Hc|]. split; [exact Hd | exact Hw].
Defined.

(** *** A plugin whose options cannot be computed *)

Lemma run_threw_open c g conn t :
  connections g !! c = Some conn ->
  userSessionTransports g !! conn_session conn = Some t ->
  writableEnded (reply_raw conn) = false ->
  connections (run_settled run_threw c g) !! c
  = Some (release_streams (on_reply (fun r => raw_end (raw_write error_event r)) conn)).
Proof.
  intros H Ht Hw. unfold run_settled. rewrite H. simpl. rewrite Ht.
  assert (Hl : connections
                 (delete_and_dec (conn_session conn) (conn_server conn)
                    (update_connection c
                       (on_reply (fun r => if negb (writableEnded r)
                                           then raw_end (raw_write error_event r)
                                           else r)) g)) !! c
               = Some (on_reply (fun r => raw_end (raw_write error_event r)) conn)).
  { cbn [delete_and_dec connections].
    rewrite (update_connection_lookup c _ g conn H).
    unfold on_reply. by rewrite Hw. }
  rewrite Hl. apply list_lookup_insert_eq. by eapply lookup_lt_Some.
Qed.

Lemma sse_route_failing info n k g message :
  userServerInstances g !! sessionKey n k = None ->
  createServerInstance (serverFactory info)
    (fst (parse_session k)) (snd (parse_session k)) = Return tt ->
  options_call (getInitializationOptions info) (length (created g)) = Throw message ->
  sse_route info n k g
  = Return (length (connections g),
            run_settled run_threw (length (connections g))
              (snd (attach (sessionKey n k) n (length (created g))
                      {| userServerInstances :=
                           <[sessionKey n k := length (created g)]>
                             (userServerInstances g);
                         userSessionTransports := userSessionTransports g;
                         activeConnections := inc n (activeConnections g);
                         connectionTotal := connectionTotal g;
                         created := created g ++ [(fst (parse_session k),
                                                   snd (parse_session k))];
                         connections := connections g |}))).
Proof.
  intros Hi Hf Ho. unfold sse_route, get_or_create. rewrite Hi, Hf.
  cbn [mbind completion_bind]. unfold attach. cbv zeta.
  cbn [created connections snd]. by rewrite Ho.
Qed.

(** X14.  When [getInitializationOptions] throws for the instance of a
    new session, the SSE route still returns: the client is sent the
    opening comment and one [event: error], the response is ended, the
    streams are released and the transport is unregistered; the
    instance stays registered, the gauge is back at its value and the
    counter of connections has grown by one. *)
Theorem options_failure_closes_the_connection info n k g message :
  userServerInstances g !! sessionKey n k = None ->
  createServerInstance (serverFactory info)
    (fst (parse_session k)) (snd (parse_session k)) = Return tt ->
  options_call (getInitializationOptions info) (length (created g)) = Throw message ->
  let c := length (connections g) in
  let g1 := react g (Connect info n k) in
  sse_route info n k g = Return (c, g1)
  /\ (exists conn,
        connections g1 !! c = Some conn
        /\ reply_raw conn
           = {| writableEnded := true; sent := [connection_established; error_event] |}
        /\ destroyed (readStream conn) = true
        /\ writeStream_ended conn = true)
  /\ userSessionTransports g1 !! sessionKey n k = None
  /\ userServerInstances g1 !! sessionKey n k = Some (length (created g))
  /\ value (activeConnections g1) n = value (activeConnections g) n
  /\ value (connectionTotal g1) n = (value (connectionTotal g) n + 1)%Z.
Proof.
  intros Hi Hf Ho. cbv zeta. cbn [react].
  rewrite (sse_route_failing info n k g message Hi Hf Ho).
  split; [reflexivity|].
  set (c := length (connections g)).
  match goal with
  | |- context [run_settled run_threw c ?g0] => set (g0' := g0)
  end.
  set (conn0 := {| conn_session := sessionKey n k; conn_server := n;
                   conn_instance := length (created g);
                   reply_raw := {| writableEnded := false;
                                   sent := [connection_established] |};
                   readStream := createMessageEmitter;
                   writeStream_ended := false |}).
  assert (Hconn : connections g0' !! c = Some conn0).
  { subst g0' c. unfold attach. cbn [snd connections]. rewrite lookup_app_r by lia.
    by rewrite Nat.sub_diag. }
  assert (Ht : userSessionTransports g0' !! conn_session conn0 = Some c).
  { subst g0'. unfold attach. cbn [snd userSessionTransports conn_session conn0].
    apply lookup_insert_eq. }
  destruct (run_settled_registered run_threw c g0' conn0 c Hconn Ht) as (Hg & Htr & _).
  destruct (run_settled_keeps run_threw c g0') as (Hin & _).
  destruct (run_settled_total run_threw c g0') as (Htot & _).
  split; [|split; [|split; [|split]]].
  - eexists. split; [by apply (run_threw_open c g0' conn0 c)|]. done.
  - rewrite Htr. apply lookup_delete_eq.
  - rewrite Hin. subst g0'. unfold attach. cbn [snd userServerInstances].
    apply lookup_insert_eq.
  - rewrite Hg. subst g0'. unfold attach. cbn [snd activeConnections conn_server conn0].
    rewrite value_dec, value_inc. lia.
  - rewrite Htot. subst g0'. unfold attach. cbn [snd connectionTotal].
    by rewrite value_inc.
Qed.

Lemma options_failure_closes_the_connection_witness :
  let g1 := serve [Connect fragile_plugin (js "gcalendar") (js "alice")] empty in
  (exists conn,
     connections g1 !! 0%nat = Some conn
     /\ reply_raw conn
        = {| writableEnded := true; sent := [connection_established; error_event] |}
     /\ destroyed (readStream conn) = true
     /\ writeStream_ended conn = true)
  /\ userSessionTransports g1 !! sessionKey (js "gcalendar") (js "alice") = None
  /\ userServerInstances g1 !! sessionKey (js "gcalendar") (js "alice") = Some 0%nat.
Proof.
  intros g1.
  destruct (options_failure_closes_the_connection fragile_plugin (js "gcalendar")
              (js "alice") empty (js "capabilities unavailable"))
    as (_ & Hconn & Ht & Hi & _); [reflexivity | reflexivity | reflexivity |].
  split; [exact Hconn|]. split; [exact Ht | exact Hi].
Defined.

End ConnectionProofs.

(** ** Plugins that load and plugins that run *)

Module LookupProofs.
Import Sse Registry Gateway GatewayProofs RegistryProofs Lookup Outbound.
Import SessionProofs ConnectionProofs.

(** *** A [server] export that is not a function *)

(** X15.  A plugin whose [server] export is an object rather than a
    function passes both checks of [loadServerModule] and is
    discovered, yet can never run: for a session without an instance the
    SSE route throws "Invalid server factory" and leaves the gateway
    untouched, and [runStdioServer] is rejected with the same error. *)
Theorem object_export_loads_but_never_runs h entry m :
  isDirectory entry = true ->
  access h (main_file h entry) = true ->
  import h (main_file h entry) = Return m ->
  typeof (server m) = TObject ->
  options_typeof (module_getInitializationOptions m) = TFunction ->
  let info := {| serverFactory := server m;
                 getInitializationOptions := module_getInitializationOptions m |} in
  loads h entry = Some info
  /\ (forall n k g,
        userServerInstances g !! sessionKey n k = None ->
        sse_route info n k g = Throw (js "Invalid server factory")
        /\ react g (Connect info n k) = g)
  /\ (forall userId run,
        runStdioServer info userId run = Throw (js "Invalid server factory")).
Proof.
  intros Hd Ha Hi Ht Ho. cbv zeta. split; [|split].
  - unfold loads. fold (main_file h entry). by rewrite Hd, Ha, Hi, Ht, Ho.
  - intros n k g Hk.
    assert (Hr : sse_route {| serverFactory := server m;
                              getInitializationOptions := module_getInitializationOptions m |}
                   n k g = Throw (js "Invalid server factory")).
    { unfold sse_route, get_or_create. rewrite Hk.
      unfold createServerInstance. cbn [serverFactory]. by rewrite Ht. }
    split; [exact Hr|]. cbn [react]. by rewrite Hr.
  - intros userId run. unfold runStdioServer, createServerInstance.
    cbn [serverFactory]. by rewrite Ht.
Qed.

Lemma object_export_loads_but_never_runs_witness :
  (exists info, fst (discoverAndLoadServers notes_host) !! js "notes" = Some info)
  /\ sse_route {| serverFactory := server instance_module;
                  getInitializationOptions :=
                    module_getInitializationOptions instance_module |}
       (js "notes") (js "alice") empty
     = Throw (js "Invalid server factory").
Proof.
  split; [eexists; vm_compute; reflexivity|].
  destruct (object_export_loads_but_never_runs notes_host
              {| name := js "notes"; isDirectory := true |} instance_module)
    as (_ & Hroute & _);
    [reflexivity | reflexivity | vm_compute; reflexivity | reflexivity | reflexivity |].
  apply Hroute. reflexivity.
Defined.

(** *** [getServer] *)

(** X16.  [getServer] caches what it loads and nothing else: an entry
    it returns is in the map afterwards, the other names are as before,
    and asking again returns the same entry without looking at the
    file system, whatever has become of it; a lookup that fails leaves
    the map unchanged, so that it is tried again the next time. *)
Theorem lookup_caches_successes_only h stat serverName discoveredServers :
  match getServer h stat serverName discoveredServers with
  | (Some info, discovered', lines) =>
      discovered' !! serverName = Some info
      /\ (forall other, other <> serverName ->
            discovered' !! other = discoveredServers !! other)
      /\ (forall h' stat',
            getServer h' stat' serverName discovered' = (Some info, discovered', []))
  | (None, discovered', lines) => discovered' = discoveredServers
  end.
Proof.
  unfold getServer.
  destruct (discoveredServers !! serverName) as [info|] eqn:Hd.
  - split; [exact Hd|]. split; [done|]. intros h' stat'. by rewrite Hd.
  - destruct (stat (path_join (SERVERS_DIR h) serverName)) as [[|]|]; try done.
    destruct (loadServerModule h serverName (path_join (SERVERS_DIR h) serverName))
      as [[[m|]|message] lines]; [|done|done].
    cbv zeta. split; [apply lookup_insert_eq|]. split.
    + intros other Hne. by apply lookup_insert_ne.
    + intros h' stat'. by rewrite lookup_insert_eq.
Qed.

(** X17.  For a name whose directory exists, the lookup on demand of
    the stdio mode finds what discovery finds: with an empty map,
    [getServer] returns the entry that passes the two checks of
    [loadServerModule] for this directory, hence every plugin that
    [discoverAndLoadServers] yields under this name. *)
Theorem lookup_agrees_with_discovery h stat serverName :
  stat (path_join (SERVERS_DIR h) serverName) = Return true ->
  fst (fst (getServer h stat serverName ∅))
  = loads h {| name := serverName; isDirectory := true |}
  /\ (forall entries info,
        readdir h = Return entries ->
        fst (discoverAndLoadServers h) !! serverName = Some info ->
        fst (fst (getServer h stat serverName ∅)) = Some info).
Proof.
  intros Hs.
  assert (Hg : fst (fst (getServer h stat serverName ∅))
               = loads h {| name := serverName; isDirectory := true |}).
  { unfold getServer. rewrite lookup_empty, Hs.
    pose proof (loadServerModule_loads h {| name := serverName; isDirectory := true |}
                  eq_refl) as H.
    cbn [name] in H.
    destruct (loads h {| name := serverName; isDirectory := true |}) as [info|].
    - destruct H as (m & -> & ->). done.
    - destruct H as [[_ ->] | [[_ [message ->]] | [_ (typeError & _ & ->)]]]; done. }
  split; [exact Hg|].
  intros entries info Hr Hl. rewrite Hg.
  unfold discoverAndLoadServers in Hl. rewrite Hr in Hl.
  apply load_entries_sound in Hl as [Hl|(entry & _ & Hn & Hload)];
    [cbn [fst] in Hl; by rewrite lookup_empty in Hl|].
  rewrite <- Hload. unfold loads. cbn [name isDirectory].
  rewrite Hn. by rewrite (loads_directory _ _ _ Hload).
Qed.

Lemma lookup_caches_successes_only_witness :
  fst (fst (getServer emptied_host stat_missing (js "gcalendar")
              (snd (fst (getServer sample_host stat_directory (js "gcalendar") ∅)))))
  = Some calendar_plugin.
Proof.
  assert (Hg : fst (fst (getServer sample_host stat_directory (js "gcalendar") ∅))
               = Some calendar_plugin) by (vm_compute; reflexivity).
  pose proof (lookup_caches_successes_only sample_host stat_directory
                (js "gcalendar") ∅) as H.
  destruct (getServer sample_host stat_directory (js "gcalendar") ∅)
    as [[[info|] discovered'] lines]; [|discriminate Hg].
  cbn [fst snd] in *. injection Hg as ->.
  destruct H as (_ & _ & H). by rewrite H.
Defined.

Lemma lookup_agrees_with_discovery_witness :
  fst (fst (getServer sample_host stat_directory (js "gcalendar") ∅))
  = Some calendar_plugin
  /\ fst (fst (getServer sample_host stat_directory (js "broken") ∅)) = None.
Proof.
  split.
  - rewrite (proj1 (lookup_agrees_with_discovery sample_host stat_directory
                      (js "gcalendar") eq_refl)).
    vm_compute. reflexivity.
  - rewrite (proj1 (lookup_agrees_with_discovery sample_host stat_directory
                      (js "broken") eq_refl)).
    vm_compute. reflexivity.
Defined.

End LookupProofs.

(** ** Writes of a plugin after the teardown *)

Module OutboundProofs.
Import Sse Registry Gateway GatewayProofs Lookup Outbound.
Import SessionProofs ConnectionProofs.

Lemma update_connection_at c f g c' :
  connections (update_connection c f g) !! c'
  = if decide (c' = c) then f <$> connections g !! c' else connections g !! c'.
Proof.
  unfold update_connection. cbn [connections].
  destruct (decide (c' = c)) as [->|Hne].
  - destruct (connections g !! c) as [conn|] eqn:Hc.
    + rewrite list_lookup_insert_eq by by eapply lookup_lt_Some. done.
    + by rewrite Hc.
  - destruct (connections g !! c) as [conn|] eqn:Hc; [|done].
    by rewrite list_lookup_insert_ne.
Qed.

Lemma run_settled_at result c g c' :
  connections (run_settled result c g) !! c'
  = if decide (c' = c)
    then (fun conn =>
            release_streams
              (on_reply (fun r => if negb (writableEnded r) then
                                    match result with
                                    | run_returned => raw_end r
                                    | run_threw => raw_end (raw_write error_event r)
                                    end
                                  else r) conn)) <$> connections g !! c'
    else connections g !! c'.
Proof.
  unfold run_settled. destruct (connections g !! c) as [conn|] eqn:Hc.
  - cbv zeta.
    match goal with
    | |- context [update_connection c release_streams ?g2] => set (G2 := g2)
    end.
    rewrite update_connection_at.
    assert (HG : connections G2
                 = connections (update_connection c
                     (on_reply (fun r => if negb (writableEnded r) then
                                           match result with
                                           | run_returned => raw_end r
                                           | run_threw => raw_end (raw_write error_event r)
                                           end
                                         else r)) g)).
    { subst G2.
      match goal with
      | |- context [match ?t with Some _ => _ | None => _ end] => by destruct t
      end. }
    rewrite HG, update_connection_at.
    destruct (decide (c' = c)) as [->|Hne]; [|done].
    rewrite Hc. done.
  - destruct (decide (c' = c)) as [->|Hne]; [|done]. by rewrite Hc.
Qed.

Lemma close_event_at c g c' :
  connections (close_event c g) !! c'
  = if decide (c' = c) then release_streams <$> connections g !! c'
    else connections g !! c'.
Proof.
  unfold close_event. destruct (connections g !! c) as [conn|] eqn:Hc.
  - rewrite update_connection_at. by cbn [delete_and_dec connections].
  - destruct (decide (c' = c)) as [->|Hne]; [|done]. by rewrite Hc.
Qed.

(** How one occurrence changes a connection that exists. *)
Lemma react_connection g o c conn :
  connections g !! c = Some conn ->
  exists conn',
    connections (react g o) !! c = Some conn'
    /\ (writeStream_ended conn = true -> writeStream_ended conn' = true)
    /\ (writableEnded (reply_raw conn) = true -> reply_raw conn' = reply_raw conn)
    /\ (writableEnded (reply_raw conn') = true ->
        writableEnded (reply_raw conn) = true \/ writeStream_ended conn' = true).
Proof.
  intros Hc. destruct o as [info n k|c0|result c0|n k body]; cbn [react].
  - destruct (sse_route info n k g) as [[c1 g']|] eqn:Hr.
    + assert (Hl : connections g' !! c = Some conn).
      { revert Hr. unfold sse_route, get_or_create. cbv zeta.
        destruct (userServerInstances g !! sessionKey n k) as [i|].
        - cbn [mbind completion_bind]. unfold attach. cbv zeta.
          destruct (options_call _ _); intros [= <- <-].
          + cbn [connections]. by apply lookup_app_l_Some.
          + rewrite run_settled_at. cbn [connections].
            destruct (decide (c = length (connections g))) as [->|Hne].
            * apply lookup_lt_Some in Hc. lia.
            * by apply lookup_app_l_Some.
        - destruct (createServerInstance _ _ _) as [[]|]; [|done].
          cbn [mbind completion_bind]. unfold attach. cbv zeta.
          cbn [connections created].
          destruct (options_call _ _); intros [= <- <-].
          + cbn [connections]. by apply lookup_app_l_Some.
          + rewrite run_settled_at. cbn [connections].
            destruct (decide (c = length (connections g))) as [->|Hne].
            * apply lookup_lt_Some in Hc. lia.
            * by apply lookup_app_l_Some. }
      exists conn. split; [exact Hl|]. tauto.
    + exists conn. split; [exact Hc|]. tauto.
  - rewrite close_event_at. destruct (decide (c = c0)) as [->|Hne].
    + rewrite Hc. eexists. split; [reflexivity|]. cbn. tauto.
    + exists conn. split; [exact Hc|]. tauto.
  - rewrite run_settled_at. destruct (decide (c = c0)) as [->|Hne].
    + rewrite Hc. eexists. split; [reflexivity|].
      cbn [fmap option_fmap option_map release_streams on_reply writeStream_ended reply_raw].
      split; [done|]. split; [|tauto].
      intros Hw. by rewrite Hw.
    + exists conn. split; [exact Hc|]. tauto.
  - unfold message_route. cbv zeta.
    destruct (userSessionTransports g !! sessionKey n k) as [t|]; cbn [snd].
    + rewrite update_connection_at. destruct (decide (c = t)) as [->|Hne].
      * rewrite Hc. eexists. split; [reflexivity|]. cbn. tauto.
      * exists conn. split; [exact Hc|]. tauto.
    + exists conn. split; [exact Hc|]. tauto.
Qed.

(** The connection an occurrence creates. *)
Lemma react_new_connection g o c conn' :
  connections g !! c = None ->
  connections (react g o) !! c = Some conn' ->
  writableEnded (reply_raw conn') = true -> writeStream_ended conn' = true.
Proof.
  intros Hc. destruct o as [info n k|c0|result c0|n k body]; cbn [react].
  - destruct (sse_route info n k g) as [[c1 g']|] eqn:Hr; [|congruence].
    revert Hr. unfold sse_route, get_or_create. cbv zeta.
    assert (Hnew : forall key i (g0 : gateway) conn0,
              connections g0 = connections g ->
              (connections g0 ++ [{| conn_session := key; conn_server := n;
                                     conn_instance := i;
                                     reply_raw := {| writableEnded := false;
                                                     sent := [connection_established] |};
                                     readStream := createMessageEmitter;
                                     writeStream_ended := false |}]) !! c = Some conn0 ->
              c = length (connections g)
              /\ conn0 = {| conn_session := key; conn_server := n;
                            conn_instance := i;
                            reply_raw := {| writableEnded := false;
                                            sent := [connection_established] |};
                            readStream := createMessageEmitter;
                            writeStream_ended := false |}).
    { intros key i g0 conn0 Hg0 Hl. rewrite Hg0 in Hl.
      apply lookup_ge_None in Hc.
      rewrite lookup_app_r in Hl by exact Hc.
      destruct (c - length (connections g))%nat as [|j] eqn:Hj;
        cbn in Hl; [|done].
      injection Hl as <-. split; [lia | done]. }
    destruct (userServerInstances g !! sessionKey n k) as [i|].
    + cbn [mbind completion_bind]. unfold attach. cbv zeta.
      destruct (options_call _ _); intros [= <- <-].
      * cbn [connections]. intros Hl.
        destruct (Hnew _ _ g _ eq_refl Hl) as [_ ->]. done.
      * rewrite run_settled_at. cbn [connections].
        destruct (decide (c = length (connections g))) as [->|Hne].
        -- intros (x & _ & ->)%fmap_Some. done.
        -- intros Hl. destruct (Hnew _ _ g _ eq_refl Hl) as [-> _]. done.
    + destruct (createServerInstance _ _ _) as [[]|]; [|done].
      cbn [mbind completion_bind]. unfold attach. cbv zeta.
      cbn [connections created].
      destruct (options_call _ _); intros [= <- <-].
      * cbn [connections]. intros Hl.
        destruct (Hnew _ _ g _ eq_refl Hl) as [_ ->]. done.
      * rewrite run_settled_at. cbn [connections].
        destruct (decide (c = length (connections g))) as [->|Hne].
        -- intros (x & _ & ->)%fmap_Some. done.
        -- intros Hl. destruct (Hnew _ _ g _ eq_refl Hl) as [-> _]. done.
  - rewrite close_event_at. destruct (decide (c = c0)); rewrite Hc; done.
  - rewrite run_settled_at. destruct (decide (c = c0)); rewrite Hc; done.
  - unfold message_route. cbv zeta.
    destruct (userSessionTransports g !! sessionKey n k) as [t|]; cbn [snd];
      [|congruence].
    rewrite update_connection_at. destruct (decide (c = t)); rewrite Hc; done.
Qed.

Lemma ended_response_ended_stream history : forall c conn,
  connections (serve history empty) !! c = Some conn ->
  writableEnded (reply_raw conn) = true -> writeStream_ended conn = true.
Proof.
  induction history as [|o history IH] using rev_ind; intros c conn.
  - cbn [serve fold_left empty connections]. by rewrite lookup_nil.
  - rewrite serve_snoc. intros Hc Hw.
    destruct (connections (serve history empty) !! c) as [old|] eqn:Hold.
    + destruct (react_connection _ o _ _ Hold) as (conn' & Hc' & H1 & _ & H3).
      rewrite Hc in Hc'. injection Hc' as <-.
      destruct (H3 Hw) as [Hw'|He]; [|exact He].
      apply H1. by eapply IH.
    + by eapply react_new_connection.
Qed.

(** X18.  In every state the gateway can reach, a response that has
    been ended belongs to a connection whose outbound stream has been
    ended too.  So a write of the plugin either is refused by the
    stream, or is sent as one event on an open response: the branch
    "Cannot write to closed SSE stream" of the write function is never
    reached. *)
Theorem write_reaches_an_open_response_only history c conn text :
  connections (serve history empty) !! c = Some conn ->
  (writableEnded (reply_raw conn) = true -> writeStream_ended conn = true)
  /\ connection_write c text (serve history empty)
     = if writeStream_ended conn then (serve history empty, true)
       else (update_connection c
               (on_reply (raw_write (data_lines text ++ [10; 10])))
               (serve history empty), false).
Proof.
  intros Hc.
  pose proof (ended_response_ended_stream history c conn Hc) as Hinv.
  split; [exact Hinv|].
  unfold connection_write. rewrite Hc.
  destruct (writeStream_ended conn) eqn:He; [done|].
  unfold writeStream_write. cbn [dataString].
  destruct (writableEnded (reply_raw conn)) eqn:Hw.
  - specialize (Hinv eq_refl). congruence.
  - cbn [negb]. f_equal.
    unfold update_connection. rewrite Hc. done.
Qed.

Lemma write_reaches_an_open_response_only_witness :
  sent_to 0 (fst (connection_write 0 (js "hello") (serve connected empty)))
  = [connection_established; js "data: hello" ++ [10; 10]]
  /\ snd (connection_write 0 (js "hello") (serve connected empty)) = false.
Proof.
  destruct (write_reaches_an_open_response_only connected 0
              {| conn_session := sessionKey (js "gcalendar") (js "alice");
                 conn_server := js "gcalendar"; conn_instance := 0;
                 reply_raw := {| writableEnded := false;
                                 sent := [connection_established] |};
                 readStream := createMessageEmitter; writeStream_ended := false |}
              (js "hello")) as [_ Hw]; [vm_compute; reflexivity|].
  rewrite Hw. split; vm_compute; reflexivity.
Defined.

Lemma serve_connection history : forall g c conn,
  connections g !! c = Some conn ->
  exists conn',
    connections (serve history g) !! c = Some conn'
    /\ (writeStream_ended conn = true -> writeStream_ended conn' = true)
    /\ (writableEnded (reply_raw conn) = true -> reply_raw conn' = reply_raw conn).
Proof.
  induction history as [|o history IH]; intros g c conn Hc.
  - exists conn. split; [exact Hc|]. tauto.
  - cbn [serve fold_left].
    destruct (react_connection g o c conn Hc) as (conn1 & Hc1 & H1 & H2 & _).
    destruct (IH (react g o) c conn1 Hc1) as (conn' & Hc' & H1' & H2').
    exists conn'. split; [exact Hc'|]. split.
    + tauto.
    + intros Hw. rewrite <- (H2 Hw). apply H2'. by rewrite (H2 Hw).
Qed.

(** X19.  After the teardown of a connection, by the ['close'] event
    or by the end of [run], every write of the plugin on its outbound
    stream is refused, whatever the gateway does in between; after the
    end of [run] nothing at all is added to what the client was
    sent. *)
Theorem no_write_after_teardown g c conn history text :
  connections g !! c = Some conn ->
  connection_write c text (serve history (close_event c g))
  = (serve history (close_event c g), true)
  /\ (forall result,
        connection_write c text (serve history (run_settled result c g))
        = (serve history (run_settled result c g), true)
        /\ sent_to c (serve history (run_settled result c g))
           = sent_to c (run_settled result c g)).
Proof.
  intros Hc. split.
  - assert (Hl : connections (close_event c g) !! c = Some (release_streams conn)).
    { rewrite close_event_at, decide_True by done. by rewrite Hc. }
    destruct (serve_connection history _ _ _ Hl) as (conn' & Hc' & He & _).
    unfold connection_write. rewrite Hc'. by rewrite He.
  - intros result.
    pose proof (run_settled_at result c g c) as Hl.
    rewrite decide_True, Hc in Hl by done. cbn [fmap option_fmap option_map] in Hl.
    destruct (serve_connection history _ _ _ Hl) as (conn' & Hc' & He & Hr).
    split.
    + unfold connection_write. rewrite Hc'. by rewrite He.
    + unfold sent_to. rewrite Hc', Hl. rewrite Hr; [done|].
      cbn [release_streams on_reply reply_raw].
      destruct (writableEnded (reply_raw conn)) eqn:Hw; cbn [negb]; [done|].
      by destruct result.
Qed.

Lemma no_write_after_teardown_witness :
  snd (connection_write 0 (js "late")
         (serve [Post (js "gcalendar") (js "alice") (JStr (js "ping"))]
            (close_event 0 (serve connected empty)))) = true
  /\ sent_to 0 (serve [Close 0] (run_settled run_threw 0 (serve connected empty)))
     = [connection_established; error_event].
Proof.
  destruct (no_write_after_teardown (serve connected empty) 0
              {| conn_session := sessionKey (js "gcalendar") (js "alice");
                 conn_server := js "gcalendar"; conn_instance := 0;
                 reply_raw := {| writableEnded := false;
                                 sent := [connection_established] |};
                 readStream := createMessageEmitter; writeStream_ended := false |}
              [Post (js "gcalendar") (js "alice") (JStr (js "ping"))] (js "late"))
    as [Hclose _]; [vm_compute; reflexivity|].
  destruct (no_write_after_teardown (serve connected empty) 0
              {| conn_session := sessionKey (js "gcalendar") (js "alice");
                 conn_server := js "gcalendar"; conn_instance := 0;
                 reply_raw := {| writableEnded := false;
                                 sent := [connection_established] |};
                 readStream := createMessageEmitter; writeStream_ended := false |}
              [Close 0] (js "late"))
    as [_ Hrun]; [vm_compute; reflexivity|].
  split.
  - by rewrite Hclose.
  - rewrite (proj2 (Hrun run_threw)). vm_compute. reflexivity.
Defined.

End OutboundProofs.

(** ** The local credential store: users, paths and configuration *)

Module ClientProofs.
Import Auth JSONProofs StoreProofs OAuthConfig.

(** *** Paths *)

Lemma split_slash_plain s :
  forallb (fun c => negb (c =? 47)) s = true -> split_slash s = [s].
Proof.
  induction s as [|c r IH]; [done|]. cbn [forallb split_slash].
  intros [Hc Hr]%andb_true_iff. apply negb_true_iff in Hc. rewrite Hc.
  by rewrite (IH Hr).
Qed.

Lemma split_slash_app s t :
  forallb (fun c => negb (c =? 47)) s = true ->
  split_slash (s ++ 47 :: t) = s :: split_slash t.
Proof.
  induction s as [|c r IH]; [done|]. cbn [forallb app split_slash].
  intros [Hc Hr]%andb_true_iff. apply negb_true_iff in Hc. rewrite Hc.
  by rewrite (IH Hr).
Qed.

Lemma enter_segment p segment :
  JS.eqb segment [] = false -> JS.eqb segment (js ".") = false ->
  JS.eqb segment (js "..") = false -> enter p segment = p ++ [segment].
Proof. intros H1 H2 H3. unfold enter. by rewrite H1, H2, H3. Qed.

Lemma eqb_false_length (a b : jsstring) : length a <> length b -> JS.eqb a b = false.
Proof. intros H. apply bool_decide_eq_false. intros ->. done. Qed.

Lemma enter_long p segment :
  (2 < length segment)%nat -> enter p segment = p ++ [segment].
Proof.
  intros H. apply enter_segment; apply eqb_false_length; cbn [length js]; try lia.
  - change (length (js ".")) with 1%nat. lia.
  - change (length (js "..")) with 2%nat. lia.
Qed.

Lemma forallb_app_true {A} (f : A -> bool) l1 l2 :
  forallb f l1 = true -> forallb f l2 = true -> forallb f (l1 ++ l2) = true.
Proof. intros H1 H2. rewrite forallb_app. by rewrite H1, H2. Qed.

Lemma credsPath_plain ps this serviceName userId :
  forallb (fun c => negb (c =? 47)) userId = true ->
  credsPath ps this serviceName userId
  = serviceDir ps this serviceName ++ [userId ++ js "_credentials.json"].
Proof.
  intros Hu. unfold credsPath, join_from.
  rewrite split_slash_plain by (apply forallb_app_true; [exact Hu | reflexivity]).
  cbn [fold_left]. apply enter_long. rewrite length_app.
  change (length (js "_credentials.json")) with 17%nat. lia.
Qed.

(** *** Users of one service *)

Lemma lookup_files_insert_ne (fs : files) p q n : p <> q -> <[p := n]> fs !! q = fs !! q.
Proof. intros H. by apply lookup_insert_ne. Qed.

(** X20.  Saving the credentials of one user of a service changes
    nothing for another user of this service: for user ids without a
    path separator, what [getUserCredentials] returns or throws for the
    other user is the same after the save as before. *)
Theorem users_do_not_interfere ps this serviceName userA userB credentials fs fs' :
  forallb (fun c => negb (c =? 47)) userA = true ->
  forallb (fun c => negb (c =? 47)) userB = true ->
  userA <> userB ->
  saveUserCredentials ps this serviceName userA credentials fs = Return fs' ->
  ('(stored, _) ← getUserCredentials ps this serviceName userB fs'; Return stored)
  = ('(stored, _) ← getUserCredentials ps this serviceName userB fs; Return stored).
Proof.
  intros HA HB Hne Hsave. unfold saveUserCredentials in Hsave.
  unfold getUserCredentials.
  destruct (truthy_string (credentialsBaseDir this)); [|done]. cbn [negb] in *.
  destruct (mkdirSync (serviceDir ps this serviceName) fs) as [fs1|] eqn:Hmk; [|done].
  cbn [mbind completion_bind] in Hsave.
  set (pA := credsPath ps this serviceName userA) in *.
  set (pB := credsPath ps this serviceName userB) in *.
  assert (Hw : writeFileSync pA (stringify credentials) fs1 = Return fs')
    by by destruct credentials.
  destruct (writeFileSync_returns _ _ _ _ Hw) as (Hp & Hnd & ->).
  pose proof (mkdir_from_dirs _ _ _ _ Hmk) as Hdirs.
  assert (Hnoop : mkdirSync (serviceDir ps this serviceName)
                    (<[pA := File (utf8_text (stringify credentials))]> fs1)
                  = Return (<[pA := File (utf8_text (stringify credentials))]> fs1)).
  { apply mkdir_from_noop. intros i Hi. rewrite lookup_insert_ne; [by apply Hdirs|].
    intros Heq. apply Hnd. rewrite Heq. by apply Hdirs. }
  rewrite Hnoop. cbn [mbind completion_bind].
  assert (Hpaths : pA <> pB).
  { subst pA pB. rewrite !credsPath_plain by done.
    intros Heq. apply app_inv_head in Heq. injection Heq as Heq.
    apply app_inv_tail in Heq. done. }
  assert (HpB : pB <> []).
  { subst pB. rewrite credsPath_plain by done. by destruct (serviceDir ps this serviceName). }
  assert (Hex : existsSync pB (<[pA := File (utf8_text (stringify credentials))]> fs1)
                = existsSync pB fs1).
  { destruct pB; [done|]. unfold existsSync. by rewrite lookup_files_insert_ne. }
  assert (Hrd : readFileSync pB (<[pA := File (utf8_text (stringify credentials))]> fs1)
                = readFileSync pB fs1).
  { destruct pB; [done|]. unfold readFileSync. by rewrite lookup_files_insert_ne. }
  rewrite Hex, Hrd.
  destruct (existsSync pB fs1); cbn [negb mbind completion_bind]; [|done].
  destruct (readFileSync pB fs1) as [data|]; cbn [mbind completion_bind]; [|done].
  by destruct (JSON.parse data).
Qed.

Lemma users_do_not_interfere_witness :
  ('(stored, _) ← getUserCredentials sample_process sample_client (js "gcalendar")
                    (js "bob") sample_saved; Return stored)
  = Return None.
Proof.
  rewrite (users_do_not_interfere sample_process sample_client (js "gcalendar")
             (js "alice") (js "bob") sample_credentials ∅ sample_saved).
  - vm_compute. reflexivity.
  - reflexivity.
  - reflexivity.
  - vm_compute. discriminate.
  - apply returned_value. vm_compute. reflexivity.
Defined.

(** *** A user id with path separators *)

Lemma serviceDir_plain ps this serviceName :
  forallb (fun c => negb (c =? 47)) serviceName = true ->
  (2 < length serviceName)%nat ->
  serviceDir ps this serviceName
  = resolve (cwd ps) (credentialsBaseDir this) ++ [serviceName].
Proof.
  intros Hs Hl. unfold serviceDir, join_from.
  rewrite split_slash_plain by exact Hs. cbn [fold_left]. by apply enter_long.
Qed.

(** X21.  The user id is not confined to the directory of its
    service: for names that are plain path segments of more than two
    units, the credentials of user [../<other>/<user>] of a service are
    the file of [<user>] in the directory of the service [<other>]. *)
Theorem user_id_reaches_another_service ps this serviceName other userId :
  forallb (fun c => negb (c =? 47)) serviceName = true ->
  forallb (fun c => negb (c =? 47)) other = true ->
  forallb (fun c => negb (c =? 47)) userId = true ->
  (2 < length serviceName)%nat -> (2 < length other)%nat ->
  credsPath ps this serviceName (js "../" ++ other ++ [47] ++ userId)
  = credsPath ps this other userId.
Proof.
  intros Hs Ho Hu Hls Hlo.
  rewrite (credsPath_plain ps this other userId Hu).
  rewrite !serviceDir_plain by done.
  unfold credsPath, join_from. rewrite serviceDir_plain by done.
  change (js "../") with (js ".." ++ [47]).
  rewrite <- !app_assoc. cbn [app].
  rewrite (split_slash_app (js "..")) by reflexivity.
  rewrite split_slash_app by exact Ho.
  rewrite split_slash_plain by (apply forallb_app_true; [exact Hu | reflexivity]).
  cbn [fold_left].
  assert (H1 : enter (resolve (cwd ps) (credentialsBaseDir this) ++ [serviceName]) (js "..")
               = resolve (cwd ps) (credentialsBaseDir this)).
  { unfold enter.
    assert (E1 : JS.eqb (js "..") [] || JS.eqb (js "..") (js ".") = false)
      by (vm_compute; reflexivity).
    assert (E2 : JS.eqb (js "..") (js "..") = true) by (vm_compute; reflexivity).
    rewrite E1, E2. apply removelast_last. }
  rewrite H1, (enter_long _ other Hlo).
  rewrite enter_long; [by rewrite <- app_assoc|].
  rewrite length_app. change (length (js "_credentials.json")) with 17%nat. lia.
Qed.

Lemma user_id_reaches_another_service_witness :
  credsPath sample_process sample_client (js "gcalendar")
    (js "../" ++ js "gdrive" ++ [47] ++ js "bob")
  = [js "app"; js "local_auth"; js "credentials"; js "gdrive";
     js "bob_credentials.json"].
Proof.
  rewrite (user_id_reaches_another_service sample_process sample_client
             (js "gcalendar") (js "gdrive") (js "bob"));
    [vm_compute; reflexivity | reflexivity | reflexivity | reflexivity
    | vm_compute; lia | vm_compute; lia].
Defined.

(** *** The constructor of [LocalAuthClient] *)

Lemma join_from_long base segment :
  forallb (fun c => negb (c =? 47)) segment = true -> (2 < length segment)%nat ->
  join_from base segment = base ++ [segment].
Proof.
  intros Hs Hl. unfold join_from. rewrite split_slash_plain by exact Hs.
  cbn [fold_left]. by apply enter_long.
Qed.

Lemma path_text_snoc p segment : truthy_string (path_text (p ++ [segment])) = true.
Proof.
  unfold path_text. rewrite map_app, concat_app. cbn [map concat].
  by destruct (concat (map (fun s => 47 :: s) p)).
Qed.

Lemma first_truthy_truthy a b c :
  truthy_string c = true -> truthy_string (first_truthy a b c) = true.
Proof.
  intros Hc. unfold first_truthy, or_default.
  destruct a as [[|x a]|]; destruct b as [[|y b]|]; done.
Qed.

Lemma mkdirSync_is_dir p fs fs1 :
  mkdirSync p fs = Return fs1 -> is_dir p fs1 = true /\ all_dirs [] p fs1.
Proof.
  intros Hm. pose proof (mkdir_from_dirs _ _ _ _ Hm) as Hd. split; [|exact Hd].
  destruct p as [|segment rest]; [done|].
  assert (Hl : fs1 !! (segment :: rest) = Some Dir).
  { specialize (Hd (length rest)). cbn [length] in Hd.
    rewrite take_ge in Hd by (cbn [length]; lia). apply Hd. lia. }
  unfold is_dir. by rewrite Hl.
Qed.

Lemma all_dirs_keeps p rest fs fs1 :
  all_dirs [] p fs -> mkdirSync rest fs = Return fs1 -> all_dirs [] p fs1.
Proof.
  intros Hd Hm i Hi. eapply mkdir_from_keeps; [exact Hm|]. by apply Hd.
Qed.

Lemma is_dir_keeps p rest fs fs1 :
  is_dir p fs = true -> mkdirSync rest fs = Return fs1 -> is_dir p fs1 = true.
Proof.
  intros Hd Hm. destruct p as [|s p]; [done|]. unfold is_dir in *.
  destruct (fs !! (s :: p)) as [[|]|] eqn:Hl; try done.
  by rewrite (mkdir_from_keeps _ _ _ _ _ _ Hm Hl).
Qed.

(** X22.  A [LocalAuthClient] that has been constructed has its two
    directories: neither field is empty (so "directory not set" is
    never thrown by its methods), both exist as directories afterwards,
    nothing that existed has been changed, and constructing the client
    again finds the file system as it left it. *)
Theorem constructed_client_has_its_directories
  ps oauthConfigBaseDir_arg credentialsBaseDir_arg fs this fs2 :
  LocalAuthClient_new ps oauthConfigBaseDir_arg credentialsBaseDir_arg fs
  = Return (this, fs2) ->
  truthy_string (oauthConfigBaseDir this) = true
  /\ truthy_string (credentialsBaseDir this) = true
  /\ is_dir (resolve (cwd ps) (oauthConfigBaseDir this)) fs2 = true
  /\ is_dir (resolve (cwd ps) (credentialsBaseDir this)) fs2 = true
  /\ (forall p n, fs !! p = Some n -> fs2 !! p = Some n)
  /\ LocalAuthClient_new ps oauthConfigBaseDir_arg credentialsBaseDir_arg fs2
     = Return (this, fs2).
Proof.
  unfold LocalAuthClient_new. cbv zeta.
  set (root := join_from (dirname ps) (js "../../..")).
  rewrite (join_from_long root (js "local_auth")) by first [reflexivity | (vm_compute; lia)].
  rewrite (join_from_long _ (js "oauth_configs")) by first [reflexivity | (vm_compute; lia)].
  rewrite (join_from_long _ (js "credentials")) by first [reflexivity | (vm_compute; lia)].
  set (d1 := first_truthy oauthConfigBaseDir_arg _ _).
  set (d2 := first_truthy credentialsBaseDir_arg _ _).
  assert (H1 : truthy_string d1 = true) by apply first_truthy_truthy, path_text_snoc.
  assert (H2 : truthy_string d2 = true) by apply first_truthy_truthy, path_text_snoc.
  cbn [oauthConfigBaseDir credentialsBaseDir]. rewrite H1, H2.
  destruct (mkdirSync (resolve (cwd ps) d1) fs) as [fs1|] eqn:Hm1; [|done].
  cbn [mbind completion_bind].
  destruct (mkdirSync (resolve (cwd ps) d2) fs1) as [fs2'|] eqn:Hm2; [|done].
  cbn [mbind completion_bind mret completion_ret].
  intros [= <- <-]. cbn [oauthConfigBaseDir credentialsBaseDir].
  destruct (mkdirSync_is_dir _ _ _ Hm1) as [Hd1 Ha1].
  destruct (mkdirSync_is_dir _ _ _ Hm2) as [Hd2 Ha2].
  split; [exact H1|]. split; [exact H2|].
  split; [by eapply is_dir_keeps|]. split; [exact Hd2|]. split.
  - intros p n Hp. eapply mkdir_from_keeps; [exact Hm2|].
    eapply mkdir_from_keeps; [exact Hm1|]. exact Hp.
  - assert (Hn1 : mkdirSync (resolve (cwd ps) d1) fs2' = Return fs2').
    { apply mkdir_from_noop. by eapply all_dirs_keeps. }
    assert (Hn2 : mkdirSync (resolve (cwd ps) d2) fs2' = Return fs2')
      by by apply mkdir_from_noop.
    rewrite Hn1. cbn [mbind completion_bind]. by rewrite Hn2.
Qed.

Lemma constructed_client_has_its_directories_witness :
  let made := value_of (LocalAuthClient_new sample_process None None ∅)
                (sample_client, ∅) in
  credentialsBaseDir (fst made) = js "/app/local_auth/credentials"
  /\ is_dir (resolve (cwd sample_process) (credentialsBaseDir (fst made))) (snd made)
     = true.
Proof.
  intros made. split; [vm_compute; reflexivity|].
  assert (H : LocalAuthClient_new sample_process None None ∅
              = Return (fst made, snd made)).
  { rewrite <- surjective_pairing. apply returned_value. vm_compute. reflexivity. }
  exact (proj1 (proj2 (proj2 (proj2
           (constructed_client_has_its_directories sample_process None None ∅
              (fst made) (snd made) H))))).
Defined.

(** *** [getOAuthConfig] *)



End ClientProofs.

(** ** The handlers of the calendar plugin *)

Module CalendarProofs.
Import Framer FramerFacts FramerProofs Calendar.
Import RequestProofs.

Lemma or_default_prefixed p t d :
  truthy_string p = true -> or_default (Some (p ++ t)) d = p ++ t.
Proof. by destruct p. Qed.

Lemma dispatch_list_resources srv params :
  dispatch srv (Some (JStr (js "list_resources"))) params
  = match listResourcesHandler srv with
    | None => Rejected (method_not_found (Some (JStr (js "list_resources"))))
    | Some handler => handler (or_null (param params 0 (js "cursor")))
    end.
Proof. reflexivity. Qed.

Lemma dispatch_read_resource srv params :
  dispatch srv (Some (JStr (js "read_resource"))) params
  = match readResourceHandler srv with
    | None => Rejected (method_not_found (Some (JStr (js "read_resource"))))
    | Some handler =>
        match param params 0 (js "uri") with
        | Some uri =>
            if truthy uri then handler uri else Rejected (js "Missing parameter: uri")
        | None => Rejected (js "Missing parameter: uri")
        end
    end.
Proof.
  unfold dispatch.
  assert (E1 : JS.eqb (js "read_resource") (js "list_resources") = false)
    by (vm_compute; reflexivity).
  assert (E2 : JS.eqb (js "read_resource") (js "read_resource") = true)
    by (vm_compute; reflexivity).
  by rewrite E1, E2.
Qed.

Lemma dispatch_list_tools srv params :
  dispatch srv (Some (JStr (js "list_tools"))) params
  = match listToolsHandler srv with
    | None => Rejected (method_not_found (Some (JStr (js "list_tools"))))
    | Some handler => handler tt
    end.
Proof.
  unfold dispatch.
  assert (E1 : JS.eqb (js "list_tools") (js "list_resources") = false)
    by (vm_compute; reflexivity).
  assert (E2 : JS.eqb (js "list_tools") (js "read_resource") = false)
    by (vm_compute; reflexivity).
  assert (E3 : JS.eqb (js "list_tools") (js "list_tools") = true)
    by (vm_compute; reflexivity).
  by rewrite E1, E2, E3.
Qed.

Lemma dispatch_call_tool srv params :
  dispatch srv (Some (JStr (js "call_tool"))) params
  = match callToolHandler srv with
    | None => Rejected (method_not_found (Some (JStr (js "call_tool"))))
    | Some handler =>
        match param params 0 (js "name") with
        | Some toolName =>
            if truthy toolName
            then handler toolName (or_null (param params 1 (js "args")))
            else Rejected (js "Missing parameter: name")
        | None => Rejected (js "Missing parameter: name")
        end
    end.
Proof.
  unfold dispatch.
  assert (E1 : JS.eqb (js "call_tool") (js "list_resources") = false)
    by (vm_compute; reflexivity).
  assert (E2 : JS.eqb (js "call_tool") (js "read_resource") = false)
    by (vm_compute; reflexivity).
  assert (E3 : JS.eqb (js "call_tool") (js "list_tools") = false)
    by (vm_compute; reflexivity).
  assert (E4 : JS.eqb (js "call_tool") (js "call_tool") = true)
    by (vm_compute; reflexivity).
  by rewrite E1, E2, E3, E4.
Qed.

(** X24.  A calendar server made without a user id (an empty one
    counts, as for a route parameter that starts with a colon) answers
    [list_resources], [read_resource] and a [call_tool] whose name is a
    string with the error -32603 "User ID is not set for <method>",
    without asking for credentials, and still answers [list_tools] with
    its three tools. *)
Theorem requests_without_user_id w userId apiKey line request id :
  no_user userId = true ->
  JSON.parse line = Some request ->
  invalid_request request = false ->
  get request (js "id") = Some id -> id <> JNull ->
  let srv := createServer w userId apiKey in
  let failure message :=
    [stringify (error_response (-32603) message id) ++ [10]] in
  (get request (js "method") = Some (JStr (js "list_resources")) ->
   line_frames srv line = failure (js "User ID is not set for list_resources"))
  /\ (forall uri,
        get request (js "method") = Some (JStr (js "read_resource")) ->
        param (get request (js "params")) 0 (js "uri") = Some uri ->
        truthy uri = true ->
        line_frames srv line = failure (js "User ID is not set for read_resource"))
  /\ (forall name,
        get request (js "method") = Some (JStr (js "call_tool")) ->
        param (get request (js "params")) 0 (js "name") = Some (JStr name) ->
        truthy_string name = true ->
        line_frames srv line
        = failure (js "User ID is not set for call_tool " ++ name))
  /\ (get request (js "method") = Some (JStr (js "list_tools")) ->
      line_frames srv line = [stringify (result_response tools id) ++ [10]])
  /\ (forall rest, no_user (fst (Gateway.parse_session (58 :: rest))) = true).
Proof.
  intros Hno Hparse Hvalid Hid Hnn. cbv zeta.
  pose proof (fun m => valid_request_frame (createServer w userId apiKey)
                         line request id m Hparse Hvalid Hid Hnn) as Hframe.
  repeat split.
  - intros Hm. rewrite (Hframe _ Hm).
    rewrite dispatch_list_resources. cbn [createServer listResourcesHandler].
    by rewrite Hno.
  - intros uri Hm Hp Ht. rewrite (Hframe _ Hm). rewrite dispatch_read_resource.
    cbn [createServer readResourceHandler]. by rewrite Hp, Ht, Hno.
  - intros name Hm Hp Ht. rewrite (Hframe _ Hm). rewrite dispatch_call_tool.
    cbn [createServer callToolHandler]. rewrite Hp. cbn [truthy]. rewrite Ht.
    unfold call_tool. rewrite Hno. cbn [interpolates ToString].
    by rewrite or_default_prefixed.
  - intros Hm. rewrite (Hframe _ Hm). by rewrite dispatch_list_tools.
Qed.

Lemma requests_without_user_id_witness :
  line_frames (createServer quiet (fst (Gateway.parse_session (js ":secret")))
                 (snd (Gateway.parse_session (js ":secret"))))
    (json_text "{'jsonrpc':'2.0','method':'call_tool','params':{'name':'list_events'},'id':1}")
  = [json_text "{'jsonrpc':'2.0','error':{'code':-32603,'message':'User ID is not set for call_tool list_events'},'id':1}"
       ++ [10]].
Proof.
  pose proof (fun request =>
    requests_without_user_id quiet (fst (Gateway.parse_session (js ":secret")))
      (snd (Gateway.parse_session (js ":secret")))
      (json_text "{'jsonrpc':'2.0','method':'call_tool','params':{'name':'list_events'},'id':1}")
      request (JNum (num_of_Z 1)) eq_refl) as H.
  edestruct H as (_ & _ & Hcall & _);
    [vm_compute; reflexivity | vm_compute; reflexivity | vm_compute; reflexivity
    | discriminate |].
  rewrite (Hcall (js "list_events"));
    [vm_compute; reflexivity | vm_compute; reflexivity | vm_compute; reflexivity
    | reflexivity].
Defined.

(** X25.  Once the calendar service is there, a failure of
    [call_tool] is a result, not a JSON-RPC error: for a tool name that
    is a string, an unknown tool, a [create_event] that lacks one of
    its three required arguments and an [update_event] without
    [event_id] are answered with a text content
    "Error calling tool '<name>': <reason>". *)
Theorem tool_failures_are_results w userId apiKey line request id name :
  no_user userId = false ->
  createCalendarService w = Return tt ->
  JSON.parse line = Some request ->
  invalid_request request = false ->
  get request (js "id") = Some id -> id <> JNull ->
  get request (js "method") = Some (JStr (js "call_tool")) ->
  param (get request (js "params")) 0 (js "name") = Some (JStr name) ->
  truthy_string name = true ->
  let srv := createServer w userId apiKey in
  let args := or_null (param (get request (js "params")) 1 (js "args")) in
  let arguments := match args with JNull => JObj [] | _ => args end in
  let failure message :=
    [stringify
       (result_response
          (text_content (js "Error calling tool '" ++ name ++ js "': " ++ message))
          id) ++ [10]] in
  (name <> js "list_events" -> name <> js "create_event" ->
   name <> js "update_event" ->
   line_frames srv line = failure (js "Unknown tool: " ++ name))
  /\ (name = js "create_event" ->
      lacks arguments (js "summary") || lacks arguments (js "start_datetime")
      || lacks arguments (js "end_datetime") = true ->
      line_frames srv line
      = failure (js "Missing required parameters: summary, start_datetime, end_datetime"))
  /\ (name = js "update_event" ->
      lacks arguments (js "event_id") = true ->
      line_frames srv line = failure (js "Missing required parameter: event_id")).
Proof.
  intros Huser Hservice Hparse Hvalid Hid Hnn Hm Hp Ht. cbv zeta.
  rewrite (valid_request_frame _ line request id _ Hparse Hvalid Hid Hnn Hm).
  rewrite dispatch_call_tool. cbn [createServer callToolHandler].
  rewrite Hp. cbn [truthy]. rewrite Ht. unfold call_tool. rewrite Huser, Hservice.
  cbn [interpolates negb ToString is_text]. split; [|split].
  - intros H1 H2 H3. unfold JS.eqb.
    by rewrite !bool_decide_eq_false_2.
  - intros -> Hl.
    assert (E1 : JS.eqb (js "create_event") (js "list_events") = false)
      by (vm_compute; reflexivity).
    assert (E2 : JS.eqb (js "create_event") (js "create_event") = true)
      by (vm_compute; reflexivity).
    by rewrite E1, E2, Hl.
  - intros -> Hl.
    assert (E1 : JS.eqb (js "update_event") (js "list_events") = false)
      by (vm_compute; reflexivity).
    assert (E2 : JS.eqb (js "update_event") (js "create_event") = false)
      by (vm_compute; reflexivity).
    assert (E3 : JS.eqb (js "update_event") (js "update_event") = true)
      by (vm_compute; reflexivity).
    by rewrite E1, E2, E3, Hl.
Qed.

Lemma tool_failures_are_results_witness :
  line_frames (createServer quiet (Some (js "alice")) None)
    (json_text "{'jsonrpc':'2.0','method':'call_tool','params':['delete_event'],'id':2}")
  = [stringify
       (result_response
          (text_content (js "Error calling tool 'delete_event': Unknown tool: delete_event"))
          (JNum (num_of_Z 2))) ++ [10]]
  /\ line_frames (createServer quiet (Some (js "alice")) None)
       (json_text "{'jsonrpc':'2.0','method':'call_tool','params':{'name':'update_event','args':{'summary':'x'}},'id':3}")
     = [stringify
          (result_response
             (text_content (js "Error calling tool 'update_event': Missing required parameter: event_id"))
             (JNum (num_of_Z 3))) ++ [10]].
Proof.
  split.
  - pose proof (fun request =>
      tool_failures_are_results quiet (Some (js "alice")) None
        (json_text "{'jsonrpc':'2.0','method':'call_tool','params':['delete_event'],'id':2}")
        request (JNum (num_of_Z 2)) (js "delete_event") eq_refl eq_refl) as H.
    cbv zeta in H. edestruct H as (Hunknown & _);
      [vm_compute; reflexivity | vm_compute; reflexivity | vm_compute; reflexivity
      | discriminate | vm_compute; reflexivity | vm_compute; reflexivity | reflexivity |].
    rewrite Hunknown; [vm_compute; reflexivity | vm_compute; discriminate
                      | vm_compute; discriminate | vm_compute; discriminate].
  - pose proof (fun request =>
      tool_failures_are_results quiet (Some (js "alice")) None
        (json_text "{'jsonrpc':'2.0','method':'call_tool','params':{'name':'update_event','args':{'summary':'x'}},'id':3}")
        request (JNum (num_of_Z 3)) (js "update_event") eq_refl eq_refl) as H.
    cbv zeta in H. edestruct H as (_ & _ & Hupdate);
      [vm_compute; reflexivity | vm_compute; reflexivity | vm_compute; reflexivity
      | discriminate | vm_compute; reflexivity | vm_compute; reflexivity | reflexivity |].
    rewrite Hupdate; [vm_compute; reflexivity | reflexivity | vm_compute; reflexivity].
Defined.

(** X26.  When the calendar service cannot be created for the user
    (no stored credentials, for one), [list_resources], [read_resource]
    and [call_tool] are answered with the JSON-RPC error -32603 that
    carries the message of the failure, for every cursor, URI and tool
    name that the log line of the handler can hold (every string
    is one). *)
Theorem missing_credentials_are_an_error w userId apiKey line request id message :
  no_user userId = false ->
  createCalendarService w = Throw message ->
  JSON.parse line = Some request ->
  invalid_request request = false ->
  get request (js "id") = Some id -> id <> JNull ->
  let srv := createServer w userId apiKey in
  let failure :=
    [stringify (error_response (-32603)
                  (or_default (Some message) (js "Internal server error")) id)
       ++ [10]] in
  (get request (js "method") = Some (JStr (js "list_resources")) ->
   interpolates (or_null (param (get request (js "params")) 0 (js "cursor"))) = true ->
   line_frames srv line = failure)
  /\ (forall uri,
        get request (js "method") = Some (JStr (js "read_resource")) ->
        param (get request (js "params")) 0 (js "uri") = Some uri ->
        truthy uri = true -> interpolates uri = true ->
        line_frames srv line = failure)
  /\ (forall name,
        get request (js "method") = Some (JStr (js "call_tool")) ->
        param (get request (js "params")) 0 (js "name") = Some name ->
        truthy name = true -> interpolates name = true ->
        line_frames srv line = failure).
Proof.
  intros Huser Hservice Hparse Hvalid Hid Hnn. cbv zeta.
  pose proof (fun m => valid_request_frame (createServer w userId apiKey)
                         line request id m Hparse Hvalid Hid Hnn) as Hframe.
  split; [|split].
  - intros Hm Hi. rewrite (Hframe _ Hm). rewrite dispatch_list_resources.
    cbn [createServer listResourcesHandler]. by rewrite Huser, Hi, Hservice.
  - intros uri Hm Hp Ht Hi. rewrite (Hframe _ Hm). rewrite dispatch_read_resource.
    cbn [createServer readResourceHandler]. by rewrite Hp, Ht, Huser, Hi, Hservice.
  - intros name Hm Hp Ht Hi. rewrite (Hframe _ Hm). rewrite dispatch_call_tool.
    cbn [createServer callToolHandler]. rewrite Hp, Ht. unfold call_tool.
    by rewrite Huser, Hi, Hservice.
Qed.

Lemma missing_credentials_are_an_error_witness :
  line_frames (createServer without_credentials (Some (js "alice")) None)
    (json_text "{'jsonrpc':'2.0','method':'list_resources','id':4}")
  = [json_text "{'jsonrpc':'2.0','error':{'code':-32603,'message':'Credentials not found for user alice'},'id':4}"
       ++ [10]].
Proof.
  pose proof (fun request =>
    missing_credentials_are_an_error without_credentials (Some (js "alice")) None
      (json_text "{'jsonrpc':'2.0','method':'list_resources','id':4}")
      request (JNum (num_of_Z 4)) (js "Credentials not found for user alice")
      eq_refl eq_refl) as H.
  cbv zeta in H. edestruct H as (Hlist & _);
    [vm_compute; reflexivity | vm_compute; reflexivity | vm_compute; reflexivity
    | discriminate |].
  rewrite Hlist; vm_compute; reflexivity.
Defined.

End CalendarProofs.

(** ** Chunks that are not text *)

Module ChunkProofs.
Import Framer FramerFacts FramerProofs LineProofs.

Lemma ToString_no_LF chunk :
  match chunk with
  | JStr _ | JArr _ => False
  | JObj fields => obj_get (js "toString") fields = None
  | _ => True
  end ->
  Forall (fun c => c <> 10) (ToString chunk).
Proof.
  destruct chunk as [|[|]|x|s|items|fields]; try done; intros _.
  - vm_compute. repeat constructor; lia.
  - vm_compute. repeat constructor; lia.
  - vm_compute. repeat constructor; lia.
  - apply Number_toString_no_LF.
  - vm_compute. repeat constructor; lia.
Qed.

Lemma received_no_LF events :
  Forall (fun e => match e with
                   | Data (JStr _) | Data (JArr _) => False
                   | Data (JObj fields) => obj_get (js "toString") fields = None
                   | _ => True
                   end) events ->
  Forall (fun c => c <> 10) (received events).
Proof.
  induction 1 as [|e events He _ IH]; [constructor|].
  rewrite received_cons. apply Forall_app. split; [|exact IH].
  destruct e as [chunk|t]; [|constructor]. cbn [taken].
  destruct (readable (Data chunk)); [by apply ToString_no_LF | constructor].
Qed.

Lemma terminated_no_LF ls rest :
  Forall (fun c => c <> 10) (terminated ls ++ rest) -> ls = [].
Proof.
  destruct ls as [|l ls]; [done|]. unfold terminated. cbn [map concat].
  rewrite <- !app_assoc. intros H. apply Forall_app in H as [_ H].
  cbn [app] in H. inversion H; subst. done.
Qed.

(** X27.  A chunk that is not text holds no line for the framer: a
    JSON object pushed on the inbound stream (one without a member
    [toString]) is read as the text [[object Object]], a number and a
    boolean as their texts.  As long as only such chunks arrive,
    nothing is written, whatever they hold, and all their text stays
    in the buffer. *)
Theorem chunks_that_are_not_text_are_never_answered srv events :
  Forall (fun e => match e with
                   | Data (JBool _) | Data (JNum _) | Settle _ => True
                   | Data (JObj fields) => obj_get (js "toString") fields = None
                   | Data _ => False
                   end) events ->
  written (run srv events initial) = []
  /\ buffer (run srv events initial) = received events.
Proof.
  intros Hall.
  assert (Hno : Forall (fun c => c <> 10) (received events)).
  { apply received_no_LF. eapply Forall_impl; [exact Hall|].
    intros [[| | | | |]|]; done. }
  destruct (consistent_run srv events) as (ls & Htext & _ & Hperm & _).
  rewrite Htext in Hno. apply terminated_no_LF in Hno. subst ls.
  split.
  - cbn in Hperm. apply Permutation_nil_r in Hperm.
    by apply app_eq_nil in Hperm as [-> _].
  - by rewrite Htext.
Qed.

Lemma chunks_that_are_not_text_are_never_answered_witness :
  let body := JObj [(js "jsonrpc", JStr (js "2.0")); (js "method", JStr (js "list_tools"));
                    (js "id", JNum (num_of_Z 1))] in
  written (run calendar_like [Data body; Data body] initial) = []
  /\ buffer (run calendar_like [Data body; Data body] initial)
     = js "[object Object][object Object]".
Proof.
  intros body.
  destruct (chunks_that_are_not_text_are_never_answered calendar_like
              [Data body; Data body]) as [Hw Hb].
  - repeat constructor; vm_compute; reflexivity.
  - split; [exact Hw|]. rewrite Hb. vm_compute. reflexivity.
Defined.

End ChunkProofs.
